(** * The dashboard API: access control, sessions and webhook delivery

    A shallow embedding of the service layer of [dashboard/api/app]
    ([projects/deps.py], [projects/service.py], [projects/router.py],
    [auth/service.py], [auth/deps.py], [auth/router.py],
    [admin/service.py], [webhooks/service.py], [webhooks/worker.py]) and
    the properties of its access-control gate, of its sessions and of its
    delivery engine.

    Conventions of the embedding.
    - A table is a finite map from the primary key [id] (a uuid) to the
      row; the [id] column is the key and is not repeated in the row
      record.  [select(T).where(P)] is the list of the rows satisfying
      [P]; a query on the primary key is a lookup.
    - The columns filled by the database server ([created_at],
      [updated_at]) are read by none of the functions below and are left
      out of the row records.
    - [async] functions are run to completion one after the other: a
      function is a computation over the [World], which holds the tables
      the session sees and the number of calls made so far to the outside
      (the clock and the network).
    - A Python exception is the [Raise] result.
    - The delivery engine writes rows whose text comes from outside (the
      body of a response).  Its functions run in the session of one
      request: what they write reaches the tables at [db.commit()], which
      raises when the database refuses a row, and what a function that
      raises had not committed is not stored. *)

From stdpp Require Import base option list strings gmap fin_maps.
From Stdlib Require Import ZArith Lia Ascii.

Open Scope string_scope.
Open Scope Z_scope.

(** ** Exceptions and the computation monad *)

Inductive exn : Type :=
  | HTTPError (msg : string)                        (* httpx.HTTPError and its subclasses *)
  | HTTPException (status_code : Z) (detail : string) (* fastapi.HTTPException *)
  | MultipleResultsFound                            (* sqlalchemy.exc.MultipleResultsFound *)
  | IntegrityError                                  (* sqlalchemy.exc.IntegrityError *)
  | DBAPIError                                      (* sqlalchemy.exc.DBAPIError: a refused row *)
  | OtherException (name : string).                 (* an exception of another class *)

Inductive result (A : Type) : Type :=
  | Ok (a : A)
  | Raise (e : exn).
Arguments Ok {A} a.
Arguments Raise {A} e.

Abbreviation uuid := N.
Abbreviation datetime := Z.

(** JSON values, the payload of an event. *)
#[local] Set Warnings "-register-all".
Inductive json : Type :=
  | JNull
  | JBool (b : bool)
  | JInt (z : Z)
  | JStr (s : string)
  | JList (l : list json)
  | JDict (fields : list (string * json)).
#[local] Set Warnings "register-all".

(** Equality of JSON values, as a test. *)
Fixpoint json_eqb (a b : json) {struct a} : bool :=
  match a, b with
  | JNull, JNull => true
  | JBool x, JBool y => bool_decide (x = y)
  | JInt x, JInt y => bool_decide (x = y)
  | JStr x, JStr y => bool_decide (x = y)
  | JList l, JList k =>
      (fix go (l k : list json) {struct l} : bool :=
         match l, k with
         | [], [] => true
         | x :: l, y :: k => json_eqb x y && go l k
         | _, _ => false
         end) l k
  | JDict l, JDict k =>
      (fix go (l k : list (string * json)) {struct l} : bool :=
         match l, k with
         | [], [] => true
         | (s, x) :: l, (t, y) :: k => bool_decide (s = t) && json_eqb x y && go l k
         | _, _ => false
         end) l k
  | _, _ => false
  end.

(** ** Rows ([models.py]) *)

Record User := mkUser {
  user_email : string;
  user_name : string;
  user_password_hash : string;
  user_is_active : bool;
  user_is_superadmin : bool }.

Record RefreshToken := mkRefreshToken {
  rt_user_id : uuid;
  rt_token_hash : string;
  rt_expires_at : datetime;
  rt_revoked_at : option datetime }.

Record Project := mkProject {
  proj_slug : string;
  proj_name : string;
  proj_description : option string;
  proj_owner_id : uuid;
  proj_qdrant_collection : string;
  proj_neo4j_database : option string;
  proj_is_archived : bool }.

Record ProjectMember := mkProjectMember {
  pm_project_id : uuid;
  pm_user_id : uuid;
  pm_role : string;
  pm_invited_by : option uuid }.

Record Webhook := mkWebhook {
  wh_project_id : uuid;
  wh_url : string;
  wh_secret : string;
  wh_events : list string;
  wh_is_active : bool;
  wh_last_triggered_at : option datetime;
  wh_last_status_code : option Z }.

Record WebhookDelivery := mkWebhookDelivery {
  dl_webhook_id : uuid;
  dl_event : string;
  dl_payload : json;
  dl_status_code : option Z;
  dl_response_body : option string;
  dl_attempt_count : Z;
  dl_next_retry_at : option datetime;
  dl_delivered_at : option datetime }.

(** ** The world: the tables and the outside *)

Record World := mkWorld {
  users : gmap uuid User;
  refresh_tokens : gmap uuid RefreshToken;
  projects : gmap uuid Project;
  project_members : gmap uuid ProjectMember;
  webhooks : gmap uuid Webhook;
  webhook_deliveries : gmap uuid WebhookDelivery;
  ticks : nat }.

Definition set_users (f : gmap uuid User → gmap uuid User) (w : World) : World :=
  mkWorld (f (users w)) (refresh_tokens w) (projects w) (project_members w)
          (webhooks w) (webhook_deliveries w) (ticks w).
Definition set_project_members
    (f : gmap uuid ProjectMember → gmap uuid ProjectMember) (w : World) : World :=
  mkWorld (users w) (refresh_tokens w) (projects w) (f (project_members w))
          (webhooks w) (webhook_deliveries w) (ticks w).
Definition set_webhooks (f : gmap uuid Webhook → gmap uuid Webhook) (w : World) : World :=
  mkWorld (users w) (refresh_tokens w) (projects w) (project_members w)
          (f (webhooks w)) (webhook_deliveries w) (ticks w).
Definition set_webhook_deliveries
    (f : gmap uuid WebhookDelivery → gmap uuid WebhookDelivery) (w : World) : World :=
  mkWorld (users w) (refresh_tokens w) (projects w) (project_members w)
          (webhooks w) (f (webhook_deliveries w)) (ticks w).
Definition set_ticks (f : nat → nat) (w : World) : World :=
  mkWorld (users w) (refresh_tokens w) (projects w) (project_members w)
          (webhooks w) (webhook_deliveries w) (f (ticks w)).

(** An outbound request and what comes back. *)
Record Request := mkRequest {
  req_url : string;
  req_content : string;
  req_headers : list (string * string);
  req_timeout : Z }.

Record Response := mkResponse {
  status_code : Z;
  text : string }.

(** What [client.post] does: the endpoint answers; or the request fails
    in transport and httpx raises an [HTTPError] with a message; or the
    call raises an exception of another class, named here, as it does on
    a stored url whose host name [idna] refuses ([InvalidCodepoint]). *)
Inductive post_outcome : Type :=
  | Answers (resp : Response)
  | FailsInTransport (msg : string)
  | RaisesOther (exc : string).

(** The outside of the program: the clock, the remote endpoints, the
    database's check of a delivery row and the library functions the code
    calls without looking inside.  The [n]-th call to the outside is
    answered by [utcnow n] or [post n].  [db_accepts d] says whether the
    database stores the row [d]: PostgreSQL refuses, for one, a text that
    holds the character U+0000. *)
Record Env := mkEnv {
  utcnow : nat → datetime;
  post : nat → Request → post_outcome;
  db_accepts : WebhookDelivery → bool;
  json_dumps : json → string;
  hmac_sha256_hexdigest : string → string → string;
  sha256_hexdigest : string → string;
  pwd_context_hash : string → string;
  jwt_encode : uuid → datetime → string;
  uuid_str : uuid → string;
  ACCESS_TOKEN_EXPIRE_MINUTES : Z }.

Definition M (A : Type) : Type := World → result A * World.

Definition ret {A} (a : A) : M A := fun w => (Ok a, w).
Definition raise {A} (e : exn) : M A := fun w => (Raise e, w).
Definition bind {A B} (m : M A) (k : A → M B) : M B :=
  fun w => match m w with
           | (Ok a, w') => k a w'
           | (Raise e, w') => (Raise e, w')
           end.

#[global] Instance M_ret : MRet M := @ret.
#[global] Instance M_bind : MBind M := fun A B k m => bind m k.

(** [try: body  except httpx.HTTPError as exc: handler(str(exc))]: only an
    [HTTPError] is caught, any other exception goes on to the caller. *)
Definition try_except_HTTPError {A} (body : M A) (handler : string → M A) : M A :=
  fun w => match body w with
           | (Raise (HTTPError msg), w') => handler msg w'
           | r => r
           end.

Definition get {A} (f : World → A) : M A := fun w => (Ok (f w), w).
Definition modify (f : World → World) : M unit := fun w => (Ok tt, f w).

(** [datetime.now(timezone.utc)] *)
Definition datetime_now (E : Env) : M datetime :=
  fun w => (Ok (utcnow E (ticks w)), set_ticks S w).

(** [await client.post(url, content=..., headers=..., timeout=...)] *)
Definition client_post (E : Env) (url content : string)
    (headers : list (string * string)) (timeout : Z) : M Response :=
  fun w => match post E (ticks w) (mkRequest url content headers timeout) with
           | Answers resp => (Ok resp, set_ticks S w)
           | FailsInTransport msg => (Raise (HTTPError msg), set_ticks S w)
           | RaisesOther exc => (Raise (OtherException exc), set_ticks S w)
           end.

(** The two rows are the same row. *)
Definition delivery_eqb (a b : WebhookDelivery) : bool :=
  bool_decide (dl_webhook_id a = dl_webhook_id b)
  && bool_decide (dl_event a = dl_event b)
  && json_eqb (dl_payload a) (dl_payload b)
  && bool_decide (dl_status_code a = dl_status_code b)
  && bool_decide (dl_response_body a = dl_response_body b)
  && bool_decide (dl_attempt_count a = dl_attempt_count b)
  && bool_decide (dl_next_retry_at a = dl_next_retry_at b)
  && bool_decide (dl_delivered_at a = dl_delivered_at b).

(** The table [t] holds the row [kd.2] under the key [kd.1]. *)
Definition stored_in (t : gmap uuid WebhookDelivery) (kd : uuid * WebhookDelivery) : bool :=
  match t !! kd.1 with
  | Some d => delivery_eqb d kd.2
  | None => false
  end.

(** The delivery rows that the session [w] has added or changed since
    [before], the state of the database. *)
Definition dirty_deliveries (before w : World) : list (uuid * WebhookDelivery) :=
  List.filter (fun kd => negb (stored_in (webhook_deliveries before) kd))
    (map_to_list (webhook_deliveries w)).

(** [await db.commit()]: the rows that the session has added or changed
    go to the database; it raises when the database refuses one. *)
Definition commit (E : Env) (before : World) : M unit :=
  fun w => if forallb (fun kd => db_accepts E kd.2) (dirty_deliveries before w)
           then (Ok tt, w)
           else (Raise DBAPIError, w).
#[global] Arguments commit : simpl never.

(** The session rolled back: the tables as the database has them, at the
    point that the clock of [w] has reached. *)
Definition rollback (before w : World) : World := set_ticks (fun _ => ticks w) before.

(** A function that runs in the session of a request: [before] is the
    state of the database when it starts, and when it raises, what it had
    not committed is not stored. *)
Definition in_session {A} (body : World → M A) : M A :=
  fun before => match body before before with
                | (Raise e, w) => (Raise e, rollback before w)
                | r => r
                end.

(** [result.scalar_one_or_none()] *)
Definition scalar_one_or_none {A} (rows : list A) : M (option A) :=
  match rows with
  | [] => ret None
  | [x] => ret (Some x)
  | _ => raise MultipleResultsFound
  end.

(** [select(T).where(P)] over a table. *)
Definition select_where {A} (P : A → bool) (table : gmap uuid A) : list (uuid * A) :=
  List.filter (fun kv => P (snd kv)) (map_to_list table).

(** [uuid.uuid4], the default of a primary key: an identifier that the
    table does not hold yet. *)
Definition uuid4 {A} (table : gmap uuid A) : uuid := fresh (dom table).

(** ** [projects/deps.py] *)

Definition ROLE_HIERARCHY : gmap string Z :=
  list_to_map [("owner", 4); ("admin", 3); ("member", 2); ("viewer", 1)].

(** [ROLE_HIERARCHY.get(role, 0)] *)
Definition role_rank (role : string) : Z := default 0 (ROLE_HIERARCHY !! role).

Definition check_role_level (user_role min_role : string) : bool :=
  role_rank min_role <=? role_rank user_role.

(** [where(Project.slug == slug, Project.is_archived.is_(False))] *)
Definition project_query (slug : string) : Project → bool :=
  fun p => bool_decide (proj_slug p = slug) && negb (proj_is_archived p).

(** [where(ProjectMember.project_id == pid, ProjectMember.user_id == uid)] *)
Definition member_query (pid uid : uuid) : ProjectMember → bool :=
  fun m => bool_decide (pm_project_id m = pid) && bool_decide (pm_user_id m = uid).

(** What [require_project_access] leaves on [request.state]. *)
Record RequestState := mkRequestState {
  state_project_id : option uuid;
  state_user_id : option uuid }.

(** The [_dependency] that [require_project_access(min_role)] returns,
    applied to the path's [slug], the request and the resolved principal.
    It answers with the request (its state filled in) and the pair
    [(project, membership)]. *)
Definition require_project_access (min_role : string) (slug : string)
    (request : RequestState) (user : uuid * User)
    : M (RequestState * ((uuid * Project) * (uuid * ProjectMember))) :=
  ps ← get projects;
  project ← scalar_one_or_none (select_where (project_query slug) ps);
  match project with
  | None => raise (HTTPException 404 "Project not found")
  | Some project =>
      ms ← get project_members;
      membership ← scalar_one_or_none (select_where (member_query project.1 user.1) ms);
      match membership with
      | None => raise (HTTPException 403 "Not a project member")
      | Some membership =>
          if negb (check_role_level (pm_role membership.2) min_role)
          then raise (HTTPException 403 ("Requires at least '" +:+ min_role +:+ "' role"))
          else
            let request := mkRequestState (Some project.1) (Some user.1) in
            mret (request, (project, membership))
      end
  end.

(** ** [auth/service.py] *)

Definition _hash_token (E : Env) (token : string) : string := sha256_hexdigest E token.

(** [db.add(user); await db.commit(); await db.refresh(user)]: the row gets
    its primary key; the [unique] constraint on [email] makes the commit
    fail when the address is taken. *)
Definition add_user (user : User) : M (uuid * User) :=
  fun w =>
    match select_where (fun u => bool_decide (user_email u = user_email user)) (users w) with
    | [] => let id := uuid4 (users w) in (Ok (id, user), set_users (insert id user) w)
    | _ => (Raise IntegrityError, w)
    end.

Definition create_user (E : Env) (email name password : string) : M (uuid * User) :=
  count ← get (fun w => Z.of_nat (size (users w)));
  let user := mkUser email name (pwd_context_hash E password) true (bool_decide (count = 0)) in
  add_user user.

(** [timedelta(minutes=m)], a [datetime] being a count of microseconds. *)
Definition timedelta_minutes (m : Z) : Z := m * 60000000.

Definition create_access_token (E : Env) (user_id : uuid) : M string :=
  now ← datetime_now E;
  let expire := now + timedelta_minutes (ACCESS_TOKEN_EXPIRE_MINUTES E) in
  mret (jwt_encode E user_id expire).

(** [where(RefreshToken.token_hash == token_hash,
          RefreshToken.revoked_at.is_(None),
          RefreshToken.expires_at > now)] *)
Definition token_query (token_hash : string) (now : datetime) : RefreshToken → bool :=
  fun r => bool_decide (rt_token_hash r = token_hash)
           && bool_decide (rt_revoked_at r = None)
           && (now <? rt_expires_at r).

Definition refresh_access_token (E : Env) (refresh_token : string) : M (option string) :=
  let token_hash := _hash_token E refresh_token in
  now ← datetime_now E;
  rts ← get refresh_tokens;
  rt ← scalar_one_or_none (select_where (token_query token_hash now) rts);
  match rt with
  | None => mret None
  | Some rt => tok ← create_access_token E (rt_user_id rt.2); mret (Some tok)
  end.

(** ** [projects/service.py] *)

Definition set_pm_role (role : string) (m : ProjectMember) : ProjectMember :=
  mkProjectMember (pm_project_id m) (pm_user_id m) role (pm_invited_by m).

Definition add_member (project : uuid * Project) (email role : string)
    (invited_by : uuid) : M (uuid * ProjectMember) :=
  us ← get users;
  target_user ← scalar_one_or_none
    (select_where (fun u => bool_decide (user_email u = email)) us);
  match target_user with
  | None => raise (HTTPException 404 "User not found")
  | Some target_user =>
      ms ← get project_members;
      existing ← scalar_one_or_none
        (select_where (member_query project.1 target_user.1) ms);
      match existing with
      | Some _ => raise (HTTPException 409 "User is already a member")
      | None =>
          let membership := mkProjectMember project.1 target_user.1 role (Some invited_by) in
          let id := uuid4 ms in
          modify (set_project_members (insert id membership));;
          mret (id, membership)
      end
  end.

Definition update_member (project : uuid * Project) (user_id : uuid) (role : string)
    : M (uuid * ProjectMember) :=
  ms ← get project_members;
  membership ← scalar_one_or_none (select_where (member_query project.1 user_id) ms);
  match membership with
  | None => raise (HTTPException 404 "Member not found")
  | Some membership =>
      if bool_decide (pm_role membership.2 = "owner")
      then raise (HTTPException 400 "Cannot change owner role")
      else
        let membership := (membership.1, set_pm_role role membership.2) in
        modify (set_project_members (insert membership.1 membership.2));;
        mret membership
  end.

Definition remove_member (project : uuid * Project) (user_id : uuid) : M bool :=
  ms ← get project_members;
  membership ← scalar_one_or_none (select_where (member_query project.1 user_id) ms);
  match membership with
  | None => raise (HTTPException 404 "Member not found")
  | Some membership =>
      if bool_decide (pm_role membership.2 = "owner")
      then raise (HTTPException 400 "Cannot remove project owner")
      else
        modify (set_project_members (delete membership.1));;
        mret true
  end.

(** ** [webhooks/service.py] *)

(** [s[:n]] *)
Definition py_slice_to (n : nat) (s : string) : string := String.substring 0 n s.

(** [resp.text[:2000] if resp.text else None] *)
Definition response_body_of (text : string) : option string :=
  match text with
  | EmptyString => None
  | _ => Some (py_slice_to 2000 text)
  end.

Definition set_dl_status_code (v : option Z) (d : WebhookDelivery) : WebhookDelivery :=
  mkWebhookDelivery (dl_webhook_id d) (dl_event d) (dl_payload d) v (dl_response_body d)
    (dl_attempt_count d) (dl_next_retry_at d) (dl_delivered_at d).
Definition set_dl_response_body (v : option string) (d : WebhookDelivery) : WebhookDelivery :=
  mkWebhookDelivery (dl_webhook_id d) (dl_event d) (dl_payload d) (dl_status_code d) v
    (dl_attempt_count d) (dl_next_retry_at d) (dl_delivered_at d).
Definition set_dl_attempt_count (v : Z) (d : WebhookDelivery) : WebhookDelivery :=
  mkWebhookDelivery (dl_webhook_id d) (dl_event d) (dl_payload d) (dl_status_code d)
    (dl_response_body d) v (dl_next_retry_at d) (dl_delivered_at d).
Definition set_dl_delivered_at (v : option datetime) (d : WebhookDelivery) : WebhookDelivery :=
  mkWebhookDelivery (dl_webhook_id d) (dl_event d) (dl_payload d) (dl_status_code d)
    (dl_response_body d) (dl_attempt_count d) (dl_next_retry_at d) v.

(** [webhook.last_triggered_at = t; webhook.last_status_code = c] *)
Definition set_wh_last (t : option datetime) (c : option Z) (h : Webhook) : Webhook :=
  mkWebhook (wh_project_id h) (wh_url h) (wh_secret h) (wh_events h) (wh_is_active h) t c.

Definition get_webhook (webhook_id : uuid) : M (option (uuid * Webhook)) :=
  whs ← get webhooks;
  mret ((fun h => (webhook_id, h)) <$> whs !! webhook_id).

Definition _sign_payload (E : Env) (payload_bytes secret : string) : string :=
  hmac_sha256_hexdigest E secret payload_bytes.

Definition webhook_headers (signature event : string) : list (string * string) :=
  [("Content-Type", "application/json");
   ("X-Webhook-Signature", signature);
   ("X-Webhook-Event", event)].

(** [200 <= resp.status_code < 300] *)
Definition is_2xx (code : Z) : bool := (200 <=? code) && (code <? 300).

(** [_deliver]: the [try] holds the POST and what is read off the
    response; [db.add(delivery)] and [db.commit()] come after it. *)
Definition _deliver (E : Env) (webhook : uuid * Webhook) (event : string) (payload : json)
    : M (uuid * WebhookDelivery) :=
  in_session (fun before =>
    let payload_bytes := json_dumps E payload in
    let signature := _sign_payload E payload_bytes (wh_secret webhook.2) in
    let delivery := mkWebhookDelivery webhook.1 event payload None None 1 None None in
    delivery ← try_except_HTTPError
      (resp ← client_post E (wh_url webhook.2) payload_bytes
                (webhook_headers signature event) 10;
       let delivery := set_dl_status_code (Some (status_code resp)) delivery in
       let delivery := set_dl_response_body (response_body_of (text resp)) delivery in
       if is_2xx (status_code resp)
       then now ← datetime_now E; mret (set_dl_delivered_at (Some now) delivery)
       else mret delivery)
      (fun exc => mret (set_dl_response_body (Some (py_slice_to 2000 exc)) delivery));
    now ← datetime_now E;
    modify (set_webhooks
              (insert webhook.1 (set_wh_last (Some now) (dl_status_code delivery) webhook.2)));;
    ds ← get webhook_deliveries;
    let id := uuid4 ds in
    modify (set_webhook_deliveries (insert id delivery));;
    commit E before;;
    mret (id, delivery)).

(** [for x in xs: ys.append(await f(x))] *)
Fixpoint for_each {A B} (f : A → M B) (xs : list A) : M (list B) :=
  match xs with
  | [] => mret []
  | x :: xs => y ← f x; ys ← for_each f xs; mret (y :: ys)
  end.

(** [event in w.events or "*" in w.events] *)
Definition subscribed (event : string) (h : Webhook) : bool :=
  bool_decide (event ∈ wh_events h) || bool_decide ("*" ∈ wh_events h).

Definition fire_webhook (E : Env) (project_id : uuid) (event : string) (payload : json)
    : M (list (uuid * WebhookDelivery)) :=
  whs ← get webhooks;
  let webhooks :=
    select_where (fun h => bool_decide (wh_project_id h = project_id) && wh_is_active h) whs in
  let matching := List.filter (fun wh => subscribed event wh.2) webhooks in
  for_each (fun wh => _deliver E wh event payload) matching.

Definition test_webhook (E : Env) (webhook_id : uuid) : M (option (uuid * WebhookDelivery)) :=
  webhook ← get_webhook webhook_id;
  match webhook with
  | None => mret None
  | Some webhook =>
      let test_payload :=
        JDict [("event", JStr "webhook.test"); ("webhook_id", JStr (uuid_str E webhook.1))] in
      delivery ← _deliver E webhook "webhook.test" test_payload;
      mret (Some delivery)
  end.

(** The body of the loop of [retry_failed_deliveries]; [retried] is the
    counter of the function, [delivery] a row of the selection.  It
    writes to the session; nothing is committed here. *)
Definition retry_delivery (E : Env) (retried : Z) (delivery : uuid * WebhookDelivery) : M Z :=
  whs ← get webhooks;
  match whs !! dl_webhook_id delivery.2 with
  | None => mret retried
  | Some webhook =>
      if negb (wh_is_active webhook) then mret retried
      else
        let payload_bytes := json_dumps E (dl_payload delivery.2) in
        let signature := _sign_payload E payload_bytes (wh_secret webhook) in
        let row := set_dl_attempt_count (dl_attempt_count delivery.2 + 1) delivery.2 in
        '(row, retried) ← try_except_HTTPError
          (resp ← client_post E (wh_url webhook) payload_bytes
                    (webhook_headers signature (dl_event row)) 10;
           let row := set_dl_status_code (Some (status_code resp)) row in
           let row := set_dl_response_body (response_body_of (text resp)) row in
           if is_2xx (status_code resp)
           then now ← datetime_now E;
                mret (set_dl_delivered_at (Some now) row, retried + 1)
           else mret (row, retried))
          (fun exc => mret (set_dl_response_body (Some (py_slice_to 2000 exc)) row, retried));
        now ← datetime_now E;
        modify (set_webhooks
                  (insert (dl_webhook_id row)
                          (set_wh_last (Some now) (dl_status_code row) webhook)));;
        modify (set_webhook_deliveries (insert delivery.1 row));;
        mret retried
  end.

(** [for x in xs: acc = await f(acc, x)] *)
Fixpoint for_fold {A B} (f : B → A → M B) (acc : B) (xs : list A) : M B :=
  match xs with
  | [] => mret acc
  | x :: xs => acc ← f acc x; for_fold f acc xs
  end.

(** [where(WebhookDelivery.delivered_at.is_(None), WebhookDelivery.attempt_count < 3)] *)
Definition retry_query : WebhookDelivery → bool :=
  fun d => bool_decide (dl_delivered_at d = None) && (dl_attempt_count d <? 3).

(** [retry_failed_deliveries]: the loop writes to the rows of the
    session, and the one [db.commit()] comes after it. *)
Definition retry_failed_deliveries (E : Env) : M Z :=
  in_session (fun before =>
    ds ← get webhook_deliveries;
    let deliveries := select_where retry_query ds in
    retried ← for_fold (retry_delivery E) 0 deliveries;
    commit E before;;
    mret retried).

(** ** The claimed order on roles, as the specification words it *)

Inductive Role : Type := owner | admin | member | viewer.

Definition role_name (r : Role) : string :=
  match r with
  | owner => "owner"
  | admin => "admin"
  | member => "member"
  | viewer => "viewer"
  end.

(** owner > admin > member > viewer, with ranks 4, 3, 2, 1. *)
Definition rank (r : Role) : Z :=
  match r with
  | owner => 4
  | admin => 3
  | member => 2
  | viewer => 1
  end.

(** ** Schema constraints and the runs the properties speak of *)

(** [unique=True] on [projects.slug]. *)
Definition unique_slug (w : World) : Prop :=
  ∀ k1 k2 p1 p2, projects w !! k1 = Some p1 → projects w !! k2 = Some p2 →
    proj_slug p1 = proj_slug p2 → k1 = k2.

(** Each (project, user) pair has at most one membership row. *)
Definition unique_membership (w : World) : Prop :=
  ∀ k1 k2 m1 m2, project_members w !! k1 = Some m1 → project_members w !! k2 = Some m2 →
    pm_project_id m1 = pm_project_id m2 → pm_user_id m1 = pm_user_id m2 → k1 = k2.

(** [unique=True] on [refresh_tokens.token_hash]. *)
Definition unique_token_hash (w : World) : Prop :=
  ∀ k1 k2 r1 r2, refresh_tokens w !! k1 = Some r1 → refresh_tokens w !! k2 = Some r2 →
    rt_token_hash r1 = rt_token_hash r2 → k1 = k2.

(** A run of registrations: the calls of [create_user] made one after the
    other, a failed one leaving the session as it was; the users created,
    in order. *)
Fixpoint register_all (E : Env) (reqs : list (string * string * string)) (w : World)
    : list (uuid * User) :=
  match reqs with
  | [] => []
  | (email, name, password) :: reqs =>
      match create_user E email name password w with
      | (Ok u, w') => u :: register_all E reqs w'
      | (Raise _, w') => register_all E reqs w'
      end
  end.

(** The member-update and member-remove operations of a project. *)
Inductive member_op : Type :=
  | UpdateMember (project : uuid * Project) (user_id : uuid) (role : string)
  | RemoveMember (project : uuid * Project) (user_id : uuid).

Definition run_member_op (op : member_op) (w : World) : World :=
  match op with
  | UpdateMember project user_id role => (update_member project user_id role w).2
  | RemoveMember project user_id => (remove_member project user_id w).2
  end.

Definition run_member_ops (ops : list member_op) (w : World) : World :=
  foldl (fun w op => run_member_op op w) w ops.

(** [(pid, p)] is the non-archived project of that slug. *)
Definition live_project (w : World) (slug : string) (pid : uuid) (p : Project) : Prop :=
  projects w !! pid = Some p ∧ proj_slug p = slug ∧ proj_is_archived p = false.

(** [(mid, m)] is the membership row of user [uid] in project [pid]. *)
Definition membership_row (w : World) (pid uid mid : uuid) (m : ProjectMember) : Prop :=
  project_members w !! mid = Some m ∧ pm_project_id m = pid ∧ pm_user_id m = uid.

(** [(k, rt)] is the row stored for the raw token. *)
Definition stored_token (E : Env) (w : World) (refresh_token : string)
    (k : uuid) (rt : RefreshToken) : Prop :=
  refresh_tokens w !! k = Some rt ∧ rt_token_hash rt = _hash_token E refresh_token.

(** ** What the delivery properties speak of *)

(** The request that a delivery of [payload] to [h] sends. *)
Definition request_of (E : Env) (h : Webhook) (event : string) (payload : json) : Request :=
  let payload_bytes := json_dumps E payload in
  mkRequest (wh_url h) payload_bytes
    (webhook_headers (_sign_payload E payload_bytes (wh_secret h)) event) 10.

(** [delivered_at] is set. *)
Definition delivered (d : WebhookDelivery) : Prop := is_Some (dl_delivered_at d).

(** The recorded status code is in [200, 300). *)
Definition status_2xx (d : WebhookDelivery) : Prop :=
  ∃ code, dl_status_code d = Some code ∧ 200 ≤ code < 300.

(** The row [d] records the outcome [o] of a first attempt; no row
    records a POST that raised another exception. *)
Definition records_outcome (o : post_outcome) (d : WebhookDelivery) : Prop :=
  match o with
  | Answers resp =>
      dl_status_code d = Some (status_code resp)
      ∧ dl_response_body d = response_body_of (text resp)
      ∧ (delivered d ↔ 200 ≤ status_code resp < 300)
  | FailsInTransport msg =>
      dl_status_code d = None
      ∧ dl_response_body d = Some (py_slice_to 2000 msg)
      ∧ dl_delivered_at d = None
  | RaisesOther _ => False
  end.

(** A first attempt's row: one attempt, delivered exactly on a 2xx code. *)
Definition first_attempt_row (d : WebhookDelivery) : Prop :=
  dl_attempt_count d = 1 ∧ (delivered d ↔ status_2xx d).

(** The webhooks that [fire_webhook] selects: of the project, active, and
    subscribed to the event or to the wildcard. *)
Definition fires (project_id : uuid) (event : string) (h : Webhook) : Prop :=
  wh_project_id h = project_id ∧ wh_is_active h = true
  ∧ (event ∈ wh_events h ∨ "*" ∈ wh_events h).

Definition matching_webhooks (project_id : uuid) (event : string) (w : World)
    : list (uuid * Webhook) :=
  List.filter (fun wh => subscribed event wh.2)
    (select_where (fun h => bool_decide (wh_project_id h = project_id) && wh_is_active h)
       (webhooks w)).

(** The row is in the selection of the sweep. *)
Definition retriable (d : WebhookDelivery) : Prop :=
  dl_delivered_at d = None ∧ dl_attempt_count d < 3.

(** The parent webhook of the row exists and is active. *)
Definition parent_active (w : World) (d : WebhookDelivery) : Prop :=
  ∃ h, webhooks w !! dl_webhook_id d = Some h ∧ wh_is_active h = true.

(** The rows that the sweep attempts. *)
Definition attempted (w : World) (d : WebhookDelivery) : Prop :=
  retriable d ∧ parent_active w d.

(** The POST was answered with a 2xx response. *)
Definition outcome_2xx (o : post_outcome) : bool :=
  match o with
  | Answers resp => is_2xx (status_code resp)
  | _ => false
  end.

(** The row [d'] is the row [d] after a retry of outcome [o]. *)
Definition records_retry (o : post_outcome) (d d' : WebhookDelivery) : Prop :=
  dl_attempt_count d' = dl_attempt_count d + 1
  ∧ dl_webhook_id d' = dl_webhook_id d ∧ dl_event d' = dl_event d
  ∧ dl_payload d' = dl_payload d
  ∧ (if outcome_2xx o then delivered d' else dl_delivered_at d' = dl_delivered_at d)
  ∧ match o with
    | Answers resp =>
        dl_status_code d' = Some (status_code resp)
        ∧ dl_response_body d' = response_body_of (text resp)
    | FailsInTransport msg =>
        dl_status_code d' = dl_status_code d
        ∧ dl_response_body d' = Some (py_slice_to 2000 msg)
    | RaisesOther _ => False
    end.

(** The columns of a webhook that a delivery does not write. *)
Definition wh_static (h : Webhook) : uuid * string * string * list string * bool :=
  (wh_project_id h, wh_url h, wh_secret h, wh_events h, wh_is_active h).

(** The row of key [k] has [delivered_at] set in the table. *)
Definition delivered_in (t : gmap uuid WebhookDelivery) (k : uuid) : bool :=
  match t !! k with
  | Some d => bool_decide (delivered d)
  | None => false
  end.

(** The row had [delivered_at] unset before the sweep and has it set in
    the table [t] after it. *)
Definition became_delivered (t : gmap uuid WebhookDelivery)
    (kd : uuid * WebhookDelivery) : bool :=
  bool_decide (dl_delivered_at kd.2 = None) && delivered_in t kd.1.

(** An environment in which [client.post] raises nothing but an
    [HTTPError] and the database accepts every delivery row. *)
Definition well_behaved (E : Env) : Prop :=
  (∀ n r exc, post E n r ≠ RaisesOther exc) ∧ (∀ d, db_accepts E d = true).

(** The two sessions hold the same rows in every table. *)
Definition same_tables (w w' : World) : Prop :=
  users w' = users w ∧ refresh_tokens w' = refresh_tokens w
  ∧ projects w' = projects w ∧ project_members w' = project_members w
  ∧ webhooks w' = webhooks w ∧ webhook_deliveries w' = webhook_deliveries w.

(** An environment and sessions to run the functions on. *)
Definition sample_env : Env :=
  mkEnv (fun n => 1000 + Z.of_nat n)
        (fun n r => if bool_decide (req_url r = "https://down.test/hook")
                    then FailsInTransport "ConnectError"
                    else Answers (mkResponse 200 "ok"))
        (fun _ => true)
        (fun _ => "{}") (fun key msg => key +:+ msg) (fun s => "sha256:" +:+ s)
        (fun s => "bcrypt:" +:+ s) (fun _ _ => "jwt") (fun _ => "uuid") 30.

Definition alice : User := mkUser "alice@example.test" "Alice" "bcrypt:a" true true.
Definition bob : User := mkUser "bob@example.test" "Bob" "bcrypt:b" true false.
Definition carol : User := mkUser "carol@example.test" "Carol" "bcrypt:c" true false.

Definition sample_project : uuid * Project :=
  (20%N, mkProject "demo" "Demo" None 10%N "proj_demo_memories" None false).

Definition sample_world : World :=
  mkWorld
    (<[10%N := alice]> (<[11%N := bob]> (<[12%N := carol]> ∅)))
    (<[40%N := mkRefreshToken 10%N "sha256:live" 5000 None]>
       (<[41%N := mkRefreshToken 11%N "sha256:revoked" 5000 (Some 900)]>
          (<[42%N := mkRefreshToken 11%N "sha256:expired" 1000 None]> ∅)))
    (<[sample_project.1 := sample_project.2]> ∅)
    (<[30%N := mkProjectMember 20%N 10%N "owner" None]>
       (<[31%N := mkProjectMember 20%N 11%N "viewer" (Some 10%N)]> ∅))
    (<[50%N := mkWebhook 20%N "https://up.test/hook" "s1" ["*"] true None None]>
       (<[51%N := mkWebhook 20%N "https://down.test/hook" "s2" ["memory.created"] true None None]>
          (<[52%N := mkWebhook 20%N "https://up.test/other" "s3" ["memory.deleted"] true None None]>
             (<[53%N := mkWebhook 20%N "https://up.test/off" "s4" ["*"] false None None]> ∅))))
    (<[60%N := mkWebhookDelivery 51%N "memory.created" JNull None (Some "ConnectError") 1 None None]>
       (<[61%N := mkWebhookDelivery 50%N "memory.created" JNull (Some 500) (Some "busy") 2 None None]>
          (<[62%N := mkWebhookDelivery 50%N "memory.created" JNull (Some 500) (Some "busy") 3 None None]>
             (<[63%N := mkWebhookDelivery 50%N "memory.created" JNull (Some 200) (Some "ok") 1 None (Some 990)]>
                (<[64%N := mkWebhookDelivery 53%N "memory.created" JNull (Some 500) (Some "busy") 1 None None]> ∅)))))
    0.

(** The text holds the character U+0000. *)
Fixpoint has_nul (s : string) : bool :=
  match s with
  | EmptyString => false
  | String c s => bool_decide (c = "000"%char) || has_nul s
  end.

(** An environment with two endpoints that the delivery engine meets
    badly.  The one at [nul.test] answers 200 with a body that holds
    U+0000, a row with such a response body being one that the database
    refuses.  The url of the other has a host name that [idna] refuses:
    [client.post] raises [InvalidCodepoint], which is no [HTTPError]. *)
Definition hostile_env : Env :=
  mkEnv (utcnow sample_env)
        (fun n r => if bool_decide (req_url r = "https://nul.test/hook")
                    then Answers (mkResponse 200 (String "000" "ok"))
                    else if bool_decide (req_url r = "https://xn--n3h.test/")
                    then RaisesOther "InvalidCodepoint"
                    else post sample_env n r)
        (fun d => negb (from_option has_nul false (dl_response_body d)))
        (json_dumps sample_env) (hmac_sha256_hexdigest sample_env)
        (sha256_hexdigest sample_env) (pwd_context_hash sample_env)
        (jwt_encode sample_env) (uuid_str sample_env)
        (ACCESS_TOKEN_EXPIRE_MINUTES sample_env).

(** The sample session with the url of webhook 50, the first of the two
    that match [memory.created], set to the one and to the other. *)
Definition nul_world : World :=
  set_webhooks
    (insert 50%N (mkWebhook 20%N "https://nul.test/hook" "s1" ["*"] true None None))
    sample_world.

Definition idna_world : World :=
  set_webhooks
    (insert 50%N (mkWebhook 20%N "https://xn--n3h.test/" "s1" ["*"] true None None))
    sample_world.

(** ** The rest of the service layer *)

(** What [pwd_context.verify(password, hash)] does: it answers, or it
    raises, as it does with [UnknownHashError] on a stored value that it
    cannot identify as a hash. *)
Inductive verify_outcome : Type :=
  | Verifies (ok : bool)
  | VerifyRaises (exc : string).

(** More of the outside: the random strings of [secrets], the password
    check of [passlib], the vector store, the settings of [config.py] and
    the lower-casing of the characters from 128 on:
    [unicode_lower before c after] is what [str.lower] makes of the byte
    [c] in a string held as its UTF-8 bytes, [before] and [after] being
    the bytes on its two sides. *)
Record Lib := mkLib {
  token_urlsafe : nat → nat → string;
  pwd_context_verify : string → string → verify_outcome;
  qdrant_delete_collection : nat → string → bool;
  REFRESH_TOKEN_EXPIRE_DAYS : Z;
  DEFAULT_LLM_MODEL : string;
  DEFAULT_EMBED_MODEL : string;
  unicode_lower : string → ascii → string → string }.

(** [secrets.token_urlsafe(nbytes)] *)
Definition secrets_token_urlsafe (L : Lib) (nbytes : nat) : M string :=
  fun w => (Ok (token_urlsafe L (ticks w) nbytes), set_ticks S w).

Definition set_refresh_tokens
    (f : gmap uuid RefreshToken → gmap uuid RefreshToken) (w : World) : World :=
  mkWorld (users w) (f (refresh_tokens w)) (projects w) (project_members w)
          (webhooks w) (webhook_deliveries w) (ticks w).
Definition set_projects (f : gmap uuid Project → gmap uuid Project) (w : World) : World :=
  mkWorld (users w) (refresh_tokens w) (f (projects w)) (project_members w)
          (webhooks w) (webhook_deliveries w) (ticks w).

(** *** [auth/service.py] *)

Definition authenticate_user (L : Lib) (email password : string)
    : M (option (uuid * User)) :=
  us ← get users;
  user ← scalar_one_or_none (select_where (fun u => bool_decide (user_email u = email)) us);
  match user with
  | None => mret None
  | Some user =>
      match pwd_context_verify L password (user_password_hash user.2) with
      | VerifyRaises exc => raise (OtherException exc)
      | Verifies verified => if negb verified then mret None else mret (Some user)
      end
  end.

(** [timedelta(days=d)] *)
Definition timedelta_days (d : Z) : Z := d * 86400000000.

(** [db.add(rt); await db.commit()]: [token_hash] is [unique]. *)
Definition add_refresh_token (rt : RefreshToken) : M uuid :=
  fun w =>
    match select_where (fun r => bool_decide (rt_token_hash r = rt_token_hash rt))
            (refresh_tokens w) with
    | [] => let id := uuid4 (refresh_tokens w) in
            (Ok id, set_refresh_tokens (insert id rt) w)
    | _ => (Raise IntegrityError, w)
    end.

Definition create_refresh_token (E : Env) (L : Lib) (user_id : uuid) : M string :=
  raw_token ← secrets_token_urlsafe L 48;
  now ← datetime_now E;
  let expires_at := now + timedelta_days (REFRESH_TOKEN_EXPIRE_DAYS L) in
  let rt := mkRefreshToken user_id (_hash_token E raw_token) expires_at None in
  add_refresh_token rt;;
  mret raw_token.

(** [where(RefreshToken.token_hash == token_hash, RefreshToken.revoked_at.is_(None))] *)
Definition revoke_query (token_hash : string) : RefreshToken → bool :=
  fun r => bool_decide (rt_token_hash r = token_hash) && bool_decide (rt_revoked_at r = None).

Definition set_rt_revoked_at (v : option datetime) (r : RefreshToken) : RefreshToken :=
  mkRefreshToken (rt_user_id r) (rt_token_hash r) (rt_expires_at r) v.

Definition revoke_refresh_token (E : Env) (refresh_token : string) : M bool :=
  let token_hash := _hash_token E refresh_token in
  rts ← get refresh_tokens;
  rt ← scalar_one_or_none (select_where (revoke_query token_hash) rts);
  match rt with
  | None => mret false
  | Some rt =>
      now ← datetime_now E;
      modify (set_refresh_tokens (insert rt.1 (set_rt_revoked_at (Some now) rt.2)));;
      mret true
  end.

(** *** [projects/service.py] *)

Definition get_project (slug : string) : M (option (uuid * Project)) :=
  ps ← get projects;
  scalar_one_or_none (select_where (fun p => bool_decide (proj_slug p = slug)) ps).

Record UpdateProjectRequest := mkUpdateProjectRequest {
  up_name : option string;
  up_description : option string }.

Definition set_proj_name (v : string) (p : Project) : Project :=
  mkProject (proj_slug p) v (proj_description p) (proj_owner_id p)
    (proj_qdrant_collection p) (proj_neo4j_database p) (proj_is_archived p).
Definition set_proj_description (v : option string) (p : Project) : Project :=
  mkProject (proj_slug p) (proj_name p) v (proj_owner_id p)
    (proj_qdrant_collection p) (proj_neo4j_database p) (proj_is_archived p).
Definition set_proj_is_archived (v : bool) (p : Project) : Project :=
  mkProject (proj_slug p) (proj_name p) (proj_description p) (proj_owner_id p)
    (proj_qdrant_collection p) (proj_neo4j_database p) v.

Definition update_project (project : uuid * Project) (data : UpdateProjectRequest)
    : M (uuid * Project) :=
  let p := project.2 in
  let p := match up_name data with Some name => set_proj_name name p | None => p end in
  let p := match up_description data with
           | Some description => set_proj_description (Some description) p
           | None => p
           end in
  modify (set_projects (insert project.1 p));;
  mret (project.1, p).

(** The call to the vector store sits in a [try] whose [except Exception]
    only logs: whatever it answers, the project is archived. *)
Definition archive_project (L : Lib) (project : uuid * Project) : M (uuid * Project) :=
  (fun w => (Ok (qdrant_delete_collection L (ticks w) (proj_qdrant_collection project.2)),
             set_ticks S w)) ;;
  let p := set_proj_is_archived true project.2 in
  modify (set_projects (insert project.1 p));;
  mret (project.1, p).

(** *** [webhooks/service.py] and [webhooks/schemas.py] *)

Record CreateWebhookRequest := mkCreateWebhookRequest {
  cw_url : string;
  cw_events : list string;
  cw_is_active : bool }.

Record UpdateWebhookRequest := mkUpdateWebhookRequest {
  uw_url : option string;
  uw_events : option (list string);
  uw_is_active : option bool }.

(** [create_webhook]: [project_id] is the key of the project that the
    route's dependency returned, a row of [projects]. *)
Definition create_webhook (L : Lib) (project_id : uuid) (data : CreateWebhookRequest)
    : M (uuid * Webhook) :=
  secret ← secrets_token_urlsafe L 32;
  let webhook :=
    mkWebhook project_id (cw_url data) secret (cw_events data) (cw_is_active data)
      None None in
  whs ← get webhooks;
  let id := uuid4 whs in
  modify (set_webhooks (insert id webhook));;
  mret (id, webhook).

Definition set_wh_url (v : string) (h : Webhook) : Webhook :=
  mkWebhook (wh_project_id h) v (wh_secret h) (wh_events h) (wh_is_active h)
    (wh_last_triggered_at h) (wh_last_status_code h).
Definition set_wh_events (v : list string) (h : Webhook) : Webhook :=
  mkWebhook (wh_project_id h) (wh_url h) (wh_secret h) v (wh_is_active h)
    (wh_last_triggered_at h) (wh_last_status_code h).
Definition set_wh_is_active (v : bool) (h : Webhook) : Webhook :=
  mkWebhook (wh_project_id h) (wh_url h) (wh_secret h) (wh_events h) v
    (wh_last_triggered_at h) (wh_last_status_code h).

Definition update_webhook (webhook_id : uuid) (data : UpdateWebhookRequest)
    : M (option (uuid * Webhook)) :=
  webhook ← get_webhook webhook_id;
  match webhook with
  | None => mret None
  | Some webhook =>
      let h := webhook.2 in
      let h := match uw_url data with Some url => set_wh_url url h | None => h end in
      let h := match uw_events data with Some events => set_wh_events events h | None => h end in
      let h := match uw_is_active data with
               | Some is_active => set_wh_is_active is_active h
               | None => h
               end in
      modify (set_webhooks (insert webhook.1 h));;
      mret (Some (webhook.1, h))
  end.

(** [await db.delete(webhook); await db.commit()]: the foreign key of
    [webhook_deliveries.webhook_id] is [ondelete="CASCADE"], the rows of
    the webhook go with it. *)
Definition delete_webhook (webhook_id : uuid) : M bool :=
  webhook ← get_webhook webhook_id;
  match webhook with
  | None => mret false
  | Some webhook =>
      modify (set_webhooks (delete webhook.1));;
      modify (set_webhook_deliveries
                (filter (fun kd => dl_webhook_id kd.2 ≠ webhook.1)));;
      mret true
  end.

(** [webhooks/worker.py] *)
Definition webhook_retry_sweep (E : Env) : M Z := retry_failed_deliveries E.

(** *** [auth/deps.py], [admin/service.py] *)

Record ApiKey := mkApiKey {
  ak_user_id : uuid;
  ak_name : string;
  ak_key_hash : string;
  ak_key_prefix : string;
  ak_scopes : list string;
  ak_last_used_at : option datetime;
  ak_expires_at : option datetime }.

(** A JSONB column that holds a [dict]: its items. *)
Abbreviation jsonb := (list (string * json)).

Record ProjectConfig := mkProjectConfig {
  pc_project_id : uuid;
  pc_llm_config : jsonb;
  pc_embedder_config : jsonb;
  pc_vector_store_config : jsonb;
  pc_graph_store_config : jsonb }.

(** The session together with the tables of API keys and of project
    configurations. *)
Record Store := mkStore {
  world : World;
  api_keys : gmap uuid ApiKey;
  project_configs : gmap uuid ProjectConfig }.

(** [jose.jwt] and [uuid.UUID]: [jwt_decode_sub n token] is the ["sub"]
    claim of a token that verifies at the [n]-th call to the outside, and
    nothing when [jwt.decode] raises [JWTError] or the claim is missing
    ([KeyError]); [uuid_of_string] is nothing on a [ValueError]. *)
Record Jose := mkJose {
  jwt_decode_sub : nat → string → option string;
  uuid_of_string : string → option uuid }.

Definition set_ak_last_used_at (v : option datetime) (a : ApiKey) : ApiKey :=
  mkApiKey (ak_user_id a) (ak_name a) (ak_key_hash a) (ak_key_prefix a) (ak_scopes a)
    v (ak_expires_at a).

Definition store_tick (s : Store) : Store :=
  mkStore (set_ticks S (world s)) (api_keys s) (project_configs s).

(** [select(User).where(User.id == user_id, User.is_active.is_(True))],
    then [scalar_one_or_none()]. *)
Definition active_user (user_id : uuid) (w : World) : option (uuid * User) :=
  match users w !! user_id with
  | Some u => if user_is_active u then Some (user_id, u) else None
  | None => None
  end.

Definition get_current_user (J : Jose) (token : option string) (s : Store)
    : result (uuid * User) * Store :=
  match token with
  | None => (Raise (HTTPException 401 "Not authenticated"), s)
  | Some credentials =>
      match jwt_decode_sub J (ticks (world s)) credentials ≫= uuid_of_string J with
      | None => (Raise (HTTPException 401 "Invalid token"), store_tick s)
      | Some user_id =>
          match active_user user_id (world s) with
          | None => (Raise (HTTPException 401 "User not found"), store_tick s)
          | Some user => (Ok user, store_tick s)
          end
      end
  end.

Definition get_current_principal (E : Env) (J : Jose)
    (authorization x_api_key : option string) (s : Store)
    : result (uuid * User) * Store :=
  match authorization with
  | Some _ => get_current_user J authorization s
  | None =>
      match x_api_key with
      | Some x_api_key =>
          let key_hash := sha256_hexdigest E x_api_key in
          match select_where (fun a => bool_decide (ak_key_hash a = key_hash)) (api_keys s) with
          | [] => (Raise (HTTPException 401 "Invalid API key"), s)
          | [api_key] =>
              (* [api_key.expires_at and api_key.expires_at < now]: the clock is
                 read only when the key has an expiry *)
              let '(expired, s) :=
                match ak_expires_at api_key.2 with
                | Some expires_at =>
                    (expires_at <? utcnow E (ticks (world s)), store_tick s)
                | None => (false, s)
                end in
              if expired then (Raise (HTTPException 401 "API key expired"), s)
              else
                let now := utcnow E (ticks (world s)) in
                let s := mkStore (set_ticks S (world s))
                           (<[api_key.1 := set_ak_last_used_at (Some now) api_key.2]>
                              (api_keys s))
                           (project_configs s) in
                match active_user (ak_user_id api_key.2) (world s) with
                | None => (Raise (HTTPException 401 "User not found"), s)
                | Some user => (Ok user, s)
                end
          | _ => (Raise MultipleResultsFound, s)
          end
      | None => (Raise (HTTPException 401 "Not authenticated"), s)
      end
  end.

Definition require_superadmin (user : uuid * User) : result (uuid * User) :=
  if negb (user_is_superadmin user.2)
  then Raise (HTTPException 403 "Superadmin required")
  else Ok user.

Definition set_user_name (v : string) (u : User) : User :=
  mkUser (user_email u) v (user_password_hash u) (user_is_active u) (user_is_superadmin u).
Definition set_user_is_active (v : bool) (u : User) : User :=
  mkUser (user_email u) (user_name u) (user_password_hash u) v (user_is_superadmin u).
Definition set_user_is_superadmin (v : bool) (u : User) : User :=
  mkUser (user_email u) (user_name u) (user_password_hash u) (user_is_active u) v.

(** [admin/service.py], [update_user] *)
Definition update_user (user_id : uuid) (name : option string)
    (is_active is_superadmin : option bool) : M (option (uuid * User)) :=
  us ← get users;
  match us !! user_id with
  | None => mret None
  | Some user =>
      let user := match name with Some name => set_user_name name user | None => user end in
      let user := match is_active with
                  | Some is_active => set_user_is_active is_active user
                  | None => user
                  end in
      let user := match is_superadmin with
                  | Some is_superadmin => set_user_is_superadmin is_superadmin user
                  | None => user
                  end in
      modify (set_users (insert user_id user));;
      mret (Some (user_id, user))
  end.

(** [unique=True] on [api_keys.key_hash]. *)
Definition unique_key_hash (s : Store) : Prop :=
  ∀ k1 k2 a1 a2, api_keys s !! k1 = Some a1 → api_keys s !! k2 = Some a2 →
    ak_key_hash a1 = ak_key_hash a2 → k1 = k2.

Definition sample_jose : Jose :=
  mkJose (fun _ token => if bool_decide (token = "good") then Some "11" else None)
         (fun s => if bool_decide (s = "11") then Some 11%N else None).

Definition sample_store : Store :=
  mkStore sample_world
    (<[70%N := mkApiKey 11%N "ci" "sha256:key-live" "key-" [] None None]>
       (<[71%N := mkApiKey 11%N "old" "sha256:key-old" "key-" [] None (Some 500)]> ∅))
    (<[80%N := mkProjectConfig 20%N [("model", JStr "gemini-flash")]
                 [("model", JStr "gemini-embedding")] [] []]> ∅).

(** *** Runs *)

(** The sweep run [n] times in a row. *)
Fixpoint sweeps (E : Env) (n : nat) (w : World) : World :=
  match n with
  | O => w
  | S n => sweeps E n (webhook_retry_sweep E w).2
  end.

(** The operations on the webhooks of the registry and of the delivery
    engine. *)
Inductive webhook_op : Type :=
  | CreateWebhook (project_id : uuid) (data : CreateWebhookRequest)
  | UpdateWebhook (webhook_id : uuid) (data : UpdateWebhookRequest)
  | DeleteWebhook (webhook_id : uuid)
  | FireWebhook (project_id : uuid) (event : string) (payload : json)
  | TestWebhook (webhook_id : uuid)
  | RetrySweep.

Definition run_webhook_op (E : Env) (L : Lib) (op : webhook_op) (w : World) : World :=
  match op with
  | CreateWebhook project_id data => (create_webhook L project_id data w).2
  | UpdateWebhook webhook_id data => (update_webhook webhook_id data w).2
  | DeleteWebhook webhook_id => (delete_webhook webhook_id w).2
  | FireWebhook project_id event payload => (fire_webhook E project_id event payload w).2
  | TestWebhook webhook_id => (test_webhook E webhook_id w).2
  | RetrySweep => (webhook_retry_sweep E w).2
  end.

Definition run_webhook_ops (E : Env) (L : Lib) (ops : list webhook_op) (w : World) : World :=
  foldl (fun w op => run_webhook_op E L op w) w ops.

(** The columns of a webhook that deliveries leave alone are the same in
    the two sessions, webhook by webhook. *)
Definition same_registry (w w' : World) : Prop :=
  ∀ id, wh_static <$> webhooks w' !! id = wh_static <$> webhooks w !! id.

(** Every delivery row points to a webhook of the table (the foreign key
    of [webhook_deliveries.webhook_id]). *)
Definition no_orphans (w : World) : Prop :=
  ∀ k d, webhook_deliveries w !! k = Some d → is_Some (webhooks w !! dl_webhook_id d).

(** The operations on refresh tokens. *)
Inductive token_op : Type :=
  | CreateToken (user_id : uuid)
  | RedeemToken (refresh_token : string)
  | RevokeToken (refresh_token : string).

Definition run_token_op (E : Env) (L : Lib) (op : token_op) (w : World) : World :=
  match op with
  | CreateToken user_id => (create_refresh_token E L user_id w).2
  | RedeemToken refresh_token => (refresh_access_token E refresh_token w).2
  | RevokeToken refresh_token => (revoke_refresh_token E refresh_token w).2
  end.

Definition run_token_ops (E : Env) (L : Lib) (ops : list token_op) (w : World) : World :=
  foldl (fun w op => run_token_op E L op w) w ops.

(** The operations on the members of a project, additions included. *)
Inductive membership_op : Type :=
  | AddMember (project : uuid * Project) (email role : string) (invited_by : uuid)
  | ChangeMember (op : member_op).

Definition run_membership_op (op : membership_op) (w : World) : World :=
  match op with
  | AddMember project email role invited_by => (add_member project email role invited_by w).2
  | ChangeMember op => run_member_op op w
  end.

Definition run_membership_ops (ops : list membership_op) (w : World) : World :=
  foldl (fun w op => run_membership_op op w) w ops.

(** [unique=True] on [users.email]. *)
Definition unique_email (w : World) : Prop :=
  ∀ k1 k2 u1 u2, users w !! k1 = Some u1 → users w !! k2 = Some u2 →
    user_email u1 = user_email u2 → k1 = k2.

(** U+212A, the Kelvin sign, in UTF-8; [str.lower] makes it a [k]. *)
Definition kelvin_sign : string := String "226" (String "132" (String "170" "")).

(** The library of the samples: a stored value that does not start with
    [bcrypt:] is no hash, and of the characters from 128 on the Kelvin
    sign is lowered, its three bytes becoming [k] and nothing twice. *)
Definition sample_lib : Lib :=
  mkLib (fun n _ => fold_right (fun _ s => "x" +:+ s) "-token" (seq 0 n))
        (fun password hash =>
           if String.prefix "bcrypt:" hash
           then Verifies (bool_decide (hash = "bcrypt:" +:+ password))
           else VerifyRaises "UnknownHashError")
        (fun _ _ => false) 30 "gemini-flash" "gemini-embedding"
        (fun before c after =>
           if String.prefix kelvin_sign (String c after) then "k"
           else if String.prefix (String.rev (String "226" "")) (String.rev before)
                   && String.prefix (String "132" (String "170" "")) (String c after)
           then ""
           else if String.prefix (String.rev (String "226" (String "132" "")))
                     (String.rev before)
                   && bool_decide (c = "170"%char)
           then ""
           else String c "").

(** *** [projects/service.py]: creation and configuration of projects *)

(** A [str] is held as its UTF-8 bytes: a character below 128 is one
    byte, and the bytes of the other characters are all 128 or more. *)
Fixpoint str_map (f : ascii → ascii) (s : string) : string :=
  match s with
  | EmptyString => EmptyString
  | String c s => String (f c) (str_map f s)
  end.

Fixpoint str_filter (P : ascii → bool) (s : string) : string :=
  match s with
  | EmptyString => EmptyString
  | String c s => if P c then String c (str_filter P s) else str_filter P s
  end.

Fixpoint str_forall (P : ascii → bool) (s : string) : bool :=
  match s with
  | EmptyString => true
  | String c s => P c && str_forall P s
  end.

(** [lo <= c <= hi], a range of a character class. *)
Definition ascii_between (lo hi c : ascii) : bool :=
  (N_of_ascii lo <=? N_of_ascii c)%N && (N_of_ascii c <=? N_of_ascii hi)%N.

(** [str.lower] on a character below 128: A-Z go to a-z. *)
Definition ascii_lower (c : ascii) : ascii :=
  if ascii_between "A" "Z" c then ascii_of_N (N_of_ascii c + 32) else c.

(** [name.lower()].  A character below 128 is lowered on its own.  What
    the bytes of another character become is the library's matter,
    [unicode_lower], which is given the bytes on the two sides: Python
    lowers some of these characters to characters below 128 (U+212A to
    [k], U+0130 to [i] and U+0307) and some by their neighbours (the
    final sigma). *)
Fixpoint str_lower_from (L : Lib) (before s : string) : string :=
  match s with
  | EmptyString => EmptyString
  | String c after =>
      (if (N_of_ascii c <? 128)%N
       then String (ascii_lower c) EmptyString
       else unicode_lower L before c after)
      +:+ str_lower_from L (before +:+ String c EmptyString) after
  end.

Definition str_lower (L : Lib) (s : string) : string := str_lower_from L "" s.

(** [.replace(" ", "-")] on one character. *)
Definition space_to_hyphen (c : ascii) : ascii :=
  if bool_decide (c = " "%char) then "-"%char else c.

(** The class [[a-z0-9-]], whose complement [re.sub] deletes. *)
Definition slug_char (c : ascii) : bool :=
  ascii_between "a" "z" c || ascii_between "0" "9" c || bool_decide (c = "-"%char).

(** [re.sub(r"[^a-z0-9-]", "", name.lower().replace(" ", "-"))]: on the
    UTF-8 bytes the replacement is byte by byte, and the substitution
    deletes the bytes outside the class. *)
Definition _slugify (L : Lib) (name : string) : string :=
  str_filter slug_char (str_map space_to_hyphen (str_lower L name)).

Definition set_world (f : World → World) (s : Store) : Store :=
  mkStore (f (world s)) (api_keys s) (project_configs s).
Definition set_project_configs
    (f : gmap uuid ProjectConfig → gmap uuid ProjectConfig) (s : Store) : Store :=
  mkStore (world s) (api_keys s) (f (project_configs s)).

(** A computation on the session, run in the store. *)
Definition in_world {A} (m : M A) (s : Store) : result A * Store :=
  ((m (world s)).1, set_world (fun _ => (m (world s)).2) s).

(** [_slugify(slug) if slug else _slugify(name)]: [slug] is [None] when
    the request has none, and the empty string is falsy as [None] is. *)
Definition requested_slug (L : Lib) (name : string) (slug : option string) : string :=
  match slug with
  | Some slug => if bool_decide (slug = "") then _slugify L name else _slugify L slug
  | None => _slugify L name
  end.

(** [create_project].  The [flush] that sends the project row fails on
    the foreign key of [owner_id] when [user] is no row of [users]. *)
Definition create_project (L : Lib) (user : uuid * User) (name : string)
    (slug description : option string) (s : Store) : result (uuid * Project) * Store :=
  let slug := requested_slug L name slug in
  if bool_decide (slug = "")
  then (Raise (HTTPException 400 "Invalid slug generated from name"), s)
  else
    match select_where (fun p => bool_decide (proj_slug p = slug)) (projects (world s)) with
    | [] =>
        match users (world s) !! user.1 with
        | None => (Raise IntegrityError, s)
        | Some _ =>
            let qdrant_collection := "proj_" +:+ slug +:+ "_memories" in
            let project :=
              mkProject slug name description user.1 qdrant_collection None false in
            let id := uuid4 (projects (world s)) in
            let config :=
              mkProjectConfig id [("model", JStr (DEFAULT_LLM_MODEL L))]
                [("model", JStr (DEFAULT_EMBED_MODEL L))] [] [] in
            let membership := mkProjectMember id user.1 "owner" None in
            (Ok (id, project),
             set_project_configs (insert (uuid4 (project_configs s)) config)
               (set_world
                  (fun w =>
                     set_project_members (insert (uuid4 (project_members w)) membership)
                       (set_projects (insert id project) w)) s))
        end
    | [_] => (Raise (HTTPException 409 "Project slug already exists"), s)
    | _ => (Raise MultipleResultsFound, s)
    end.

Definition get_config (project : uuid * Project) (s : Store)
    : result (uuid * ProjectConfig) * Store :=
  match select_where (fun c => bool_decide (pc_project_id c = project.1))
          (project_configs s) with
  | [] => (Raise (HTTPException 404 "Project config not found"), s)
  | [config] => (Ok config, s)
  | _ => (Raise MultipleResultsFound, s)
  end.

Record UpdateProjectConfigRequest := mkUpdateProjectConfigRequest {
  uc_llm_config : option jsonb;
  uc_embedder_config : option jsonb;
  uc_vector_store_config : option jsonb;
  uc_graph_store_config : option jsonb }.

Definition set_pc_llm_config (v : jsonb) (c : ProjectConfig) : ProjectConfig :=
  mkProjectConfig (pc_project_id c) v (pc_embedder_config c) (pc_vector_store_config c)
    (pc_graph_store_config c).
Definition set_pc_embedder_config (v : jsonb) (c : ProjectConfig) : ProjectConfig :=
  mkProjectConfig (pc_project_id c) (pc_llm_config c) v (pc_vector_store_config c)
    (pc_graph_store_config c).
Definition set_pc_vector_store_config (v : jsonb) (c : ProjectConfig) : ProjectConfig :=
  mkProjectConfig (pc_project_id c) (pc_llm_config c) (pc_embedder_config c) v
    (pc_graph_store_config c).
Definition set_pc_graph_store_config (v : jsonb) (c : ProjectConfig) : ProjectConfig :=
  mkProjectConfig (pc_project_id c) (pc_llm_config c) (pc_embedder_config c)
    (pc_vector_store_config c) v.

(** [update_config]: with [partial] the columns the request names are
    written; without it all four are, [v or {}] being the empty dict for a
    column that the request leaves out or gives as empty. *)
Definition update_config (project : uuid * Project) (data : UpdateProjectConfigRequest)
    (partial : bool) (s : Store) : result (uuid * ProjectConfig) * Store :=
  match get_config project s with
  | (Raise e, s) => (Raise e, s)
  | (Ok config, s) =>
      let c := config.2 in
      let c :=
        if partial then
          let c := match uc_llm_config data with
                   | Some v => set_pc_llm_config v c
                   | None => c
                   end in
          let c := match uc_embedder_config data with
                   | Some v => set_pc_embedder_config v c
                   | None => c
                   end in
          let c := match uc_vector_store_config data with
                   | Some v => set_pc_vector_store_config v c
                   | None => c
                   end in
          match uc_graph_store_config data with
          | Some v => set_pc_graph_store_config v c
          | None => c
          end
        else
          let c := set_pc_llm_config (default [] (uc_llm_config data)) c in
          let c := set_pc_embedder_config (default [] (uc_embedder_config data)) c in
          let c := set_pc_vector_store_config (default [] (uc_vector_store_config data)) c in
          set_pc_graph_store_config (default [] (uc_graph_store_config data)) c in
      (Ok (config.1, c), set_project_configs (insert config.1 c) s)
  end.

(** *** [projects/router.py]: the routes of a project

    A route first runs the dependency [require_project_access] on its
    path, then the service function on the project that the dependency
    returned.  The audit entry that a route adds afterwards goes to a table
    that no function here reads, and [log_audit] lets no failure out: it is
    left out. *)

Definition fresh_request : RequestState := mkRequestState None None.

(** [PATCH /{slug}] *)
Definition route_update_project (user : uuid * User) (slug : string)
    (data : UpdateProjectRequest) : M (uuid * Project) :=
  access ← require_project_access "admin" slug fresh_request user;
  update_project access.2.1 data.

(** [DELETE /{slug}] *)
Definition route_archive_project (L : Lib) (user : uuid * User) (slug : string) : M unit :=
  access ← require_project_access "owner" slug fresh_request user;
  archive_project L access.2.1;;
  mret tt.

(** [PUT /{slug}/config] and [PATCH /{slug}/config] *)
Definition route_update_config (user : uuid * User) (slug : string)
    (data : UpdateProjectConfigRequest) (partial : bool) (s : Store)
    : result (uuid * ProjectConfig) * Store :=
  match in_world (require_project_access "admin" slug fresh_request user) s with
  | (Raise e, s) => (Raise e, s)
  | (Ok access, s) => update_config access.2.1 data partial s
  end.

(** The requests that write to the projects and their configurations. *)
Inductive project_op : Type :=
  | CreateProject (user : uuid * User) (name : string) (slug description : option string)
  | UpdateProject (user : uuid * User) (slug : string) (data : UpdateProjectRequest)
  | ArchiveProject (user : uuid * User) (slug : string)
  | UpdateConfig (user : uuid * User) (slug : string)
      (data : UpdateProjectConfigRequest) (partial : bool).

Definition run_project_op (L : Lib) (op : project_op) (s : Store) : Store :=
  match op with
  | CreateProject user name slug description =>
      (create_project L user name slug description s).2
  | UpdateProject user slug data => (in_world (route_update_project user slug data) s).2
  | ArchiveProject user slug => (in_world (route_archive_project L user slug) s).2
  | UpdateConfig user slug data partial => (route_update_config user slug data partial s).2
  end.

Definition run_project_ops (L : Lib) (ops : list project_op) (s : Store) : Store :=
  foldl (fun s op => run_project_op L op s) s ops.

(** The constraints of the schema on projects and configurations:
    [unique] on [projects.slug] and on [project_configs.project_id], and
    the foreign keys of [project_members.project_id] and of
    [project_configs.project_id]. *)
Definition unique_config (s : Store) : Prop :=
  ∀ k1 k2 c1 c2, project_configs s !! k1 = Some c1 → project_configs s !! k2 = Some c2 →
    pc_project_id c1 = pc_project_id c2 → k1 = k2.

Definition members_have_projects (w : World) : Prop :=
  ∀ k m, project_members w !! k = Some m → is_Some (projects w !! pm_project_id m).

Definition configs_have_projects (s : Store) : Prop :=
  ∀ k c, project_configs s !! k = Some c → is_Some (projects (world s) !! pc_project_id c).

Record project_schema (s : Store) : Prop := mk_project_schema {
  schema_unique_slug : unique_slug (world s);
  schema_unique_config : unique_config s;
  schema_members_have_projects : members_have_projects (world s);
  schema_configs_have_projects : configs_have_projects s }.

(** Every project has its configuration row. *)
Definition every_project_configured (s : Store) : Prop :=
  ∀ pid p, projects (world s) !! pid = Some p →
    ∃ cid c, project_configs s !! cid = Some c ∧ pc_project_id c = pid.

(** What stays of a project row: its slug, owner and collection, and the
    archived flag once it is set. *)
Definition project_kept (p p' : Project) : Prop :=
  proj_slug p' = proj_slug p ∧ proj_owner_id p' = proj_owner_id p
  ∧ proj_qdrant_collection p' = proj_qdrant_collection p
  ∧ (proj_is_archived p = true → proj_is_archived p' = true).

Definition projects_kept (s s' : Store) : Prop :=
  ∀ pid p, projects (world s) !! pid = Some p →
    ∃ p', projects (world s') !! pid = Some p' ∧ project_kept p p'.

(** *** [auth/router.py]: registration and login

    As for the routes of a project, the audit entry of [login] is left
    out. *)

(** [POST /register]: whatever [create_user] raises becomes a 409. *)
Definition register (E : Env) (email name password : string) : M (uuid * User) :=
  fun w =>
    match create_user E email name password w with
    | (Raise _, w') => (Raise (HTTPException 409 "Email already registered"), w')
    | r => r
    end.

(** [POST /login]: the access token and the refresh token. *)
Definition login (E : Env) (L : Lib) (email password : string) : M (string * string) :=
  user ← authenticate_user L email password;
  match user with
  | None => raise (HTTPException 401 "Invalid credentials")
  | Some user =>
      if negb (user_is_active user.2)
      then raise (HTTPException 403 "Account disabled")
      else
        access_token ← create_access_token E user.1;
        refresh_token ← create_refresh_token E L user.1;
        mret (access_token, refresh_token)
  end.
(** * Properties *)

(** ** Queries *)

Section Queries.
Context {A : Type}.
Implicit Types (P : A → bool) (t : gmap uuid A).

Lemma elem_of_select_where P t k r :
  (k, r) ∈ select_where P t ↔ t !! k = Some r ∧ P r = true.
Proof.
  unfold select_where.
  rewrite list_elem_of_In, filter_In, <- list_elem_of_In, elem_of_map_to_list.
  reflexivity.
Qed.

Lemma NoDup_fst_filter (f : uuid * A → bool) (l : list (uuid * A)) :
  NoDup l.*1 → NoDup (List.filter f l).*1.
Proof.
  induction l as [|x l IH]; simpl; [done|].
  rewrite NoDup_cons. intros [Hx Hl].
  destruct (f x); simpl; [|by apply IH].
  apply NoDup_cons. split; [|by apply IH].
  intros Hin. apply Hx.
  apply list_elem_of_fmap in Hin as [y [-> Hy]].
  apply list_elem_of_fmap. exists y. split; [done|].
  apply list_elem_of_In, filter_In in Hy as [Hy _]. by apply list_elem_of_In.
Qed.

Lemma NoDup_select_where P t : NoDup (select_where P t).*1.
Proof. apply NoDup_fst_filter, NoDup_fst_map_to_list. Qed.

Lemma select_where_nil P t :
  select_where P t = [] ↔ ∀ k r, t !! k = Some r → P r = false.
Proof.
  split.
  - intros Hnil k r Hk. destruct (P r) eqn:HP; [|done].
    assert ((k, r) ∈ select_where P t) as Hin by by apply elem_of_select_where.
    rewrite Hnil in Hin. by apply not_elem_of_nil in Hin.
  - intros Hall. destruct (select_where P t) as [|[k r] l] eqn:Hsel; [done|].
    assert ((k, r) ∈ select_where P t) as Hin by (rewrite Hsel; left).
    apply elem_of_select_where in Hin as [Hk HP].
    rewrite (Hall _ _ Hk) in HP. done.
Qed.

(** A query that at most one row can answer returns that row or nothing. *)
Lemma select_where_one P t k r :
  (∀ k' r', t !! k' = Some r' → P r' = true → k' = k) →
  t !! k = Some r → P r = true → select_where P t = [(k, r)].
Proof.
  intros Huniq Hk HP.
  pose proof (NoDup_select_where P t) as Hnd.
  assert (∀ x, x ∈ select_where P t → x = (k, r)) as Hall.
  { intros [k' r'] [Hk' HP']%elem_of_select_where.
    assert (k' = k) as -> by eauto. congruence. }
  assert ((k, r) ∈ select_where P t) as Hin by by apply elem_of_select_where.
  destruct (select_where P t) as [|x [|y l]]; [by apply not_elem_of_nil in Hin| |].
  - f_equal. apply Hall. left.
  - exfalso. rewrite (Hall x), (Hall y) in Hnd by (repeat constructor).
    simpl in Hnd. apply NoDup_cons in Hnd as [Hnd _]. apply Hnd. left.
Qed.
End Queries.

(** Unfolding the monad. *)
Ltac run_m :=
  unfold mbind, M_bind, mret, M_ret, bind, ret, raise, get, modify in *; simpl in *.

(** ** The role order *)

Example check_role_level_admin_member : check_role_level "admin" "member" = true.
Proof. reflexivity. Qed.

Example check_role_level_viewer_member : check_role_level "viewer" "member" = false.
Proof. reflexivity. Qed.

Lemma role_rank_valid (r : Role) : role_rank (role_name r) = rank r.
Proof. destruct r; reflexivity. Qed.

Lemma role_rank_unknown (role : string) :
  ROLE_HIERARCHY !! role = None → role_rank role = 0.
Proof. unfold role_rank. by intros ->. Qed.

(** C5. On the four valid roles [check_role_level actual required] holds
    exactly when rank(actual) >= rank(required), the ranks being those of
    the order owner (4) > admin (3) > member (2) > viewer (1). *)
Theorem check_role_level_rank (actual required : Role) :
  (check_role_level (role_name actual) (role_name required) = true
     ↔ rank actual >= rank required)
  ∧ role_rank (role_name actual) = rank actual
  ∧ rank viewer < rank member < rank admin ∧ rank admin < rank owner.
Proof.
  split; [|split; [apply role_rank_valid | unfold rank; lia]].
  unfold check_role_level. rewrite !role_rank_valid, Z.leb_le. lia.
Qed.

(** ** The access gate *)

Section Gate.
Implicit Types (w : World) (slug role : string).

Lemma select_where_at_most_one {A} (P : A → bool) (t : gmap uuid A) :
  (∀ k1 k2 r1 r2, t !! k1 = Some r1 → t !! k2 = Some r2 →
     P r1 = true → P r2 = true → k1 = k2) →
  select_where P t = [] ∨
  ∃ k r, t !! k = Some r ∧ P r = true ∧ select_where P t = [(k, r)].
Proof.
  intros Huniq.
  destruct (select_where P t) as [|[k r] l] eqn:Hsel; [by left|right].
  assert ((k, r) ∈ select_where P t) as [Hk HP]%elem_of_select_where
    by (rewrite Hsel; left).
  exists k, r. split_and!; [done..|].
  rewrite <- Hsel. apply select_where_one; eauto.
Qed.

Lemma project_query_true slug p :
  project_query slug p = true ↔ proj_slug p = slug ∧ proj_is_archived p = false.
Proof.
  unfold project_query.
  rewrite andb_true_iff, bool_decide_eq_true, negb_true_iff. reflexivity.
Qed.

Lemma member_query_true pid uid m :
  member_query pid uid m = true ↔ pm_project_id m = pid ∧ pm_user_id m = uid.
Proof.
  unfold member_query. rewrite andb_true_iff, !bool_decide_eq_true. reflexivity.
Qed.

Lemma project_query_unique w slug :
  unique_slug w →
  ∀ k1 k2 p1 p2, projects w !! k1 = Some p1 → projects w !! k2 = Some p2 →
    project_query slug p1 = true → project_query slug p2 = true → k1 = k2.
Proof.
  intros Hu k1 k2 p1 p2 H1 H2 [E1 _]%project_query_true [E2 _]%project_query_true.
  eapply Hu; eauto. congruence.
Qed.

Lemma member_query_unique w pid uid :
  unique_membership w →
  ∀ k1 k2 m1 m2, project_members w !! k1 = Some m1 → project_members w !! k2 = Some m2 →
    member_query pid uid m1 = true → member_query pid uid m2 = true → k1 = k2.
Proof.
  intros Hu k1 k2 m1 m2 H1 H2 [E1 F1]%member_query_true [E2 F2]%member_query_true.
  eapply Hu; eauto; congruence.
Qed.

(** The decision tree of the gate, on a session that meets the schema. *)
Lemma require_project_access_cases min_role slug request user w :
  unique_slug w → unique_membership w →
  let r := require_project_access min_role slug request user w in
  r.2 = w ∧
  ((select_where (project_query slug) (projects w) = []
    ∧ r.1 = Raise (HTTPException 404 "Project not found"))
   ∨ ∃ pid p, live_project w slug pid p ∧
      ((select_where (member_query pid user.1) (project_members w) = []
        ∧ r.1 = Raise (HTTPException 403 "Not a project member"))
       ∨ ∃ mid m, membership_row w pid user.1 mid m ∧
          ((role_rank (pm_role m) < role_rank min_role
            ∧ r.1 = Raise (HTTPException 403
                             ("Requires at least '" +:+ min_role +:+ "' role")))
           ∨ (role_rank (pm_role m) >= role_rank min_role
              ∧ r.1 = Ok (mkRequestState (Some pid) (Some user.1),
                          ((pid, p), (mid, m))))))).
Proof.
  intros Hslug Hmem. unfold require_project_access. run_m.
  destruct (select_where_at_most_one (project_query slug) (projects w))
    as [->|(pid & p & Hp & HPp & ->)]; [by apply project_query_unique| |].
  { simpl. split; [done|]. by left. }
  simpl.
  apply project_query_true in HPp as [Hs Ha].
  destruct (select_where_at_most_one (member_query pid user.1) (project_members w))
    as [Hnil|(mid & m & Hm & HPm & Hone)]; [by apply member_query_unique| |].
  { rewrite Hnil. simpl. split; [done|]. right. exists pid, p. split; [done|]. by left. }
  rewrite Hone. simpl.
  apply member_query_true in HPm as [Hmp Hmu].
  unfold check_role_level.
  destruct (Z.leb_spec (role_rank min_role) (role_rank (pm_role m))); simpl.
  - split; [done|]. right. exists pid, p. split; [done|]. right.
    exists mid, m. split; [done|]. right. split; [lia|done].
  - split; [done|]. right. exists pid, p. split; [done|]. right.
    exists mid, m. split; [done|]. left. done.
Qed.
End Gate.

Section GateOutcome.
Implicit Types (w : World) (slug role : string).

Lemma live_project_inj w slug pid p pid' p' :
  unique_slug w → live_project w slug pid p → live_project w slug pid' p' →
  pid' = pid ∧ p' = p.
Proof.
  intros Hu (H1 & S1 & _) (H2 & S2 & _).
  assert (pid' = pid) as -> by (eapply Hu; eauto; congruence).
  split; congruence.
Qed.

Lemma membership_row_inj w pid uid mid m mid' m' :
  unique_membership w → membership_row w pid uid mid m → membership_row w pid uid mid' m' →
  mid' = mid ∧ m' = m.
Proof.
  intros Hu (H1 & P1 & U1) (H2 & P2 & U2).
  assert (mid' = mid) as -> by (eapply Hu; eauto; congruence).
  split; congruence.
Qed.

Lemma no_live_project w slug :
  select_where (project_query slug) (projects w) = [] ↔
  ∀ pid p, ¬ live_project w slug pid p.
Proof.
  rewrite select_where_nil. unfold live_project. split.
  - intros H pid p (Hp & Hq). specialize (H _ _ Hp).
    apply project_query_true in Hq. congruence.
  - intros H pid p Hp. destruct (project_query slug p) eqn:Hq; [|done].
    apply project_query_true in Hq. exfalso. eapply H; eauto.
Qed.

Lemma no_membership_row w pid uid :
  select_where (member_query pid uid) (project_members w) = [] ↔
  ∀ mid m, ¬ membership_row w pid uid mid m.
Proof.
  rewrite select_where_nil. unfold membership_row. split.
  - intros H mid m (Hm & Hq). specialize (H _ _ Hm).
    apply member_query_true in Hq. congruence.
  - intros H mid m Hm. destruct (member_query pid uid m) eqn:Hq; [|done].
    apply member_query_true in Hq. exfalso. eapply H; eauto.
Qed.
End GateOutcome.

(** C4. On a session that meets the schema (slugs unique, one membership
    row per project and user), [require_project_access] fails with 404
    when no non-archived project has the slug; given the project, with 403
    when the principal has no membership row in it; given the membership,
    with 403 when its role ranks below the required one; and returns the
    pair (project, membership) otherwise.  Every failure is a 404 or a 403,
    the 404 exactly when the project is missing and the 403 exactly when
    the project is there and the membership is missing or too low. *)
Theorem require_project_access_outcome
    (min_role slug : string) (request : RequestState) (user : uuid * User) (w : World) :
  unique_slug w → unique_membership w →
  let r := (require_project_access min_role slug request user w).1 in
  ((∀ pid p, ¬ live_project w slug pid p) →
     r = Raise (HTTPException 404 "Project not found"))
  ∧ (∀ pid p, live_project w slug pid p →
       ((∀ mid m, ¬ membership_row w pid user.1 mid m) →
          r = Raise (HTTPException 403 "Not a project member"))
       ∧ (∀ mid m, membership_row w pid user.1 mid m →
            (role_rank (pm_role m) < role_rank min_role →
               r = Raise (HTTPException 403
                            ("Requires at least '" +:+ min_role +:+ "' role")))
            ∧ (role_rank (pm_role m) >= role_rank min_role →
                 r = Ok (mkRequestState (Some pid) (Some user.1), ((pid, p), (mid, m))))))
  ∧ (∀ e, r = Raise e → ∃ d, e = HTTPException 404 d ∨ e = HTTPException 403 d)
  ∧ ((∃ d, r = Raise (HTTPException 404 d)) ↔ ∀ pid p, ¬ live_project w slug pid p)
  ∧ ((∃ d, r = Raise (HTTPException 403 d)) ↔
       ∃ pid p, live_project w slug pid p ∧
         ((∀ mid m, ¬ membership_row w pid user.1 mid m)
          ∨ ∃ mid m, membership_row w pid user.1 mid m
                     ∧ role_rank (pm_role m) < role_rank min_role)).
Proof.
  intros Hslug Hmem r.
  destruct (require_project_access_cases min_role slug request user w Hslug Hmem)
    as [_ Hcases]. fold r in Hcases.
  destruct Hcases as [[Hnil Hr]|(pid & p & Hp & Hcases)].
  { pose proof (proj1 (no_live_project w slug) Hnil) as Hnone; clear Hnil;
    rename Hnone into Hnil. rewrite Hr. split_and!.
    - done.
    - intros pid p Hp. by destruct (Hnil pid p).
    - intros e [= <-]. eauto.
    - split; [done|eauto].
    - split; [by intros [d [=]]|]. intros (pid & p & Hp & _). by destruct (Hnil pid p). }
  assert (¬ ∀ pid p, ¬ live_project w slug pid p) as Hsome by (intros H; by eapply H).
  destruct Hcases as [[Hnil Hr]|(mid & m & Hm & Hcases)].
  { pose proof (proj1 (no_membership_row w pid user.1) Hnil) as Hnone; clear Hnil;
    rename Hnone into Hnil. rewrite Hr. split_and!.
    - done.
    - intros pid' p' Hp'.
      destruct (live_project_inj _ _ _ _ _ _ Hslug Hp Hp') as [-> ->].
      split; [done|]. intros mid m Hm. by destruct (Hnil mid m).
    - intros e [= <-]. eauto.
    - split; [by intros [d [=]]|done].
    - split; [|eauto]. intros _. exists pid, p. split; [done|]. by left. }
  destruct Hcases as [[Hlt Hr]|[Hge Hr]]; rewrite Hr; split_and!.
  - done.
  - intros pid' p' Hp'.
    destruct (live_project_inj _ _ _ _ _ _ Hslug Hp Hp') as [-> ->].
    split; [intros Hnone; by destruct (Hnone mid m)|].
    intros mid' m' Hm'.
    destruct (membership_row_inj _ _ _ _ _ _ _ Hmem Hm Hm') as [-> ->].
    split; [done|lia].
  - intros e [= <-]. eauto.
  - split; [by intros [d [=]]|done].
  - split; [|eauto]. intros _. exists pid, p. split; [done|]. right. eauto.
  - done.
  - intros pid' p' Hp'.
    destruct (live_project_inj _ _ _ _ _ _ Hslug Hp Hp') as [-> ->].
    split; [intros Hnone; by destruct (Hnone mid m)|].
    intros mid' m' Hm'.
    destruct (membership_row_inj _ _ _ _ _ _ _ Hmem Hm Hm') as [-> ->].
    split; [lia|done].
  - intros e [=].
  - split; [by intros [d [=]]|done].
  - split; [by intros [d [=]]|].
    intros (pid' & p' & Hp' & [Hnone|(mid' & m' & Hm' & Hlt)]).
    + destruct (live_project_inj _ _ _ _ _ _ Hslug Hp Hp') as [-> ->].
      by destruct (Hnone mid m).
    + destruct (live_project_inj _ _ _ _ _ _ Hslug Hp Hp') as [-> ->].
      destruct (membership_row_inj _ _ _ _ _ _ _ Hmem Hm Hm') as [-> ->]. lia.
Qed.

(** ** Refresh tokens *)

Lemma token_query_true h now rt :
  token_query h now rt = true ↔
  rt_token_hash rt = h ∧ rt_revoked_at rt = None ∧ now < rt_expires_at rt.
Proof.
  unfold token_query.
  rewrite !andb_true_iff, !bool_decide_eq_true, Z.ltb_lt. tauto.
Qed.

Lemma token_query_unique w h now :
  unique_token_hash w →
  ∀ k1 k2 r1 r2, refresh_tokens w !! k1 = Some r1 → refresh_tokens w !! k2 = Some r2 →
    token_query h now r1 = true → token_query h now r2 = true → k1 = k2.
Proof.
  intros Hu k1 k2 r1 r2 H1 H2 [E1 _]%token_query_true [E2 _]%token_query_true.
  eapply Hu; eauto. congruence.
Qed.

Lemma refresh_access_token_cases E refresh_token w :
  let now := utcnow E (ticks w) in
  let q := select_where (token_query (_hash_token E refresh_token) now) (refresh_tokens w) in
  unique_token_hash w →
  (q = [] ∧ (refresh_access_token E refresh_token w).1 = Ok None)
  ∨ ∃ k rt, stored_token E w refresh_token k rt
      ∧ rt_revoked_at rt = None ∧ now < rt_expires_at rt
      ∧ (refresh_access_token E refresh_token w).1
        = Ok (Some (jwt_encode E (rt_user_id rt)
                      (utcnow E (S (ticks w))
                       + timedelta_minutes (ACCESS_TOKEN_EXPIRE_MINUTES E)))).
Proof.
  intros now q Hu. unfold refresh_access_token, create_access_token, datetime_now.
  run_m. fold now. fold q.
  destruct (select_where_at_most_one
              (token_query (_hash_token E refresh_token) now) (refresh_tokens w))
    as [Hnil|(k & rt & Hk & HP & Hone)]; [by apply token_query_unique| |]; subst q.
  - left. rewrite Hnil. done.
  - right. rewrite Hone. simpl.
    apply token_query_true in HP as (Hh & Hr & He).
    exists k, rt. unfold stored_token. done.
Qed.

(** C6. When token hashes are unique in the table, [refresh_access_token]
    returns [None] for a token whose stored row is revoked, even if it
    expires later, and for a token whose stored row expires at or before
    the current time, even if unrevoked; it returns an access token only
    for a stored row that is unrevoked and unexpired, and does return one
    for such a row. *)
Theorem refresh_access_token_valid_only (E : Env) (refresh_token : string) (w : World) :
  unique_token_hash w →
  let now := utcnow E (ticks w) in
  let r := (refresh_access_token E refresh_token w).1 in
  (∀ k rt, stored_token E w refresh_token k rt → rt_revoked_at rt ≠ None → r = Ok None)
  ∧ (∀ k rt, stored_token E w refresh_token k rt → rt_expires_at rt ≤ now → r = Ok None)
  ∧ (∀ tok, r = Ok (Some tok) →
       ∃ k rt, stored_token E w refresh_token k rt
               ∧ rt_revoked_at rt = None ∧ now < rt_expires_at rt)
  ∧ (∀ k rt, stored_token E w refresh_token k rt →
       rt_revoked_at rt = None → now < rt_expires_at rt → ∃ tok, r = Ok (Some tok)).
Proof.
  intros Hu now r.
  destruct (refresh_access_token_cases E refresh_token w Hu)
    as [[Hnil Hr]|(k & rt & [Hk Hh] & Hrev & Hexp & Hr)]; fold r in Hr.
  - split_and!; [done..| |].
    + intros tok. rewrite Hr. done.
    + intros k rt [Hk Hh] Hrev Hexp.
      pose proof (proj1 (select_where_nil _ _) Hnil k rt Hk) as Hq.
      assert (token_query (_hash_token E refresh_token) (utcnow E (ticks w)) rt = true)
        as Hq' by by apply token_query_true.
      congruence.
  - assert (∀ k' rt', stored_token E w refresh_token k' rt' → rt' = rt) as Hsame.
    { intros k' rt' [Hk' Hh'].
      assert (k' = k) as -> by (eapply Hu; eauto; congruence). congruence. }
    split_and!.
    + intros k' rt' Hst Hrev'. rewrite (Hsame _ _ Hst) in Hrev'. done.
    + intros k' rt' Hst Hexp'. rewrite (Hsame _ _ Hst) in Hexp'. lia.
    + intros tok _. exists k, rt. done.
    + intros. rewrite Hr. eauto.
Qed.

(** ** Registration *)

Lemma uuid4_fresh {A} (t : gmap uuid A) : t !! uuid4 t = None.
Proof. apply not_elem_of_dom. unfold uuid4. apply is_fresh. Qed.

Lemma create_user_cases E email name password w :
  let user := mkUser email name (pwd_context_hash E password) true
                (bool_decide (Z.of_nat (size (users w)) = 0)) in
  (select_where (fun u => bool_decide (user_email u = email)) (users w) = []
   ∧ create_user E email name password w
     = (Ok (uuid4 (users w), user), set_users (insert (uuid4 (users w)) user) w))
  ∨ (select_where (fun u => bool_decide (user_email u = email)) (users w) ≠ []
     ∧ create_user E email name password w = (Raise IntegrityError, w)).
Proof.
  intros user. unfold create_user, add_user. run_m.
  destruct (select_where _ (users w)) eqn:Hsel; [left|right]; done.
Qed.

Lemma size_zero_empty {A} (t : gmap uuid A) : Z.of_nat (size t) = 0 ↔ t = ∅.
Proof. rewrite <- map_size_empty_iff. lia. Qed.

Lemma create_user_nonempty E email name password w :
  users w ≠ ∅ → users (create_user E email name password w).2 ≠ ∅.
Proof.
  intros Hne.
  destruct (create_user_cases E email name password w) as [[_ ->]|[_ ->]]; simpl; [|done].
  apply insert_non_empty.
Qed.

Lemma register_all_later E reqs w :
  users w ≠ ∅ → Forall (fun u => user_is_superadmin u.2 = false) (register_all E reqs w).
Proof.
  revert w. induction reqs as [|[[email name] password] reqs IH]; intros w Hne; simpl.
  { constructor. }
  pose proof (create_user_nonempty E email name password w Hne) as Hne'.
  destruct (create_user_cases E email name password w) as [[_ Hr]|[_ Hr]];
    rewrite Hr in *; simpl in *.
  - constructor; [|by apply IH]. simpl.
    apply bool_decide_eq_false. by rewrite size_zero_empty.
  - by apply IH.
Qed.

(** C10. [create_user] sets [is_superadmin] exactly when the user table
    is empty at the time of the call: the call on an empty table succeeds
    and creates a superadmin, and in a run of registrations that starts on
    an empty table the first user created is a superadmin and none of the
    later ones is.  The flag is no argument of the function. *)
Theorem create_user_superadmin_iff_first
    (E : Env) (email name password : string) (w : World) :
  let r := create_user E email name password w in
  (∀ id user, r.1 = Ok (id, user) →
     (user_is_superadmin user = true ↔ users w = ∅)
     ∧ users w !! id = None ∧ users r.2 = <[id := user]> (users w))
  ∧ ((∀ k u, users w !! k = Some u → user_email u ≠ email) →
       ∃ id user, r.1 = Ok (id, user))
  ∧ (users w = ∅ →
       ∀ reqs, ∃ first rest,
         register_all E ((email, name, password) :: reqs) w = first :: rest
         ∧ user_is_superadmin first.2 = true
         ∧ Forall (fun u => user_is_superadmin u.2 = false) rest).
Proof.
  intros r. subst r.
  destruct (create_user_cases E email name password w) as [[Hsel Hr]|[Hsel Hr]].
  - rewrite Hr. simpl. split_and!.
    + intros id user [= <- <-]. simpl. split_and!.
      * by rewrite bool_decide_eq_true, size_zero_empty.
      * apply uuid4_fresh.
      * done.
    + eauto.
    + intros Hempty reqs. simpl. rewrite Hr. eexists _, _. split_and!; [done| |].
      * simpl. by rewrite bool_decide_eq_true, size_zero_empty.
      * apply register_all_later. simpl. apply insert_non_empty.
  - rewrite Hr. simpl. split_and!.
    + intros id user [=].
    + intros Hfree. exfalso. apply Hsel. apply select_where_nil.
      intros k u Hk. apply bool_decide_eq_false. eauto.
    + intros Hempty. exfalso. apply Hsel. apply select_where_nil.
      intros k u Hk. rewrite Hempty in Hk. by rewrite lookup_empty in Hk.
Qed.

(** ** Memberships *)

Lemma member_rows_found (project : uuid * Project) user_id w k m :
  (k, m) ∈ select_where (member_query project.1 user_id) (project_members w) →
  project_members w !! k = Some m.
Proof. by intros [? _]%elem_of_select_where. Qed.

(** What [update_member] does, by the answer of its query. *)
Lemma update_member_cases (project : uuid * Project) user_id role w :
  let q := select_where (member_query project.1 user_id) (project_members w) in
  (∃ e, update_member project user_id role w = (Raise e, w)
        ∧ (q = [] ∨ (∃ k m, q = [(k, m)] ∧ pm_role m = "owner") ∨ 2 ≤ length q)%nat)
  ∨ ∃ k m, q = [(k, m)] ∧ pm_role m ≠ "owner"
      ∧ update_member project user_id role w
        = (Ok (k, set_pm_role role m),
           set_project_members (insert k (set_pm_role role m)) w).
Proof.
  intros q. unfold update_member. run_m. fold q.
  destruct q as [|[k m] [|x q]]; simpl.
  - left. eexists. split; [done|]. by left.
  - destruct (decide (pm_role m = "owner")) as [Ho|Ho].
    + rewrite bool_decide_eq_true_2 by done. left. eexists. split; [done|].
      right. left. eauto.
    + rewrite bool_decide_eq_false_2 by done. right. eauto.
  - left. eexists. split; [done|]. right. right. lia.
Qed.

Lemma remove_member_cases (project : uuid * Project) user_id w :
  let q := select_where (member_query project.1 user_id) (project_members w) in
  (∃ e, remove_member project user_id w = (Raise e, w)
        ∧ (q = [] ∨ (∃ k m, q = [(k, m)] ∧ pm_role m = "owner") ∨ 2 ≤ length q)%nat)
  ∨ ∃ k m, q = [(k, m)] ∧ pm_role m ≠ "owner"
      ∧ remove_member project user_id w = (Ok true, set_project_members (delete k) w).
Proof.
  intros q. unfold remove_member. run_m. fold q.
  destruct q as [|[k m] [|x q]]; simpl.
  - left. eexists. split; [done|]. by left.
  - destruct (decide (pm_role m = "owner")) as [Ho|Ho].
    + rewrite bool_decide_eq_true_2 by done. left. eexists. split; [done|].
      right. left. eauto.
    + rewrite bool_decide_eq_false_2 by done. right. eauto.
  - left. eexists. split; [done|]. right. right. lia.
Qed.

Lemma owner_row_kept_by_op op w mid m :
  project_members w !! mid = Some m → pm_role m = "owner" →
  project_members (run_member_op op w) !! mid = Some m.
Proof.
  intros Hm Ho. destruct op as [project user_id role|project user_id]; simpl.
  - destruct (update_member_cases project user_id role w)
      as [(e & -> & _)|(k & r & Hq & Hno & ->)]; [done|]. simpl.
    assert (project_members w !! k = Some r) as Hk.
    { eapply member_rows_found. rewrite Hq. left. }
    rewrite lookup_insert_ne; [done|]. intros ->. congruence.
  - destruct (remove_member_cases project user_id w)
      as [(e & -> & _)|(k & r & Hq & Hno & ->)]; [done|]. simpl.
    assert (project_members w !! k = Some r) as Hk.
    { eapply member_rows_found. rewrite Hq. left. }
    rewrite lookup_delete_ne; [done|]. intros ->. congruence.
Qed.

(** C7. For a membership row whose role is 'owner', [update_member] and
    [remove_member] aimed at it raise an error and leave the session as it
    was (with one membership row per project and user the error is the
    400 of the owner check), and after every sequence of member-update
    and member-remove operations the row is still there with its role. *)
Theorem owner_row_immutable (w : World) (mid : uuid) (m : ProjectMember) :
  project_members w !! mid = Some m → pm_role m = "owner" →
  (∀ (project : uuid * Project) role, project.1 = pm_project_id m →
     (∃ e, update_member project (pm_user_id m) role w = (Raise e, w))
     ∧ (∃ e, remove_member project (pm_user_id m) w = (Raise e, w))
     ∧ (unique_membership w →
          update_member project (pm_user_id m) role w
            = (Raise (HTTPException 400 "Cannot change owner role"), w)
          ∧ remove_member project (pm_user_id m) w
            = (Raise (HTTPException 400 "Cannot remove project owner"), w)))
  ∧ (∀ ops, project_members (run_member_ops ops w) !! mid = Some m
            ∧ pm_role m = "owner").
Proof.
  intros Hm Ho. split.
  - intros project role Hp.
    assert ((mid, m) ∈ select_where (member_query project.1 (pm_user_id m))
                         (project_members w)) as Hin.
    { apply elem_of_select_where. split; [done|]. by apply member_query_true. }
    split_and!.
    + destruct (update_member_cases project (pm_user_id m) role w)
        as [(e & Hr & _)|(k & r & Hq & Hno & _)]; [eauto|].
      rewrite Hq in Hin. apply list_elem_of_singleton in Hin as [= <- <-]. done.
    + destruct (remove_member_cases project (pm_user_id m) w)
        as [(e & Hr & _)|(k & r & Hq & Hno & _)]; [eauto|].
      rewrite Hq in Hin. apply list_elem_of_singleton in Hin as [= <- <-]. done.
    + intros Hu.
      assert (select_where (member_query project.1 (pm_user_id m)) (project_members w)
              = [(mid, m)]) as Hq.
      { apply select_where_one; [|done|by apply member_query_true].
        intros k' r' Hk' [Hp' Hu']%member_query_true. eapply Hu; eauto; congruence. }
      unfold update_member, remove_member. run_m. rewrite Hq. simpl.
      rewrite bool_decide_eq_true_2 by done. done.
  - intros ops. split; [|done]. revert w Hm.
    induction ops as [|op ops IH]; intros w Hm; simpl; [done|].
    apply IH. by apply owner_row_kept_by_op.
Qed.

(** What [add_member] does for a registered user who is not a member yet. *)
Lemma add_member_new (project : uuid * Project) email role invited_by w uid u :
  users w !! uid = Some u → user_email u = email →
  (∀ k u', users w !! k = Some u' → user_email u' = email → k = uid) →
  (∀ mid m, ¬ membership_row w project.1 uid mid m) →
  let row := mkProjectMember project.1 uid role (Some invited_by) in
  let mid := uuid4 (project_members w) in
  add_member project email role invited_by w
  = (Ok (mid, row), set_project_members (insert mid row) w).
Proof.
  intros Hu He Huniq Hnone row mid. unfold add_member. run_m.
  rewrite (select_where_one _ (users w) uid u).
  - simpl. rewrite (proj2 (no_membership_row w project.1 uid) Hnone). done.
  - intros k u' Hk Hq. apply bool_decide_eq_true in Hq. eauto.
  - done.
  - by apply bool_decide_eq_true.
Qed.

Lemma update_member_other (project : uuid * Project) user_id role w mid m :
  unique_membership w → membership_row w project.1 user_id mid m → pm_role m ≠ "owner" →
  update_member project user_id role w
  = (Ok (mid, set_pm_role role m), set_project_members (insert mid (set_pm_role role m)) w).
Proof.
  intros Hu (Hm & Hp & Hus) Hno. unfold update_member. run_m.
  rewrite (select_where_one _ (project_members w) mid m).
  - simpl. rewrite bool_decide_eq_false_2 by done. done.
  - intros k' r' Hk' [Hp' Hu']%member_query_true. eapply Hu; eauto; congruence.
  - done.
  - by apply member_query_true.
Qed.

(** C8. A role string that is none of 'owner', 'admin', 'member' and
    'viewer', the four that the comment on the column in [models.py]
    names, is not rejected: [add_member] creates a membership row with
    the role 'superuser', and [update_member] writes it into an existing
    row. *)
Theorem unknown_role_is_persisted :
  ROLE_HIERARCHY !! "superuser" = None
  ∧ (∃ mid w',
       add_member sample_project "carol@example.test" "superuser" 10%N sample_world
       = (Ok (mid, mkProjectMember 20%N 12%N "superuser" (Some 10%N)), w')
       ∧ project_members sample_world !! mid = None
       ∧ project_members w' !! mid
         = Some (mkProjectMember 20%N 12%N "superuser" (Some 10%N)))
  ∧ (∃ w',
       update_member sample_project 11%N "superuser" sample_world
       = (Ok (31%N, mkProjectMember 20%N 11%N "superuser" (Some 10%N)), w')
       ∧ project_members w' !! 31%N
         = Some (mkProjectMember 20%N 11%N "superuser" (Some 10%N))).
Proof.
  split; [reflexivity|]. split.
  - eexists _, _. split_and!; [vm_compute; reflexivity|vm_compute; reflexivity|].
    vm_compute. reflexivity.
  - eexists. split; vm_compute; reflexivity.
Qed.

(** What the membership mutations do with the role string, on every
    input: [add_member], for a registered user who is not a member of the
    project yet, creates one row that holds the supplied role, and
    [update_member], on a membership whose role is not 'owner', writes the
    supplied role into the row. *)
Lemma membership_role_persisted_as_given (role : string) :
  (∀ (project : uuid * Project) email invited_by w uid u,
     users w !! uid = Some u → user_email u = email →
     (∀ k u', users w !! k = Some u' → user_email u' = email → k = uid) →
     (∀ mid m, ¬ membership_row w project.1 uid mid m) →
     ∃ mid w',
       add_member project email role invited_by w
       = (Ok (mid, mkProjectMember project.1 uid role (Some invited_by)), w')
       ∧ project_members w !! mid = None
       ∧ project_members w'
         = <[mid := mkProjectMember project.1 uid role (Some invited_by)]>
             (project_members w))
  ∧ (∀ (project : uuid * Project) user_id w mid m,
       unique_membership w → membership_row w project.1 user_id mid m →
       pm_role m ≠ "owner" →
       ∃ w',
         update_member project user_id role w = (Ok (mid, set_pm_role role m), w')
         ∧ pm_role (set_pm_role role m) = role
         ∧ project_members w' = <[mid := set_pm_role role m]> (project_members w)).
Proof.
  split.
  - intros project email invited_by w uid u Hu He Huniq Hnone.
    eexists _, _. split_and!.
    + by eapply add_member_new.
    + apply uuid4_fresh.
    + done.
  - intros project user_id w mid m Hu Hm Hno.
    eexists. split_and!; [by apply update_member_other|done..].
Qed.

(** ** Delivery *)

Lemma is_2xx_true code : is_2xx code = true ↔ 200 ≤ code < 300.
Proof. unfold is_2xx. rewrite andb_true_iff, Z.leb_le, Z.ltb_lt. reflexivity. Qed.

Lemma is_2xx_false code : is_2xx code = false ↔ ¬ (200 ≤ code < 300).
Proof. rewrite <- is_2xx_true. destruct (is_2xx code); split; congruence. Qed.

(** *** The commit *)

Lemma json_ind' (P : json → Prop) :
  P JNull → (∀ b, P (JBool b)) → (∀ z, P (JInt z)) → (∀ s, P (JStr s)) →
  (∀ l, Forall P l → P (JList l)) →
  (∀ l, Forall (fun sx => P sx.2) l → P (JDict l)) →
  ∀ a, P a.
Proof.
  intros H1 H2 H3 H4 H5 H6.
  fix ind 1. intros [|b|z|s|l|l]; [done..| |].
  - apply H5. induction l as [|x l IH]; constructor; [apply ind|exact IH].
  - apply H6. induction l as [|sx l IH]; constructor; [apply ind|exact IH].
Qed.

Lemma json_eqb_eq (a b : json) : json_eqb a b = true ↔ a = b.
Proof.
  revert b. induction a as [|b0|z0|s0|l IH|l IH] using json_ind';
    intros c; destruct c as [|b1|z1|s1|l0|fields]; simpl;
    try (split; [done|discriminate]);
    try (rewrite bool_decide_eq_true; split; congruence).
  - done.
  - split; [intros H; f_equal|intros Heq; injection Heq as Heq; subst l0].
    + revert l0 H. induction IH as [|x l Hx _ IHl]; intros [|y k] H; try done.
      apply andb_true_iff in H as [Hxy Hk]. f_equal; [by apply Hx|by apply IHl].
    + induction IH as [|x l Hx _ IHl]; [done|].
      apply andb_true_iff. split; [by apply Hx|done].
  - split; [intros H; f_equal|intros Heq; injection Heq as Heq; subst fields].
    + revert fields H. induction IH as [|[s x] l Hx _ IHl]; intros [|[t y] k] H; try done.
      apply andb_true_iff in H as [[Hst%bool_decide_eq_true Hxy]%andb_true_iff Hk].
      f_equal; [f_equal; [done|by apply Hx]|by apply IHl].
    + induction IH as [|[s x] l Hx _ IHl]; [done|].
      rewrite !andb_true_iff, bool_decide_eq_true. split_and!; [done|by apply Hx|done].
Qed.

Lemma delivery_eqb_eq (a b : WebhookDelivery) : delivery_eqb a b = true ↔ a = b.
Proof.
  unfold delivery_eqb. rewrite !andb_true_iff, !bool_decide_eq_true, json_eqb_eq.
  split.
  - intros (((((((? & ?) & ?) & ?) & ?) & ?) & ?) & ?).
    destruct a, b. simpl in *. congruence.
  - intros ->. done.
Qed.

Lemma stored_in_true (t : gmap uuid WebhookDelivery) k d :
  stored_in t (k, d) = true ↔ t !! k = Some d.
Proof.
  unfold stored_in. simpl. destruct (t !! k) as [d0|]; [|done].
  rewrite delivery_eqb_eq. split; congruence.
Qed.

(** The commit goes through exactly when the database accepts each row
    that the session has added or changed. *)
Lemma commit_accepted E before w :
  commit E before w = (Ok tt, w) ↔
  ∀ k d, webhook_deliveries w !! k = Some d →
         webhook_deliveries before !! k = Some d ∨ db_accepts E d = true.
Proof.
  unfold commit, dirty_deliveries.
  destruct (forallb _ _) eqn:Hall.
  - split; [intros _|done]. intros k d Hk.
    rewrite forallb_forall in Hall.
    destruct (stored_in (webhook_deliveries before) (k, d)) eqn:Hs.
    + left. by apply stored_in_true.
    + right. apply (Hall (k, d)). apply filter_In. split.
      * by apply list_elem_of_In, elem_of_map_to_list.
      * by rewrite Hs.
  - split; [done|]. intros H. exfalso.
    apply not_true_iff_false in Hall. apply Hall. apply forallb_forall.
    intros [k d] [Hin Hd]%filter_In. simpl.
    apply list_elem_of_In, elem_of_map_to_list in Hin.
    destruct (H k d Hin) as [Hs|Ha]; [|done].
    apply stored_in_true in Hs. rewrite Hs in Hd. done.
Qed.

Lemma commit_cases E before w :
  commit E before w = (Ok tt, w) ∨ commit E before w = (Raise DBAPIError, w).
Proof. unfold commit. destruct (forallb _ _); [by left|by right]. Qed.

Lemma forallb_false_ex {A} (P : A → bool) (l : list A) :
  forallb P l = false → ∃ x, In x l ∧ P x = false.
Proof.
  induction l as [|x l IH]; simpl; [done|].
  destruct (P x) eqn:Hx; simpl.
  - intros (y & Hy & Hf)%IH. exists y. split; [by right|done].
  - intros _. exists x. split; [by left|done].
Qed.

Lemma commit_refused E before w :
  commit E before w = (Raise DBAPIError, w) ↔
  ∃ k d, webhook_deliveries w !! k = Some d
         ∧ webhook_deliveries before !! k ≠ Some d ∧ db_accepts E d = false.
Proof.
  split.
  - intros Hc. unfold commit, dirty_deliveries in Hc.
    destruct (forallb _ _) eqn:Hall; [done|].
    apply forallb_false_ex in Hall as ([k d] & [Hin Hd]%filter_In & Ha).
    apply list_elem_of_In, elem_of_map_to_list in Hin. simpl in *.
    exists k, d. split_and!; [done| |done].
    intros Hs%stored_in_true. by rewrite Hs in Hd.
  - intros (k & d & Hk & Hn & Ha).
    destruct (commit_cases E before w) as [Hok|Hr]; [|done].
    destruct (proj1 (commit_accepted E before w) Hok k d Hk); congruence.
Qed.
(** *** One delivery *)

Lemma commit_new_row E w w1 id d :
  webhook_deliveries w !! id = None →
  webhook_deliveries w1 = <[id := d]> (webhook_deliveries w) →
  commit E w w1 = if db_accepts E d then (Ok tt, w1) else (Raise DBAPIError, w1).
Proof.
  intros Hid Hw1. destruct (db_accepts E d) eqn:Ha.
  - apply commit_accepted. intros k d0. rewrite Hw1.
    intros [[<- <-]|[_ Hk]]%lookup_insert_Some; [by right|by left].
  - apply commit_refused. exists id, d. rewrite Hw1, lookup_insert_eq, Hid. done.
Qed.

(** One call of [_deliver].  Either the POST raises another exception
    than an [HTTPError], which [_deliver] lets through; or the outcome of
    the POST is put down in a row, which the commit stores, [_deliver]
    returning it, or which the database refuses, [_deliver] raising.
    When it raises no table has changed. *)
Lemma _deliver_run E (webhook : uuid * Webhook) event payload w :
  let r := _deliver E webhook event payload w in
  let o := post E (ticks w) (request_of E webhook.2 event payload) in
  let id := uuid4 (webhook_deliveries w) in
  (users r.2 = users w ∧ refresh_tokens r.2 = refresh_tokens w
   ∧ projects r.2 = projects w ∧ project_members r.2 = project_members w)
  ∧ ((∃ exc, o = RaisesOther exc ∧ r.1 = Raise (OtherException exc)
             ∧ webhooks r.2 = webhooks w
             ∧ webhook_deliveries r.2 = webhook_deliveries w)
     ∨ ∃ d, records_outcome o d
            ∧ dl_webhook_id d = webhook.1 ∧ dl_event d = event ∧ dl_payload d = payload
            ∧ dl_attempt_count d = 1 ∧ dl_next_retry_at d = None
            ∧ ((db_accepts E d = true ∧ r.1 = Ok (id, d)
                ∧ webhook_deliveries r.2 = <[id := d]> (webhook_deliveries w)
                ∧ ∃ t, webhooks r.2
                       = <[webhook.1 := set_wh_last (Some t) (dl_status_code d) webhook.2]>
                           (webhooks w))
               ∨ (db_accepts E d = false ∧ r.1 = Raise DBAPIError
                  ∧ webhooks r.2 = webhooks w
                  ∧ webhook_deliveries r.2 = webhook_deliveries w))).
Proof.
  intros r o id. subst r o id.
  pose proof (uuid4_fresh (webhook_deliveries w)) as Hfresh.
  unfold _deliver, in_session, try_except_HTTPError, client_post, datetime_now, request_of.
  run_m.
  destruct (post E (ticks w) _) as [resp|msg|exc]; simpl.
  - destruct (is_2xx (status_code resp)) eqn:H2xx; simpl.
    + erewrite commit_new_row; [|exact Hfresh|simpl; reflexivity].
      match goal with |- context [db_accepts E ?d] => set (d0 := d) end.
      assert (records_outcome (Answers resp) d0) as Ho.
      { simpl. split_and!; [done..|]. unfold delivered. simpl.
        apply is_2xx_true in H2xx. split; eauto. }
      destruct (db_accepts E d0) eqn:Ha; simpl; (split; [done|]); right; exists d0;
        (split; [exact Ho|]); (split_and!; try done); [left|right]; split_and!; eauto.
    + erewrite commit_new_row; [|exact Hfresh|simpl; reflexivity].
      match goal with |- context [db_accepts E ?d] => set (d0 := d) end.
      assert (records_outcome (Answers resp) d0) as Ho.
      { simpl. split_and!; [done..|]. unfold delivered. simpl.
        apply is_2xx_false in H2xx. split; [by intros [? [=]]|done]. }
      destruct (db_accepts E d0) eqn:Ha; simpl; (split; [done|]); right; exists d0;
        (split; [exact Ho|]); (split_and!; try done); [left|right]; split_and!; eauto.
  - erewrite commit_new_row; [|exact Hfresh|simpl; reflexivity].
    match goal with |- context [db_accepts E ?d] => set (d0 := d) end.
    destruct (db_accepts E d0) eqn:Ha; simpl; (split; [done|]); right; exists d0;
      (split; [done|]); (split_and!; try done); [left|right]; split_and!; eauto.
  - split; [done|]. left. by exists exc.
Qed.
(** In a well-behaved environment [_deliver] returns. *)
Lemma _deliver_returns E (webhook : uuid * Webhook) event payload w :
  well_behaved E → ∃ d, (_deliver E webhook event payload w).1 = Ok d.
Proof.
  intros [Hpost Hdb].
  destruct (_deliver_run E webhook event payload w)
    as (_ & [(exc & Ho & _)|(d & _ & _ & _ & _ & _ & _ & [(_ & Hr & _)|(Ha & _)])]).
  - by destruct (Hpost _ _ _ Ho).
  - eauto.
  - rewrite Hdb in Ha. done.
Qed.

Lemma for_each_cons {A B} (f : A → M B) x xs w :
  for_each f (x :: xs) w
  = match f x w with
    | (Ok y, w1) => match for_each f xs w1 with
                    | (Ok ys, w') => (Ok (y :: ys), w')
                    | (Raise e, w') => (Raise e, w')
                    end
    | (Raise e, w1) => (Raise e, w1)
    end.
Proof.
  simpl. run_m. destruct (f x w) as [[y|e] w1]; [|done].
  by destruct (for_each f xs w1) as [[ys|e] w'].
Qed.

(** The loop of [fire_webhook] over the webhooks [whs].  It keeps the
    rows of the table, and a row that the table gains is the row of one
    attempt on one of the webhooks; when the loop returns, there is one
    such row per webhook, in order, each under a key new to the table. *)
Lemma for_each_deliver E event payload (whs : list (uuid * Webhook)) w :
  let r := for_each (fun wh => _deliver E wh event payload) whs w in
  (∀ id d, webhook_deliveries w !! id = Some d → webhook_deliveries r.2 !! id = Some d)
  ∧ (∀ id d, webhook_deliveries r.2 !! id = Some d → webhook_deliveries w !! id = None →
       ∃ wh n, wh ∈ whs ∧ dl_webhook_id d = wh.1 ∧ dl_attempt_count d = 1
               ∧ records_outcome (post E n (request_of E wh.2 event payload)) d)
  ∧ (∀ ds, r.1 = Ok ds →
       Forall2 (fun wh d => dl_webhook_id d.2 = wh.1 ∧ dl_attempt_count d.2 = 1
                  ∧ ∃ n, records_outcome (post E n (request_of E wh.2 event payload)) d.2)
         whs ds
       ∧ NoDup ds.*1
       ∧ (∀ id, id ∈ ds.*1 → webhook_deliveries w !! id = None)
       ∧ (∀ id d, (id, d) ∈ ds → webhook_deliveries r.2 !! id = Some d)
       ∧ (∀ id, id ∉ ds.*1 → webhook_deliveries r.2 !! id = webhook_deliveries w !! id)).
Proof.
  revert w. induction whs as [|wh whs IH]; intros w.
  { simpl. run_m. split_and!; [done|congruence|].
    intros ds [= <-]. split_and!; try done.
    - constructor.
    - intros id Hin. by apply not_elem_of_nil in Hin.
    - intros id d Hin. by apply not_elem_of_nil in Hin. }
  cbv zeta. rewrite for_each_cons.
  pose proof (uuid4_fresh (webhook_deliveries w)) as Hfresh0.
  destruct (_deliver_run E wh event payload w)
    as (_ & [(exc & _ & Hr & _ & Ht)
            |(d & Ho & Hid & _ & _ & Hc & _ & [(_ & Hr & Ht & _)|(_ & Hr & _ & Ht)])]).
  - destruct (_deliver E wh event payload w) as [[y|e] w1]; simpl in *; [done|].
    rewrite Ht. split_and!; [done|congruence|done].
  - destruct (_deliver E wh event payload w) as [[y|e] w1]; simpl in *; [|done].
    injection Hr as ->.
    set (id := uuid4 (webhook_deliveries w)) in *.
    specialize (IH w1). cbv zeta in IH. destruct IH as (Hkeep & Hnew & Hok).
    destruct (for_each _ whs w1) as [[ds|e] w'] eqn:Hloop; simpl in *.
    + split_and!.
      * intros k d0 Hk. apply Hkeep. rewrite Ht. rewrite lookup_insert_ne; [done|].
        intros <-. congruence.
      * intros k d0 Hk Hnone. destruct (decide (k = id)) as [->|Hne].
        -- assert (webhook_deliveries w' !! id = Some d) as Hd
             by (apply Hkeep; rewrite Ht; apply lookup_insert_eq).
           assert (d0 = d) as -> by congruence.
           exists wh, (ticks w). split_and!; [left|done..].
        -- destruct (Hnew k d0 Hk) as (wh' & n & Hin & Hrest).
           { rewrite Ht. by rewrite lookup_insert_ne. }
           exists wh', n. split; [by right|done].
      * intros ds' [= <-].
        destruct (Hok ds eq_refl) as (Hall & Hnd & Hfresh & Hin & Hout).
        assert (id ∉ ds.*1) as Hid_ds.
        { intros Hin'. apply Hfresh in Hin'. rewrite Ht, lookup_insert_eq in Hin'. done. }
        split_and!.
        -- constructor; [|done]. simpl. eauto.
        -- simpl. by apply NoDup_cons.
        -- intros k. simpl. rewrite elem_of_cons. intros [->|Hk]; [done|].
           apply Hfresh in Hk. rewrite Ht in Hk.
           apply lookup_insert_None in Hk as [? _]. done.
        -- intros k d' [[= -> ->]|Hk]%elem_of_cons.
           ++ rewrite Hout by done. rewrite Ht. apply lookup_insert_eq.
           ++ by apply Hin.
        -- intros k. simpl. rewrite not_elem_of_cons. intros [Hne Hnin].
           rewrite Hout by done. rewrite Ht. by rewrite lookup_insert_ne.
    + split_and!; [| |done].
      * intros k d0 Hk. apply Hkeep. rewrite Ht. rewrite lookup_insert_ne; [done|].
        intros <-. congruence.
      * intros k d0 Hk Hnone. destruct (decide (k = id)) as [->|Hne].
        -- assert (webhook_deliveries w' !! id = Some d) as Hd
             by (apply Hkeep; rewrite Ht; apply lookup_insert_eq).
           assert (d0 = d) as -> by congruence.
           exists wh, (ticks w). split_and!; [left|done..].
        -- destruct (Hnew k d0 Hk) as (wh' & n & Hin & Hrest).
           { rewrite Ht. by rewrite lookup_insert_ne. }
           exists wh', n. split; [by right|done].
  - destruct (_deliver E wh event payload w) as [[y|e] w1]; simpl in *; [done|].
    rewrite Ht. split_and!; [done|congruence|done].
Qed.

Lemma for_each_deliver_returns E event payload (whs : list (uuid * Webhook)) w :
  well_behaved E →
  ∃ ds, (for_each (fun wh => _deliver E wh event payload) whs w).1 = Ok ds.
Proof.
  intros HE. revert w. induction whs as [|wh whs IH]; intros w.
  { by exists []. }
  rewrite for_each_cons.
  destruct (_deliver_returns E wh event payload w HE) as (d & Hd).
  destruct (_deliver E wh event payload w) as [[y|e] w1]; simpl in Hd; [|done].
  destruct (IH w1) as (ds & Hds).
  destruct (for_each _ whs w1) as [[ys|e] w']; simpl in Hds; [|done].
  by eexists.
Qed.
Lemma fire_webhook_unfold E project_id event payload w :
  fire_webhook E project_id event payload w
  = for_each (fun wh => _deliver E wh event payload)
      (matching_webhooks project_id event w) w.
Proof. reflexivity. Qed.

Lemma elem_of_matching_webhooks project_id event w wid h :
  (wid, h) ∈ matching_webhooks project_id event w ↔
  webhooks w !! wid = Some h ∧ fires project_id event h.
Proof.
  unfold matching_webhooks, fires, subscribed.
  rewrite list_elem_of_In, filter_In, <- list_elem_of_In, elem_of_select_where. simpl.
  rewrite andb_true_iff, orb_true_iff, !bool_decide_eq_true. tauto.
Qed.

Lemma NoDup_matching_webhooks project_id event w :
  NoDup (matching_webhooks project_id event w).*1.
Proof. apply NoDup_fst_filter, NoDup_select_where. Qed.

Lemma py_slice_to_short (n : nat) (s : string) :
  (String.length s ≤ n)%nat → py_slice_to n s = s.
Proof.
  unfold py_slice_to. revert n. induction s as [|c s IH]; intros n Hn.
  - by destruct n.
  - destruct n as [|n]; simpl in *; [lia|]. f_equal. apply IH. lia.
Qed.

Lemma Forall2_webhook_ids (Q : uuid * Webhook → uuid * WebhookDelivery → Prop)
    (whs : list (uuid * Webhook)) (ds : list (uuid * WebhookDelivery)) :
  (∀ wh d, Q wh d → dl_webhook_id d.2 = wh.1) →
  Forall2 Q whs ds → (fun d => dl_webhook_id d.2) <$> ds = whs.*1.
Proof.
  intros HQ. induction 1 as [|wh d whs ds Hid _ IH]; csimpl; [done|].
  f_equal; [by apply HQ|done].
Qed.

Lemma records_outcome_first_attempt o d :
  dl_attempt_count d = 1 → records_outcome o d → first_attempt_row d.
Proof.
  intros Hc Ho. split; [done|]. unfold status_2xx.
  destruct o as [resp|msg|exc]; simpl in Ho; [| |done].
  - destruct Ho as (Hs & _ & Hd). rewrite Hd, Hs. split; [eauto|].
    by intros (code & [= <-] & ?).
  - destruct Ho as (Hs & _ & Hd). unfold delivered. rewrite Hd, Hs.
    split; [by intros [? [=]]|by intros (? & [=] & _)].
Qed.

(** ** The retry sweep *)

Lemma retry_query_true d : retry_query d = true ↔ retriable d.
Proof.
  unfold retry_query, retriable.
  rewrite andb_true_iff, bool_decide_eq_true, Z.ltb_lt. reflexivity.
Qed.

Lemma request_of_static E h h' event payload :
  wh_static h = wh_static h' → request_of E h event payload = request_of E h' event payload.
Proof. unfold wh_static, request_of. intros [= _ -> -> _ _]. done. Qed.

(** One turn of the loop: the row is skipped, the session untouched; or
    the POST raises another exception than an [HTTPError], and so does
    the turn; or the row is attempted once. *)
Lemma retry_delivery_spec E retried (delivery : uuid * WebhookDelivery) w :
  (¬ parent_active w delivery.2 ∧ retry_delivery E retried delivery w = (Ok retried, w))
  ∨ ∃ h,
      let o := post E (ticks w)
                 (request_of E h (dl_event delivery.2) (dl_payload delivery.2)) in
      webhooks w !! dl_webhook_id delivery.2 = Some h ∧ wh_is_active h = true
      ∧ ((∃ exc, o = RaisesOther exc
                 ∧ retry_delivery E retried delivery w
                   = (Raise (OtherException exc), set_ticks S w))
         ∨ ∃ d' w',
             retry_delivery E retried delivery w
             = (Ok (retried + (if outcome_2xx o then 1 else 0)), w')
             ∧ webhook_deliveries w' = <[delivery.1 := d']> (webhook_deliveries w)
             ∧ (∃ t c, webhooks w'
                       = <[dl_webhook_id delivery.2 := set_wh_last t c h]> (webhooks w))
             ∧ records_retry o delivery.2 d').
Proof.
  unfold retry_delivery. run_m.
  destruct (webhooks w !! dl_webhook_id delivery.2) as [h|] eqn:Hh;
    [|left; split; [intros (h & ? & _); congruence|done]].
  destruct (wh_is_active h) eqn:Ha; simpl;
    [|left; split; [intros (h' & ? & ?); congruence|done]].
  right. exists h. split; [done|]. split; [done|].
  unfold try_except_HTTPError, client_post, datetime_now, request_of. run_m.
  destruct (post E (ticks w) _) as [resp|msg|exc]; simpl.
  - right. destruct (is_2xx (status_code resp)) eqn:H2xx; simpl.
    + eexists _, _. split_and!; try done; [eauto|].
      unfold records_retry, delivered. simpl. rewrite H2xx.
      split_and!; done.
    + eexists _, _. rewrite Z.add_0_r. split_and!; try done; [eauto|].
      unfold records_retry. simpl. rewrite H2xx. done.
  - right. eexists _, _. rewrite Z.add_0_r. split_and!; try done. eauto.
  - left. by exists exc.
Qed.

Lemma parent_active_static w w' d :
  (∀ id, wh_static <$> webhooks w' !! id = wh_static <$> webhooks w !! id) →
  parent_active w d → parent_active w' d.
Proof.
  intros Hs (h & Hh & Ha). specialize (Hs (dl_webhook_id d)). rewrite Hh in Hs.
  destruct (webhooks w' !! dl_webhook_id d) as [h'|] eqn:Hh'; cbn in Hs; [|discriminate].
  exists h'. split; [done|]. unfold wh_static in Hs. congruence.
Qed.

Lemma delivered_in_lookup (t : gmap uuid WebhookDelivery) k d :
  t !! k = Some d → delivered_in t k = bool_decide (delivered d).
Proof. unfold delivered_in. by intros ->. Qed.

Lemma not_delivered d : dl_delivered_at d = None → bool_decide (delivered d) = false.
Proof.
  intros Hd. apply bool_decide_eq_false. unfold delivered. rewrite Hd. by intros [? [=]].
Qed.

Lemma for_fold_cons {A B} (f : B → A → M B) acc x xs w :
  for_fold f acc (x :: xs) w
  = match f acc x w with
    | (Ok acc1, w1) => for_fold f acc1 xs w1
    | (Raise e, w1) => (Raise e, w1)
    end.
Proof. simpl. run_m. by destruct (f acc x w) as [[y|e] w1]. Qed.

(** The loop of the sweep over a selection [l] of undelivered rows, each
    listed once, when it comes to its end. *)
Lemma for_fold_retry E (l : list (uuid * WebhookDelivery)) acc w n w' :
  NoDup l.*1 →
  (∀ k d, (k, d) ∈ l → webhook_deliveries w !! k = Some d ∧ dl_delivered_at d = None) →
  for_fold (retry_delivery E) acc l w = (Ok n, w') →
  (∀ id, wh_static <$> webhooks w' !! id = wh_static <$> webhooks w !! id)
  ∧ (∀ k, k ∉ l.*1 → webhook_deliveries w' !! k = webhook_deliveries w !! k)
  ∧ (∀ k d, (k, d) ∈ l → ¬ parent_active w d → webhook_deliveries w' !! k = Some d)
  ∧ (∀ k d, (k, d) ∈ l → parent_active w d →
       ∃ h d' i, webhooks w !! dl_webhook_id d = Some h
                 ∧ webhook_deliveries w' !! k = Some d'
                 ∧ records_retry
                     (post E i (request_of E h (dl_event d) (dl_payload d))) d d')
  ∧ n = acc + Z.of_nat
                (length (List.filter
                           (fun kd => delivered_in (webhook_deliveries w') kd.1) l)).
Proof.
  revert acc w. induction l as [|[k d] l IH]; intros acc w Hnd Hl Hrun.
  { simpl in Hrun. run_m. injection Hrun as <- <-. split_and!; try done.
    - intros k d Hin. by apply not_elem_of_nil in Hin.
    - intros k d Hin. by apply not_elem_of_nil in Hin.
    - simpl. lia. }
  csimpl in Hnd. apply NoDup_cons in Hnd as [Hk Hnd].
  destruct (Hl k d) as [Hkd Hund]; [left|].
  assert (∀ k0 d0, (k0, d0) ∈ l → k0 ≠ k) as Hne.
  { intros k0 d0 Hin ->. apply Hk. apply list_elem_of_fmap. by exists (k, d0). }
  rewrite for_fold_cons in Hrun.
  destruct (retry_delivery_spec E acc (k, d) w)
    as [[Hna Hr]|(h & Hh & Ha & [(exc & _ & Hr)
                               |(d1 & w1 & Hr & Ht & (t & c & Hw) & Hrec)])];
    simpl in *; rewrite Hr in Hrun; [| done |].
  - destruct (IH acc w Hnd) as (Hs & Hout & Hskip & Hatt & Hn); [|done|].
    { intros k0 d0 Hin. apply Hl. by right. }
    split_and!.
    + exact Hs.
    + intros k0 [_ Hk0]%not_elem_of_cons. by apply Hout.
    + intros k0 d0 [[= -> ->]|Hin]%elem_of_cons Hnp.
      * by rewrite Hout.
      * by apply Hskip.
    + intros k0 d0 [[= -> ->]|Hin]%elem_of_cons Hp; [done|by apply Hatt].
    + rewrite (delivered_in_lookup _ k d) by by rewrite Hout.
      rewrite not_delivered by done. exact Hn.
  - set (o := post E (ticks w) (request_of E h (dl_event d) (dl_payload d))) in *.
    assert (∀ id, wh_static <$> webhooks w1 !! id = wh_static <$> webhooks w !! id)
      as Hs1.
    { intros id. rewrite Hw. destruct (decide (id = dl_webhook_id d)) as [->|Hid].
      - by rewrite lookup_insert_eq, Hh.
      - by rewrite lookup_insert_ne. }
    destruct (IH (acc + (if outcome_2xx o then 1 else 0)) w1 Hnd)
      as (Hs & Hout & Hskip & Hatt & Hn); [|done|].
    { intros k0 d0 Hin. rewrite Ht. rewrite lookup_insert_ne by (symmetry; eauto).
      apply Hl. by right. }
    assert (webhook_deliveries w' !! k = Some d1) as Hk1.
    { rewrite Hout by done. rewrite Ht. apply lookup_insert_eq. }
    split_and!.
    + intros id. by rewrite Hs, Hs1.
    + intros k0 [Hk0 Hk0l]%not_elem_of_cons.
      rewrite Hout by done. rewrite Ht. by rewrite lookup_insert_ne.
    + intros k0 d0 [[= -> ->]|Hin]%elem_of_cons Hnp.
      * destruct Hnp. by exists h.
      * apply Hskip; [done|]. intros Hp1. apply Hnp.
        eapply parent_active_static; [|exact Hp1]. intros id. by rewrite Hs1.
    + intros k0 d0 [[= -> ->]|Hin]%elem_of_cons Hp.
      * exists h, d1, (ticks w). done.
      * destruct (Hatt k0 d0 Hin) as (h1 & d' & i & Hh1 & Hd' & Hrec').
        { eapply parent_active_static; [|exact Hp]. exact Hs1. }
        pose proof (Hs1 (dl_webhook_id d0)) as Hst. rewrite Hh1 in Hst.
        destruct (webhooks w !! dl_webhook_id d0) as [h0|] eqn:Hh0; cbn in Hst;
          [|discriminate].
        exists h0, d', i. split_and!; [done..|].
        rewrite (request_of_static E h0 h1); [done|congruence].
    + rewrite (delivered_in_lookup _ k d1) by done.
      destruct Hrec as (_ & _ & _ & _ & Hdel & _).
      destruct (outcome_2xx o).
      * rewrite bool_decide_eq_true_2 by done. simpl length. lia.
      * rewrite not_delivered by congruence. lia.
Qed.

(** The loop comes to its end when no POST raises another exception
    than an [HTTPError]. *)
Lemma for_fold_retry_returns E (l : list (uuid * WebhookDelivery)) acc w :
  (∀ n r exc, post E n r ≠ RaisesOther exc) →
  ∃ n w', for_fold (retry_delivery E) acc l w = (Ok n, w').
Proof.
  intros Hpost. revert acc w. induction l as [|[k d] l IH]; intros acc w.
  { by exists acc, w. }
  rewrite for_fold_cons.
  destruct (retry_delivery_spec E acc (k, d) w)
    as [[_ ->]|(h & _ & _ & [(exc & Ho & _)|(d1 & w1 & -> & _)])].
  - apply IH.
  - by destruct (Hpost _ _ _ Ho).
  - apply IH.
Qed.

Lemma filter_filter {A} (f g h : A → bool) (l : list A) :
  (∀ x, x ∈ l → h x = g x && f x) →
  List.filter f (List.filter g l) = List.filter h l.
Proof.
  induction l as [|x l IH]; intros Hh; simpl; [done|].
  rewrite (Hh x) by left.
  destruct (g x); simpl; [destruct (f x)|]; rewrite IH; try done;
    intros y Hy; apply Hh; by right.
Qed.

Lemma retriable_dec d : retriable d ∨ ¬ retriable d.
Proof.
  rewrite <- retry_query_true. destruct (retry_query d); [by left|by right].
Qed.
Lemma retry_failed_deliveries_unfold E w :
  retry_failed_deliveries E w
  = match for_fold (retry_delivery E) 0
            (select_where retry_query (webhook_deliveries w)) w with
    | (Ok n, w1) =>
        match commit E w w1 with
        | (Ok _, _) => (Ok n, w1)
        | (Raise e, _) => (Raise e, rollback w w1)
        end
    | (Raise e, w1) => (Raise e, rollback w w1)
    end.
Proof.
  unfold retry_failed_deliveries, in_session. run_m.
  destruct (for_fold _ _ _ _) as [[n|e] w1]; [|done].
  by destruct (commit_cases E w w1) as [-> | ->].
Qed.

(** One sweep.  It raises, and no table has changed; or it returns, and
    then: the rows it has attempted are the undelivered rows with fewer
    than 3 attempts whose webhook exists and is active, each with one
    more attempt and the outcome of its POST, as the database has accepted
    it; every other row is as it was; no row is added or removed; and the
    number returned counts the rows that have gone from undelivered to
    delivered. *)
Lemma retry_sweep_run E w :
  let r := retry_failed_deliveries E w in
  ((∃ e, r.1 = Raise e) ∧ same_tables w r.2)
  ∨ ∃ n,
      r.1 = Ok n
      ∧ same_registry w r.2
      ∧ (∀ k d, webhook_deliveries w !! k = Some d → attempted w d →
           ∃ d', webhook_deliveries r.2 !! k = Some d'
                 ∧ db_accepts E d' = true
                 ∧ ∃ h i, webhooks w !! dl_webhook_id d = Some h
                          ∧ records_retry
                              (post E i (request_of E h (dl_event d) (dl_payload d))) d d')
      ∧ (∀ k d, webhook_deliveries w !! k = Some d → ¬ attempted w d →
           webhook_deliveries r.2 !! k = Some d)
      ∧ (∀ k, webhook_deliveries w !! k = None → webhook_deliveries r.2 !! k = None)
      ∧ n = Z.of_nat
              (length (List.filter (became_delivered (webhook_deliveries r.2))
                         (map_to_list (webhook_deliveries w)))).
Proof.
  intros r. subst r. rewrite retry_failed_deliveries_unfold.
  set (l := select_where retry_query (webhook_deliveries w)).
  assert (∀ k d, (k, d) ∈ l ↔ webhook_deliveries w !! k = Some d ∧ retriable d) as Hl.
  { intros k d. unfold l. by rewrite elem_of_select_where, retry_query_true. }
  assert (∀ k d, webhook_deliveries w !! k = Some d → ¬ retriable d → k ∉ l.*1) as Hnl.
  { intros k d Hk Hnr ([k' d'] & -> & [Hk' Hr]%Hl)%list_elem_of_fmap.
    simpl in *. congruence. }
  destruct (for_fold (retry_delivery E) 0 l w) as [[n|e] w'] eqn:Hrun;
    [|left; split; [by eexists|done]].
  destruct (commit_cases E w w') as [Hc|Hc]; rewrite Hc;
    [|left; split; [by eexists|done]].
  right. exists n. simpl.
  destruct (for_fold_retry E l 0 w n w') as (Hs & Hout & Hskip & Hatt & Hn);
    [apply NoDup_select_where| |done|].
  { intros k d [Hk [Hd _]]%Hl. done. }
  assert (∀ k d, webhook_deliveries w !! k = Some d → ¬ attempted w d →
            webhook_deliveries w' !! k = Some d) as Hkeep.
  { intros k d Hk Hna. destruct (retriable_dec d) as [Hr|Hnr].
    - apply Hskip; [by apply Hl|]. intros Hp. by apply Hna.
    - rewrite Hout; [done|]. by eapply Hnl. }
  split_and!.
  - done.
  - exact Hs.
  - intros k d Hk [Hr Hp].
    destruct (Hatt k d) as (h & d' & i & Hh & Hd' & Hrec); [by apply Hl|done|].
    exists d'. split_and!; [done| |by exists h, i].
    destruct (proj1 (commit_accepted E w w') Hc k d' Hd') as [Hsame|Ha]; [|done].
    destruct Hrec as (Hcount & _). assert (d' = d) as -> by congruence. lia.
  - exact Hkeep.
  - intros k Hk. rewrite Hout; [done|].
    intros ([k' d'] & -> & [Hk' _]%Hl)%list_elem_of_fmap. simpl in *. congruence.
  - rewrite Hn, Z.add_0_l. do 2 f_equal. unfold l, select_where.
    apply filter_filter. intros [k d] Hin%elem_of_map_to_list. simpl.
    unfold became_delivered, retry_query. simpl.
    destruct (decide (dl_delivered_at d = None)) as [Hund|Hdel].
    + rewrite bool_decide_eq_true_2 by done. simpl.
      destruct (Z.ltb_spec (dl_attempt_count d) 3) as [Hlt|Hge]; [done|]. simpl.
      rewrite (delivered_in_lookup _ k d).
      * by apply not_delivered.
      * apply Hkeep; [done|]. intros [[_ Hlt] _]. lia.
    + rewrite bool_decide_eq_false_2 by done. done.
Qed.

(** Whatever its end, a sweep leaves the registry as it is, adds and
    removes no row, and leaves a row as it was or as the row of one more
    attempt. *)
Lemma retry_sweep_tables E w :
  let w' := (retry_failed_deliveries E w).2 in
  same_registry w w'
  ∧ (∀ k, webhook_deliveries w !! k = None → webhook_deliveries w' !! k = None)
  ∧ (∀ k d, webhook_deliveries w !! k = Some d →
       webhook_deliveries w' !! k = Some d
       ∨ (attempted w d
          ∧ ∃ d' h i, webhooks w !! dl_webhook_id d = Some h
                      ∧ webhook_deliveries w' !! k = Some d'
                      ∧ records_retry
                          (post E i (request_of E h (dl_event d) (dl_payload d))) d d')).
Proof.
  destruct (retry_sweep_run E w)
    as [[_ (_ & _ & _ & _ & Hw & Hd)]|(n & _ & Hs & Hatt & Hkeep & Hnone & _)]; cbv zeta.
  - split_and!.
    + intros id. by rewrite Hw.
    + intros k. by rewrite Hd.
    + intros k d Hk. left. by rewrite Hd.
  - split_and!; [done|done|].
    intros k d Hk.
    destruct (retriable_dec d) as [Hr|Hnr].
    + destruct (webhooks w !! dl_webhook_id d) as [h|] eqn:Hh.
      * destruct (wh_is_active h) eqn:Ha.
        -- right. assert (attempted w d) as Hat by (split; [done|by exists h]).
           split; [done|].
           destruct (Hatt k d Hk Hat) as (d' & Hd' & _ & h' & i & Hh' & Hrec).
           exists d', h', i. split; [congruence|]. split; [done|exact Hrec].
        -- left. apply Hkeep; [done|]. intros [_ (h' & Hh' & Ha')]. congruence.
      * left. apply Hkeep; [done|]. intros [_ (h' & Hh' & _)]. congruence.
    + left. apply Hkeep; [done|]. by intros [? _].
Qed.

(** In a well-behaved environment the sweep returns. *)
Lemma retry_sweep_returns E w :
  well_behaved E → ∃ n, (retry_failed_deliveries E w).1 = Ok n.
Proof.
  intros [Hpost Hdb]. rewrite retry_failed_deliveries_unfold.
  destruct (for_fold_retry_returns E (select_where retry_query (webhook_deliveries w)) 0 w
              Hpost) as (n & w' & ->).
  assert (commit E w w' = (Ok tt, w')) as ->.
  { apply commit_accepted. intros k d _. right. apply Hdb. }
  by exists n.
Qed.

(** *** In a well-behaved environment *)

(** A delivery attempt adds exactly one row to the table, with
    [attempt_count] 1, the outcome of the POST, and [delivered_at] set if
    and only if the recorded status code is in [200, 300); when the POST
    fails in transport the row has no status code, the error string (cut
    at 2000 characters) as response body and no [delivered_at]. *)
Lemma _deliver_well_behaved (E : Env) (webhook : uuid * Webhook) event payload w :
  well_behaved E →
  let o := post E (ticks w) (request_of E webhook.2 event payload) in
  ∃ id d w',
    _deliver E webhook event payload w = (Ok (id, d), w')
    ∧ webhook_deliveries w !! id = None
    ∧ webhook_deliveries w' = <[id := d]> (webhook_deliveries w)
    ∧ dl_webhook_id d = webhook.1 ∧ dl_event d = event ∧ dl_payload d = payload
    ∧ records_outcome o d
    ∧ first_attempt_row d
    ∧ (∀ msg, o = FailsInTransport msg →
         d = mkWebhookDelivery webhook.1 event payload None
               (Some (py_slice_to 2000 msg)) 1 None None).
Proof.
  intros [Hpost Hdb] o. subst o.
  destruct (_deliver_run E webhook event payload w)
    as (_ & [(exc & Ho & _)
            |(d & Ho & Hid & He & Hp & Hc & Hn & [(_ & Hr & Ht & _)|(Ha & _)])]).
  - by destruct (Hpost _ _ _ Ho).
  - destruct (_deliver E webhook event payload w) as [r w'] eqn:Hrun. simpl in *.
    exists (uuid4 (webhook_deliveries w)), d, w'. split_and!; try done.
    + by rewrite Hr.
    + apply uuid4_fresh.
    + by eapply records_outcome_first_attempt.
    + intros msg Hmsg. rewrite Hmsg in Ho. destruct Ho as (Hs & Hb & Hda).
      destruct d. simpl in *. by subst.
  - rewrite Hdb in Ha. done.
Qed.

(** [fire_webhook] makes one delivery attempt for each webhook of the
    project that is active and whose event list holds the event name or
    the wildcard, in the order of the selection, and for no other
    webhook; each attempt is recorded in a row of the table, which gains
    these rows and no other. *)
Lemma fire_webhook_well_behaved (E : Env) (project_id : uuid) (event : string)
    (payload : json) (w : World) :
  well_behaved E →
  ∃ ds w',
    fire_webhook E project_id event payload w = (Ok ds, w')
    ∧ Forall2 (fun wh d =>
                 dl_webhook_id d.2 = wh.1 ∧ first_attempt_row d.2
                 ∧ webhook_deliveries w' !! d.1 = Some d.2
                 ∧ ∃ n, records_outcome (post E n (request_of E wh.2 event payload)) d.2)
        (matching_webhooks project_id event w) ds
    ∧ NoDup ds.*1
    ∧ (∀ id, id ∈ ds.*1 → webhook_deliveries w !! id = None)
    ∧ (∀ id, id ∉ ds.*1 → webhook_deliveries w' !! id = webhook_deliveries w !! id).
Proof.
  intros HE. rewrite fire_webhook_unfold.
  destruct (for_each_deliver_returns E event payload
              (matching_webhooks project_id event w) w HE) as (ds & Hds).
  destruct (for_each_deliver E event payload (matching_webhooks project_id event w) w)
    as (_ & _ & Hok).
  destruct (for_each _ _ w) as [r w'] eqn:Hrun. simpl in *. subst r.
  destruct (Hok ds eq_refl) as (Hall & Hnd & Hfresh & Hnew & Hold).
  exists ds, w'. split_and!; try done.
  assert (∀ d, d ∈ ds → webhook_deliveries w' !! d.1 = Some d.2) as Hin.
  { intros [id d] Hd. by apply Hnew. }
  clear -Hall Hin. induction Hall as [|wh d whs ds (Hid & Hc & n & Ho) _ IH]; constructor.
  - split_and!; [done| | |by exists n].
    + by eapply records_outcome_first_attempt.
    + apply Hin. left.
  - apply IH. intros d' Hd'. apply Hin. by right.
Qed.

(** [retry_failed_deliveries] attempts exactly the rows with
    [delivered_at] unset and [attempt_count] below 3 whose parent webhook
    exists and is active: the [attempt_count] of each of them goes up by
    exactly 1, the row recording the outcome of the POST; every other row
    is left as it was; no row is added or removed.  The number returned
    counts the rows that got their 2xx response in this sweep. *)
Lemma retry_sweep_well_behaved (E : Env) (w : World) :
  well_behaved E →
  ∃ n w',
    retry_failed_deliveries E w = (Ok n, w')
    ∧ (∀ k d, webhook_deliveries w !! k = Some d → attempted w d →
         ∃ d', webhook_deliveries w' !! k = Some d'
               ∧ dl_attempt_count d' = dl_attempt_count d + 1
               ∧ ∃ h i, webhooks w !! dl_webhook_id d = Some h
                        ∧ let o := post E i (request_of E h (dl_event d) (dl_payload d)) in
                          records_retry o d d'
                          ∧ (delivered d' ↔ outcome_2xx o = true))
    ∧ (∀ k d, webhook_deliveries w !! k = Some d → ¬ attempted w d →
         webhook_deliveries w' !! k = Some d)
    ∧ (∀ k d, webhook_deliveries w !! k = Some d →
         delivered d ∨ 3 ≤ dl_attempt_count d →
         webhook_deliveries w' !! k = Some d)
    ∧ (∀ k, webhook_deliveries w !! k = None → webhook_deliveries w' !! k = None)
    ∧ n = Z.of_nat
            (length (List.filter (became_delivered (webhook_deliveries w'))
                       (map_to_list (webhook_deliveries w)))).
Proof.
  intros HE. destruct (retry_sweep_returns E w HE) as (n & Hn).
  destruct (retry_sweep_run E w)
    as [[(e & He) _]|(n' & Hn' & _ & Hatt & Hkeep & Hnone & Hcount)]; [congruence|].
  destruct (retry_failed_deliveries E w) as [r w'] eqn:Hrun. simpl in *. subst r.
  injection Hn' as <-.
  exists n, w'. split_and!; [done| |done| |done|done].
  - intros k d Hk [Hr Hp].
    destruct (Hatt k d Hk (conj Hr Hp)) as (d' & Hd' & _ & h & i & Hh & Hrec).
    exists d'. split_and!; [done|by destruct Hrec|].
    exists h, i. split; [done|]. simpl. split; [done|].
    destruct Hrec as (_ & _ & _ & _ & Hdel & _). destruct Hr as [Hund _].
    destruct (outcome_2xx _); [done|]. unfold delivered. rewrite Hdel, Hund.
    split; [by intros [? [=]]|done].
  - intros k d Hk Hor. apply Hkeep; [done|]. intros [[Hund Hlt] _].
    destruct Hor as [[t Ht]|Hge]; [congruence|lia].
Qed.

(** With no matching webhook [fire_webhook] returns the empty list,
    sends nothing and writes nothing, in every environment. *)
Lemma fire_webhook_no_match (E : Env) (project_id : uuid) (event : string)
    (payload : json) (w : World) :
  (∀ id h, webhooks w !! id = Some h → ¬ fires project_id event h) →
  fire_webhook E project_id event payload w = (Ok [], w).
Proof.
  intros Hnone. rewrite fire_webhook_unfold.
  destruct (matching_webhooks project_id event w) as [|[id h] whs] eqn:Hm; [done|].
  assert ((id, h) ∈ matching_webhooks project_id event w) as Hin by (rewrite Hm; left).
  apply elem_of_matching_webhooks in Hin as [Hh Hf]. by destruct (Hnone id h Hh).
Qed.

(** *** Where the delivery engine fails *)

(** C2. A delivery attempt does not always leave a row.  The endpoint
    of webhook 50 answers the POST, with status 200 and a body that holds
    U+0000; the row that records the answer is refused by the database,
    [_deliver] raises at its commit, which is outside the [try], and the
    table of deliveries is as it was.  The test path does the same. *)
Theorem delivery_attempt_without_row :
  let webhook :=
    (50%N, mkWebhook 20%N "https://nul.test/hook" "s1" ["*"] true None None) in
  let r := _deliver hostile_env webhook "memory.created" JNull nul_world in
  let r' := test_webhook hostile_env 50%N nul_world in
  webhooks nul_world !! 50%N = Some webhook.2
  ∧ post hostile_env (ticks nul_world)
      (request_of hostile_env webhook.2 "memory.created" JNull)
    = Answers (mkResponse 200 (String "000" "ok"))
  ∧ r.1 = Raise DBAPIError
  ∧ webhook_deliveries r.2 = webhook_deliveries nul_world
  ∧ r'.1 = Raise DBAPIError
  ∧ webhook_deliveries r'.2 = webhook_deliveries nul_world.
Proof. cbv zeta. split_and!; vm_compute; reflexivity. Qed.

(** C3. [fire_webhook] does not always return.  With a webhook whose
    stored url has a host name that [idna] refuses, the POST raises
    [InvalidCodepoint], which the [except httpx.HTTPError] clause does not
    catch; with a webhook whose endpoint answers with a body that holds
    U+0000, the commit of the row raises.  In both cases [fire_webhook]
    raises to its caller, and no failed attempt is recorded. *)
Theorem fire_webhook_raises :
  let r := fire_webhook hostile_env 20%N "memory.created" JNull idna_world in
  let r' := fire_webhook hostile_env 20%N "memory.created" JNull nul_world in
  r.1 = Raise (OtherException "InvalidCodepoint")
  ∧ webhook_deliveries r.2 = webhook_deliveries idna_world
  ∧ r'.1 = Raise DBAPIError
  ∧ webhook_deliveries r'.2 = webhook_deliveries nul_world.
Proof. cbv zeta. split_and!; vm_compute; reflexivity. Qed.

(** C9. [fire_webhook] does not attempt every matching webhook.  The
    webhooks 50 and 51 match the event, in this order; the delivery to 50
    raises at its commit, and the loop ends there: webhook 51 gets no POST
    (of the three calls to the outside, one is the POST to 50 and two read
    the clock), no delivery row and no [last_triggered_at]. *)
Theorem fire_webhook_stops_at_failure :
  let r := fire_webhook hostile_env 20%N "memory.created" JNull nul_world in
  (matching_webhooks 20%N "memory.created" nul_world).*1 = [50%N; 51%N]
  ∧ r.1 = Raise DBAPIError
  ∧ ticks r.2 = 3%nat
  ∧ webhook_deliveries r.2 = webhook_deliveries nul_world
  ∧ webhooks r.2 !! 51%N
    = Some (mkWebhook 20%N "https://down.test/hook" "s2" ["memory.created"] true
              None None).
Proof. cbv zeta. split_and!; vm_compute; reflexivity. Qed.

(** C1. A sweep does not always count its attempts.  The sweep selects
    the rows 60, 64 and 61.  It sends the POST of row 60, which fails in
    transport, skips row 64, whose webhook is inactive, and sends the POST
    of row 61, whose answer holds U+0000: the one commit, after the loop,
    raises, and with it the sweep; row 60 is left with the
    [attempt_count] it had, 1, although its POST was sent, and row 61 with
    2.  When the POST of row 61 raises [InvalidCodepoint] the sweep raises
    in the loop, with the same loss. *)
Theorem retry_sweep_loses_attempts :
  let r := retry_failed_deliveries hostile_env nul_world in
  let r' := retry_failed_deliveries hostile_env idna_world in
  (select_where retry_query (webhook_deliveries nul_world)).*1 = [60%N; 64%N; 61%N]
  ∧ r.1 = Raise DBAPIError
  ∧ ticks r.2 = 5%nat
  ∧ webhook_deliveries r.2 = webhook_deliveries nul_world
  ∧ dl_attempt_count <$> webhook_deliveries r.2 !! 60%N = Some 1
  ∧ dl_attempt_count <$> webhook_deliveries r.2 !! 61%N = Some 2
  ∧ r'.1 = Raise (OtherException "InvalidCodepoint")
  ∧ webhook_deliveries r'.2 = webhook_deliveries idna_world
  ∧ dl_attempt_count <$> webhook_deliveries r'.2 !! 60%N = Some 1.
Proof. cbv zeta. split_and!; vm_compute; reflexivity. Qed.
(** ** The properties on a sample session *)

Lemma NoDup_fmap_inj_on {A B} (g : A → B) (l : list A) x y :
  NoDup (g <$> l) → x ∈ l → y ∈ l → g x = g y → x = y.
Proof.
  induction l as [|a l IH]; csimpl; [by intros _ ?%not_elem_of_nil|].
  rewrite NoDup_cons. intros [Ha Hnd] Hx Hy Hg.
  apply elem_of_cons in Hx as [->|Hx]; apply elem_of_cons in Hy as [->|Hy].
  - done.
  - destruct Ha. rewrite Hg. apply list_elem_of_fmap. eauto.
  - destruct Ha. rewrite <- Hg. apply list_elem_of_fmap. eauto.
  - by apply IH.
Qed.

(** A column is unique in a table when the list of its values has no
    repetition, which is checked by computation on a given table. *)
Lemma unique_column {A B} (f : A → B) (t : gmap uuid A) :
  NoDup ((fun kv => f kv.2) <$> map_to_list t) →
  ∀ k1 k2 r1 r2, t !! k1 = Some r1 → t !! k2 = Some r2 → f r1 = f r2 → k1 = k2.
Proof.
  intros Hnd k1 k2 r1 r2 H1%elem_of_map_to_list H2%elem_of_map_to_list Hf.
  assert ((k1, r1) = (k2, r2)) as [= -> _]; [|done].
  by eapply (NoDup_fmap_inj_on (fun kv => f kv.2)).
Qed.

Lemma NoDup_check {B} `{EqDecision B} (l : list B) :
  bool_decide (NoDup l) = true → NoDup l.
Proof. apply bool_decide_eq_true_1. Qed.

Lemma sample_unique_slug : unique_slug sample_world.
Proof.
  unfold unique_slug. apply (unique_column proj_slug). apply NoDup_check. vm_compute. reflexivity.
Qed.

Lemma sample_unique_membership : unique_membership sample_world.
Proof.
  intros k1 k2 m1 m2 H1 H2 Hp Hu.
  eapply (unique_column (fun m => (pm_project_id m, pm_user_id m))); eauto.
  - apply NoDup_check. vm_compute. reflexivity.
  - by rewrite Hp, Hu.
Qed.

Lemma sample_unique_token_hash : unique_token_hash sample_world.
Proof.
  unfold unique_token_hash. apply (unique_column rt_token_hash). apply NoDup_check. vm_compute. reflexivity.
Qed.

Lemma sample_unique_email :
  ∀ k1 k2 u1 u2, users sample_world !! k1 = Some u1 → users sample_world !! k2 = Some u2 →
    user_email u1 = user_email u2 → k1 = k2.
Proof.
  apply (unique_column user_email). apply NoDup_check. vm_compute. reflexivity.
Qed.

(** Bob is a viewer of the sample project: the gate refuses him what an
    admin may do. *)
Lemma require_project_access_outcome_witness :
  unique_slug sample_world ∧ unique_membership sample_world
  ∧ (require_project_access "admin" "demo" (mkRequestState None None) (11%N, bob)
       sample_world).1
    = Raise (HTTPException 403 "Requires at least 'admin' role").
Proof.
  split_and!; [exact sample_unique_slug|exact sample_unique_membership|].
  pose proof (require_project_access_outcome "admin" "demo" (mkRequestState None None)
                (11%N, bob) sample_world sample_unique_slug sample_unique_membership)
    as H.
  cbv zeta in H. destruct H as (_ & H & _).
  destruct (H 20%N sample_project.2) as [_ H'].
  { split_and!; vm_compute; reflexivity. }
  destruct (H' 31%N (mkProjectMember 20%N 11%N "viewer" (Some 10%N))) as [Hlt _].
  { split_and!; vm_compute; reflexivity. }
  apply Hlt. vm_compute. reflexivity.
Defined.

(** The revoked token of the sample session does not redeem, though it
    expires later than the time of the call. *)
Lemma refresh_access_token_valid_only_witness :
  unique_token_hash sample_world
  ∧ utcnow sample_env (ticks sample_world) < 5000
  ∧ (refresh_access_token sample_env "revoked" sample_world).1 = Ok None.
Proof.
  split_and!; [exact sample_unique_token_hash|vm_compute; reflexivity|].
  pose proof (refresh_access_token_valid_only sample_env "revoked" sample_world
                sample_unique_token_hash) as H.
  cbv zeta in H. destruct H as (H & _).
  apply (H 41%N (mkRefreshToken 11%N "sha256:revoked" 5000 (Some 900))).
  - split; vm_compute; reflexivity.
  - discriminate.
Defined.

(** The owner row of the sample project survives the operations aimed at
    it and at others. *)
Lemma owner_row_immutable_witness :
  project_members sample_world !! 30%N = Some (mkProjectMember 20%N 10%N "owner" None)
  ∧ (∃ e, update_member sample_project 10%N "viewer" sample_world = (Raise e, sample_world))
  ∧ project_members
      (run_member_ops [UpdateMember sample_project 10%N "viewer";
                       RemoveMember sample_project 11%N;
                       RemoveMember sample_project 10%N] sample_world) !! 30%N
    = Some (mkProjectMember 20%N 10%N "owner" None).
Proof.
  assert (project_members sample_world !! 30%N
          = Some (mkProjectMember 20%N 10%N "owner" None)) as Hrow
    by (vm_compute; reflexivity).
  pose proof (owner_row_immutable sample_world 30%N _ Hrow eq_refl) as [H1 H2].
  split_and!; [exact Hrow| |].
  - destruct (H1 sample_project "viewer" eq_refl) as [Hu _]. exact Hu.
  - apply H2.
Defined.

(** Carol is added to the sample project under a role that is none of
    the four. *)
Lemma membership_role_persisted_as_given_witness :
  ∃ mid w',
    add_member sample_project "carol@example.test" "superuser" 10%N sample_world
    = (Ok (mid, mkProjectMember 20%N 12%N "superuser" (Some 10%N)), w')
    ∧ project_members sample_world !! mid = None
    ∧ project_members w'
      = <[mid := mkProjectMember 20%N 12%N "superuser" (Some 10%N)]>
          (project_members sample_world).
Proof.
  destruct (membership_role_persisted_as_given "superuser") as [H _].
  apply (H sample_project "carol@example.test" 10%N sample_world 12%N carol).
  - vm_compute; reflexivity.
  - reflexivity.
  - intros k u' Hk He.
    apply (sample_unique_email k 12%N u' carol Hk); [vm_compute; reflexivity|exact He].
  - apply no_membership_row. vm_compute. reflexivity.
Defined.

(** On an empty user table the first registration makes a superadmin,
    the next ones do not. *)
Lemma create_user_superadmin_iff_first_witness :
  ∃ first rest,
    register_all sample_env
      [("alice@example.test", "Alice", "a"); ("bob@example.test", "Bob", "b");
       ("alice@example.test", "Alice again", "c"); ("carol@example.test", "Carol", "c")]
      (mkWorld ∅ ∅ ∅ ∅ ∅ ∅ 0)
    = first :: rest
    ∧ user_is_superadmin first.2 = true
    ∧ Forall (fun u => user_is_superadmin u.2 = false) rest.
Proof.
  pose proof (create_user_superadmin_iff_first sample_env "alice@example.test" "Alice" "a"
                (mkWorld ∅ ∅ ∅ ∅ ∅ ∅ 0)) as H.
  cbv zeta in H. destruct H as (_ & _ & H).
  apply H. reflexivity.
Defined.

(** * Further properties of the service layer *)

(** A property of the rows, checked on the list of a table. *)
Lemma table_forall {A} (P : A → Prop) `{∀ a, Decision (P a)} (t : gmap uuid A) :
  bool_decide (Forall (fun kv => P kv.2) (map_to_list t)) = true →
  ∀ k r, t !! k = Some r → P r.
Proof.
  intros Hall%bool_decide_eq_true k r Hk.
  rewrite Forall_forall in Hall. by apply (Hall (k, r)), elem_of_map_to_list.
Qed.

(** ** Roles *)

Lemma ROLE_HIERARCHY_lookup (role : string) (z : Z) :
  ROLE_HIERARCHY !! role = Some z → ∃ r : Role, role = role_name r ∧ z = rank r.
Proof.
  unfold ROLE_HIERARCHY. simpl.
  rewrite !lookup_insert_Some, lookup_empty.
  intros [[<- <-]|[_ [[<- <-]|[_ [[<- <-]|[_ [[<- <-]|[_ ?]]]]]]]]; [| | | |done].
  - by exists owner.
  - by exists admin.
  - by exists member.
  - by exists viewer.
Qed.

Lemma role_rank_cases (role : string) :
  (ROLE_HIERARCHY !! role = None ∧ role_rank role = 0)
  ∨ ∃ r : Role, role = role_name r ∧ role_rank role = rank r.
Proof.
  unfold role_rank. destruct (ROLE_HIERARCHY !! role) as [z|] eqn:Hz; [right|by left].
  apply ROLE_HIERARCHY_lookup in Hz as (r & -> & ->). by exists r.
Qed.

Lemma rank_pos (r : Role) : 1 ≤ rank r ≤ 4.
Proof. destruct r; simpl; lia. Qed.

Lemma role_rank_nonneg (role : string) : 0 ≤ role_rank role ≤ 4.
Proof.
  destruct (role_rank_cases role) as [[_ ->]|(r & _ & ->)]; [lia|].
  pose proof (rank_pos r). lia.
Qed.

Lemma not_a_role_rank (role : string) :
  (∀ r : Role, role ≠ role_name r) → role_rank role = 0.
Proof.
  intros Hno. destruct (role_rank_cases role) as [[_ ->]|(r & Hr & _)]; [done|].
  by destruct (Hno r).
Qed.

(** X1. [check_role_level] orders all role strings, valid or not, by a
    total preorder: every role meets its own level, a role that meets a
    level meets every level below it, and of two roles one meets the
    level of the other. *)
Theorem check_role_level_preorder (a b c : string) :
  check_role_level a a = true
  ∧ (check_role_level a b = true → check_role_level b c = true →
       check_role_level a c = true)
  ∧ (check_role_level a b = true ∨ check_role_level b a = true).
Proof.
  unfold check_role_level. rewrite !Z.leb_le. lia.
Qed.

(** X2. A role string outside the four names has rank 0: as the required
    level it is met by every role, and as a user's role it meets none of
    the four valid levels. *)
Theorem check_role_level_unknown (role : string) :
  (∀ r : Role, role ≠ role_name r) →
  (∀ user_role, check_role_level user_role role = true)
  ∧ (∀ r : Role, check_role_level role (role_name r) = false).
Proof.
  intros Hno. pose proof (not_a_role_rank role Hno) as H0.
  unfold check_role_level. rewrite H0. split.
  - intros u. apply Z.leb_le. pose proof (role_rank_nonneg u). lia.
  - intros r. rewrite role_rank_valid. apply Z.leb_gt. pose proof (rank_pos r). lia.
Qed.

Lemma check_role_level_unknown_witness :
  (∀ r : Role, "superuser" ≠ role_name r)
  ∧ check_role_level "viewer" "superuser" = true
  ∧ check_role_level "superuser" "viewer" = false.
Proof.
  assert (∀ r : Role, "superuser" ≠ role_name r) as Hno by (by intros []).
  destruct (check_role_level_unknown "superuser" Hno) as [H1 H2].
  split_and!; [exact Hno|apply H1|apply (H2 viewer)].
Defined.

(** ** Members *)

Lemma require_project_access_member min_role slug request (user : uuid * User) w
    pid p mid m :
  unique_slug w → unique_membership w →
  live_project w slug pid p → membership_row w pid user.1 mid m →
  require_project_access min_role slug request user w
  = (if check_role_level (pm_role m) min_role
     then Ok (mkRequestState (Some pid) (Some user.1), ((pid, p), (mid, m)))
     else Raise (HTTPException 403 ("Requires at least '" +:+ min_role +:+ "' role")),
     w).
Proof.
  intros Hs Hm (Hp & Hslug & Harch) (Hr & Hrp & Hru).
  unfold require_project_access. run_m.
  rewrite (select_where_one (project_query slug) (projects w) pid p).
  - simpl. rewrite (select_where_one (member_query pid user.1) (project_members w) mid m).
    + simpl. by destruct (check_role_level (pm_role m) min_role).
    + intros k' r' Hk' [Hp' Hu']%member_query_true. eapply Hm; eauto; congruence.
    + done.
    + by apply member_query_true.
  - intros k' p' Hk' [Hs' _]%project_query_true. eapply Hs; eauto. congruence.
  - done.
  - by apply project_query_true.
Qed.

Lemma require_project_access_nonmember min_role slug request (user : uuid * User) w pid p :
  unique_slug w → live_project w slug pid p →
  (∀ mid m, ¬ membership_row w pid user.1 mid m) →
  require_project_access min_role slug request user w
  = (Raise (HTTPException 403 "Not a project member"), w).
Proof.
  intros Hs (Hp & Hslug & Harch) Hnone.
  unfold require_project_access. run_m.
  rewrite (select_where_one (project_query slug) (projects w) pid p).
  - simpl. by rewrite (proj2 (no_membership_row w pid user.1) Hnone).
  - intros k' p' Hk' [Hs' _]%project_query_true. eapply Hs; eauto. congruence.
  - done.
  - by apply project_query_true.
Qed.

Lemma require_project_access_no_project min_role slug request (user : uuid * User) w :
  (∀ pid p, ¬ live_project w slug pid p) →
  require_project_access min_role slug request user w
  = (Raise (HTTPException 404 "Project not found"), w).
Proof.
  intros Hnone. unfold require_project_access. run_m.
  by rewrite (proj2 (no_live_project w slug) Hnone).
Qed.

(** What [add_member] does, by the answers of its two queries. *)
Lemma add_member_cases (project : uuid * Project) email role invited_by w :
  (∃ e, add_member project email role invited_by w = (Raise e, w))
  ∨ ∃ uid u,
      users w !! uid = Some u ∧ user_email u = email
      ∧ (∀ mid m, ¬ membership_row w project.1 uid mid m)
      ∧ add_member project email role invited_by w
        = (Ok (uuid4 (project_members w),
               mkProjectMember project.1 uid role (Some invited_by)),
           set_project_members
             (insert (uuid4 (project_members w))
                     (mkProjectMember project.1 uid role (Some invited_by))) w).
Proof.
  unfold add_member. run_m.
  destruct (select_where _ (users w)) as [|[uid u] [|x us]] eqn:Hus; simpl; [eauto| |eauto].
  assert ((uid, u) ∈ select_where (fun u => bool_decide (user_email u = email)) (users w))
    as [Hu He%bool_decide_eq_true]%elem_of_select_where by (rewrite Hus; left).
  destruct (select_where (member_query project.1 uid) (project_members w))
    as [|y [|z ms]] eqn:Hms; simpl; [|eauto..].
  right. exists uid, u. split_and!; [done..| |done].
  by apply no_membership_row.
Qed.

Lemma unique_membership_insert w mid row :
  unique_membership w →
  (∀ k m, project_members w !! k = Some m → k ≠ mid →
          ¬ (pm_project_id m = pm_project_id row ∧ pm_user_id m = pm_user_id row)) →
  unique_membership (set_project_members (insert mid row) w).
Proof.
  intros Hu Hnew k1 k2 m1 m2. simpl.
  rewrite !lookup_insert_Some.
  intros [[<- <-]|[Hne1 H1]] [[<- <-]|[Hne2 H2]] Hp Hus; [done| | |].
  - destruct (Hnew k2 m2 H2); [done|]. split; congruence.
  - destruct (Hnew k1 m1 H1); [done|]. split; congruence.
  - by eapply Hu.
Qed.

Lemma unique_membership_delete w mid :
  unique_membership w → unique_membership (set_project_members (delete mid) w).
Proof.
  intros Hu k1 k2 m1 m2. simpl. rewrite !lookup_delete_Some.
  intros [_ H1] [_ H2]. by eapply Hu.
Qed.

Lemma unique_membership_step op w :
  unique_membership w → unique_membership (run_membership_op op w).
Proof.
  intros Hu. destruct op as [project email role invited_by|[project user_id role|project user_id]];
    simpl.
  - destruct (add_member_cases project email role invited_by w)
      as [[e ->]|(uid & u & _ & _ & Hnone & ->)]; [done|]. simpl.
    apply unique_membership_insert; [done|]. simpl.
    intros k m Hk _ [Hp Hus]. by apply (Hnone k m).
  - destruct (update_member_cases project user_id role w)
      as [(e & -> & _)|(k & r & Hq & _ & ->)]; [done|]. simpl.
    assert (project_members w !! k = Some r) as Hk.
    { eapply member_rows_found. rewrite Hq. left. }
    apply unique_membership_insert; [done|]. simpl.
    intros k' m Hk' Hne [Hp Hus]. apply Hne. by eapply Hu.
  - destruct (remove_member_cases project user_id w)
      as [(e & -> & _)|(k & r & _ & _ & ->)]; [done|]. simpl.
    by apply unique_membership_delete.
Qed.

(** X3. [add_member] refuses an address that no user has with 404 and a
    user who is a member of the project already with 409, and in both
    cases writes nothing. *)
Theorem add_member_rejections
    (project : uuid * Project) (email role : string) (invited_by : uuid) (w : World) :
  ((∀ k u, users w !! k = Some u → user_email u ≠ email) →
     add_member project email role invited_by w
     = (Raise (HTTPException 404 "User not found"), w))
  ∧ (∀ uid u mid m,
       unique_email w → unique_membership w →
       users w !! uid = Some u → user_email u = email →
       membership_row w project.1 uid mid m →
       add_member project email role invited_by w
       = (Raise (HTTPException 409 "User is already a member"), w)).
Proof.
  split.
  - intros Hnone. unfold add_member. run_m.
    rewrite (proj2 (select_where_nil _ (users w))); [done|].
    intros k u Hk. apply bool_decide_eq_false. eauto.
  - intros uid u mid m He Hm Hu Hue (Hr & Hp & Hus). unfold add_member. run_m.
    rewrite (select_where_one _ (users w) uid u).
    + simpl. rewrite (select_where_one (member_query project.1 uid) (project_members w) mid m).
      * done.
      * intros k' r' Hk' [Hp' Hu']%member_query_true. eapply Hm; eauto; congruence.
      * done.
      * by apply member_query_true.
    + intros k' u' Hk' Hq%bool_decide_eq_true. eapply He; eauto. congruence.
    + done.
    + by apply bool_decide_eq_true.
Qed.

Lemma add_member_rejections_witness :
  add_member sample_project "nobody@example.test" "member" 10%N sample_world
  = (Raise (HTTPException 404 "User not found"), sample_world)
  ∧ add_member sample_project "bob@example.test" "admin" 10%N sample_world
    = (Raise (HTTPException 409 "User is already a member"), sample_world).
Proof.
  split.
  - apply (proj1 (add_member_rejections sample_project "nobody@example.test" "member"
                    10%N sample_world)).
    refine (table_forall (fun u => user_email u ≠ "nobody@example.test") _ _).
    by vm_compute.
  - apply (proj2 (add_member_rejections sample_project "bob@example.test" "admin"
                    10%N sample_world)
             11%N bob 31%N (mkProjectMember 20%N 11%N "viewer" (Some 10%N))).
    + exact sample_unique_email.
    + exact sample_unique_membership.
    + vm_compute. reflexivity.
    + reflexivity.
    + split_and!; vm_compute; reflexivity.
Defined.

(** X4. The member operations keep the membership table free of
    duplicates: when each (project, user) pair has at most one row, it has
    at most one row after every sequence of [add_member], [update_member]
    and [remove_member] calls, whether they succeed or fail. *)
Theorem unique_membership_kept (ops : list membership_op) (w : World) :
  unique_membership w → unique_membership (run_membership_ops ops w).
Proof.
  revert w. induction ops as [|op ops IH]; intros w Hu; simpl; [done|].
  apply IH. by apply unique_membership_step.
Qed.

Lemma unique_membership_kept_witness :
  unique_membership
    (run_membership_ops
       [AddMember sample_project "carol@example.test" "member" 10%N;
        AddMember sample_project "carol@example.test" "admin" 10%N;
        ChangeMember (UpdateMember sample_project 11%N "admin");
        ChangeMember (RemoveMember sample_project 11%N)]
       sample_world).
Proof.
  exact (unique_membership_kept _ sample_world sample_unique_membership).
Defined.

(** X5. A user added to a project passes the gate of that project exactly
    at the levels that the role given to [add_member] meets: right after
    the call [require_project_access] returns the project and the new row
    when [check_role_level role min_role] holds, and fails with 403
    otherwise. *)
Theorem add_member_then_access
    (min_role slug email role : string) (invited_by pid uid : uuid) (p : Project)
    (u : User) (request : RequestState) (w : World) :
  unique_slug w → unique_membership w → unique_email w →
  live_project w slug pid p →
  users w !! uid = Some u → user_email u = email →
  (∀ mid m, ¬ membership_row w pid uid mid m) →
  let w1 := (add_member (pid, p) email role invited_by w).2 in
  let row := mkProjectMember pid uid role (Some invited_by) in
  (add_member (pid, p) email role invited_by w).1 = Ok (uuid4 (project_members w), row)
  ∧ (require_project_access min_role slug request (uid, u) w1).1
    = if check_role_level role min_role
      then Ok (mkRequestState (Some pid) (Some uid),
               ((pid, p), (uuid4 (project_members w), row)))
      else Raise (HTTPException 403 ("Requires at least '" +:+ min_role +:+ "' role")).
Proof.
  intros Hs Hm He Hp Hu Hue Hnone w1 row. subst w1.
  rewrite (add_member_new (pid, p) email role invited_by w uid u); [|done..| |done].
  2:{ intros k u' Hk Hq. eapply He; eauto. congruence. }
  simpl. split; [done|].
  rewrite (require_project_access_member min_role slug request (uid, u) _ pid p
             (uuid4 (project_members w)) row); [done| | | |].
  - exact Hs.
  - apply unique_membership_insert; [done|]. simpl.
    intros k m Hk _ [Hkp Hku]. by apply (Hnone k m).
  - exact Hp.
  - split_and!; [|done..]. simpl. apply lookup_insert_eq.
Qed.

Lemma add_member_then_access_witness :
  (add_member sample_project "carol@example.test" "member" 10%N sample_world).1
  = Ok (uuid4 (project_members sample_world),
        mkProjectMember 20%N 12%N "member" (Some 10%N))
  ∧ (require_project_access "admin" "demo" (mkRequestState None None) (12%N, carol)
       (add_member sample_project "carol@example.test" "member" 10%N sample_world).2).1
    = Raise (HTTPException 403 "Requires at least 'admin' role").
Proof.
  apply (add_member_then_access "admin" "demo" "carol@example.test" "member" 10%N 20%N 12%N
           sample_project.2 carol (mkRequestState None None) sample_world).
  - exact sample_unique_slug.
  - exact sample_unique_membership.
  - exact sample_unique_email.
  - split_and!; vm_compute; reflexivity.
  - vm_compute; reflexivity.
  - reflexivity.
  - apply no_membership_row. vm_compute. reflexivity.
Defined.

(** X6. A member removed from a project is refused at its gate: after a
    [remove_member] on a row whose role is not 'owner', which returns
    [True], [require_project_access] fails for that user with 403 'Not a
    project member', and every other membership row is as it was. *)
Theorem remove_member_then_access
    (min_role slug : string) (pid uid mid : uuid) (p : Project) (u : User)
    (m : ProjectMember) (request : RequestState) (w : World) :
  unique_slug w → unique_membership w →
  live_project w slug pid p → membership_row w pid uid mid m →
  pm_role m ≠ "owner" →
  let w1 := (remove_member (pid, p) uid w).2 in
  (remove_member (pid, p) uid w).1 = Ok true
  ∧ (require_project_access min_role slug request (uid, u) w1).1
    = Raise (HTTPException 403 "Not a project member")
  ∧ (∀ k, k ≠ mid → project_members w1 !! k = project_members w !! k).
Proof.
  intros Hs Hm Hp (Hr & Hrp & Hru) Hno w1. subst w1.
  assert (remove_member (pid, p) uid w = (Ok true, set_project_members (delete mid) w))
    as ->.
  { unfold remove_member. run_m.
    rewrite (select_where_one (member_query pid uid) (project_members w) mid m).
    - simpl. by rewrite bool_decide_eq_false_2.
    - intros k' r' Hk' [Hp' Hu']%member_query_true. eapply Hm; eauto; congruence.
    - done.
    - by apply member_query_true. }
  simpl. split_and!; [done| |].
  - rewrite (require_project_access_nonmember min_role slug request (uid, u) _ pid p);
      [done|exact Hs|exact Hp|].
    intros k m' (Hk & Hkp & Hku). simpl in Hk.
    apply lookup_delete_Some in Hk as [Hne Hk]. apply Hne.
    simpl in *. apply (Hm mid k m m' Hr Hk); congruence.
  - intros k Hne. by rewrite lookup_delete_ne.
Qed.

Lemma remove_member_then_access_witness :
  (remove_member sample_project 11%N sample_world).1 = Ok true
  ∧ (require_project_access "viewer" "demo" (mkRequestState None None) (11%N, bob)
       (remove_member sample_project 11%N sample_world).2).1
    = Raise (HTTPException 403 "Not a project member")
  ∧ (∀ k, k ≠ 31%N →
       project_members (remove_member sample_project 11%N sample_world).2 !! k
       = project_members sample_world !! k).
Proof.
  apply (remove_member_then_access "viewer" "demo" 20%N 11%N 31%N sample_project.2 bob
           (mkProjectMember 20%N 11%N "viewer" (Some 10%N)) (mkRequestState None None)
           sample_world).
  - exact sample_unique_slug.
  - exact sample_unique_membership.
  - split_and!; vm_compute; reflexivity.
  - split_and!; vm_compute; reflexivity.
  - discriminate.
Defined.

(** ** Sessions *)

Lemma revoke_query_true h rt :
  revoke_query h rt = true ↔ rt_token_hash rt = h ∧ rt_revoked_at rt = None.
Proof.
  unfold revoke_query. rewrite andb_true_iff, !bool_decide_eq_true. reflexivity.
Qed.

(** What [revoke_refresh_token] does, by the answer of its query. *)
Lemma revoke_refresh_token_cases E refresh_token w :
  let q := select_where (revoke_query (_hash_token E refresh_token)) (refresh_tokens w) in
  (q = [] ∧ revoke_refresh_token E refresh_token w = (Ok false, w))
  ∨ (∃ k rt, q = [(k, rt)]
       ∧ revoke_refresh_token E refresh_token w
         = (Ok true,
            set_refresh_tokens
              (insert k (set_rt_revoked_at (Some (utcnow E (ticks w))) rt))
              (set_ticks S w)))
  ∨ ((2 ≤ length q)%nat
     ∧ revoke_refresh_token E refresh_token w = (Raise MultipleResultsFound, w)).
Proof.
  intros q. unfold revoke_refresh_token, datetime_now. run_m. fold q.
  destruct q as [|[k rt] [|x q]]; simpl.
  - by left.
  - right. left. eauto.
  - right. right. split; [lia|done].
Qed.

Lemma refresh_access_token_world E refresh_token w :
  same_tables w (refresh_access_token E refresh_token w).2
  ∧ (ticks w < ticks (refresh_access_token E refresh_token w).2)%nat.
Proof.
  unfold refresh_access_token, create_access_token, datetime_now, same_tables. run_m.
  destruct (select_where _ (refresh_tokens w)) as [|[k rt] [|x q]]; simpl;
    split_and!; try done; lia.
Qed.

(** A live stored token redeems, and the call writes nothing. *)
Lemma refresh_access_token_live E refresh_token w k rt :
  (∀ k' rt', refresh_tokens w !! k' = Some rt' →
             rt_token_hash rt' = _hash_token E refresh_token → k' = k) →
  stored_token E w refresh_token k rt →
  rt_revoked_at rt = None → utcnow E (ticks w) < rt_expires_at rt →
  refresh_access_token E refresh_token w
  = (Ok (Some (jwt_encode E (rt_user_id rt)
                 (utcnow E (S (ticks w))
                  + timedelta_minutes (ACCESS_TOKEN_EXPIRE_MINUTES E)))),
     set_ticks S (set_ticks S w)).
Proof.
  intros Hu [Hk Hh] Hrev Hexp.
  unfold refresh_access_token, create_access_token, datetime_now. run_m.
  rewrite (select_where_one _ (refresh_tokens w) k rt); [done| |done|].
  - intros k' rt' Hk' (Hh' & _)%token_query_true. by eapply Hu.
  - by apply token_query_true.
Qed.

(** X7. Revoking a stored, unrevoked refresh token returns [True] and
    stamps its row, and nothing else; from then on a second revocation
    returns [False] and writes nothing, and the token no longer redeems,
    whatever its expiry. *)
Theorem revoke_refresh_token_once
    (E : Env) (refresh_token : string) (w : World) (k : uuid) (rt : RefreshToken) :
  unique_token_hash w → stored_token E w refresh_token k rt → rt_revoked_at rt = None →
  let w1 := (revoke_refresh_token E refresh_token w).2 in
  (revoke_refresh_token E refresh_token w).1 = Ok true
  ∧ refresh_tokens w1
    = <[k := set_rt_revoked_at (Some (utcnow E (ticks w))) rt]> (refresh_tokens w)
  ∧ revoke_refresh_token E refresh_token w1 = (Ok false, w1)
  ∧ (refresh_access_token E refresh_token w1).1 = Ok None.
Proof.
  intros Hu [Hk Hh] Hrev w1. subst w1.
  assert (select_where (revoke_query (_hash_token E refresh_token)) (refresh_tokens w)
          = [(k, rt)]) as Hq.
  { apply select_where_one; [|done|by apply revoke_query_true].
    intros k' rt' Hk' [Hh' _]%revoke_query_true. eapply Hu; eauto. congruence. }
  destruct (revoke_refresh_token_cases E refresh_token w)
    as [[Hnil _]|[(k' & rt' & Hone & ->)|[Hlen _]]];
    rewrite Hq in *; [done| |simpl in Hlen; lia].
  injection Hone as <- <-. simpl.
  set (w1 := set_refresh_tokens _ _).
  assert (∀ k' rt', refresh_tokens w1 !! k' = Some rt' →
            rt_token_hash rt' = _hash_token E refresh_token →
            rt_revoked_at rt' ≠ None) as Hgone.
  { intros k' rt'. unfold w1. simpl. rewrite lookup_insert_Some.
    intros [[<- <-]|[Hne Hk']] Hh'; [done|].
    destruct Hne. eapply Hu; eauto. congruence. }
  split_and!; [done..| |].
  - destruct (revoke_refresh_token_cases E refresh_token w1)
      as [[_ ->]|[(k' & rt' & Hone & _)|[Hlen _]]]; [done| |].
    + assert ((k', rt') ∈ select_where (revoke_query (_hash_token E refresh_token))
                            (refresh_tokens w1))
        as [Hk' [Hh' Hr']%revoke_query_true]%elem_of_select_where
        by (rewrite Hone; left).
      by destruct (Hgone k' rt').
    + destruct (select_where _ (refresh_tokens w1)) as [|[k' rt'] q] eqn:Hsel;
        [simpl in Hlen; lia|].
      assert ((k', rt') ∈ select_where (revoke_query (_hash_token E refresh_token))
                            (refresh_tokens w1))
        as [Hk' [Hh' Hr']%revoke_query_true]%elem_of_select_where
        by (rewrite Hsel; left).
      by destruct (Hgone k' rt').
  - unfold refresh_access_token, datetime_now. run_m.
    rewrite (proj2 (select_where_nil _ (refresh_tokens w1))); [done|].
    intros k' rt' Hk'.
    destruct (token_query _ _ rt') eqn:Hq'; [|done].
    apply token_query_true in Hq' as (Hh' & Hr' & _). by destruct (Hgone k' rt').
Qed.

Lemma revoke_refresh_token_once_witness :
  (revoke_refresh_token sample_env "live" sample_world).1 = Ok true
  ∧ refresh_tokens (revoke_refresh_token sample_env "live" sample_world).2
    = <[40%N := set_rt_revoked_at (Some (utcnow sample_env (ticks sample_world)))
                  (mkRefreshToken 10%N "sha256:live" 5000 None)]>
        (refresh_tokens sample_world)
  ∧ revoke_refresh_token sample_env "live"
      (revoke_refresh_token sample_env "live" sample_world).2
    = (Ok false, (revoke_refresh_token sample_env "live" sample_world).2)
  ∧ (refresh_access_token sample_env "live"
       (revoke_refresh_token sample_env "live" sample_world).2).1 = Ok None.
Proof.
  apply (revoke_refresh_token_once sample_env "live" sample_world 40%N
           (mkRefreshToken 10%N "sha256:live" 5000 None)).
  - exact sample_unique_token_hash.
  - split; vm_compute; reflexivity.
  - reflexivity.
Defined.

(** X8. A token that has no unrevoked row in the table, because it was
    never issued or because it is revoked already, cannot be revoked:
    [revoke_refresh_token] returns [False] and leaves the session as it
    was. *)
Theorem revoke_refresh_token_nothing (E : Env) (refresh_token : string) (w : World) :
  (∀ k rt, stored_token E w refresh_token k rt → rt_revoked_at rt ≠ None) →
  revoke_refresh_token E refresh_token w = (Ok false, w).
Proof.
  intros Hnone. unfold revoke_refresh_token. run_m.
  rewrite (proj2 (select_where_nil _ (refresh_tokens w))); [done|].
  intros k rt Hk. destruct (revoke_query _ rt) eqn:Hq; [|done].
  apply revoke_query_true in Hq as [Hh Hr]. by destruct (Hnone k rt).
Qed.

Lemma revoke_refresh_token_nothing_witness :
  revoke_refresh_token sample_env "revoked" sample_world = (Ok false, sample_world).
Proof.
  apply revoke_refresh_token_nothing.
  intros k rt [Hk Hh].
  assert (k = 41%N) as ->.
  { eapply (sample_unique_token_hash k 41%N rt); [exact Hk|vm_compute; reflexivity|].
    exact Hh. }
  vm_compute in Hk. injection Hk as <-. discriminate.
Defined.

Lemma create_refresh_token_cases E L user_id w :
  let raw := token_urlsafe L (ticks w) 48 in
  let rt := mkRefreshToken user_id (_hash_token E raw)
              (utcnow E (S (ticks w)) + timedelta_days (REFRESH_TOKEN_EXPIRE_DAYS L)) None in
  let w0 := set_ticks S (set_ticks S w) in
  (select_where (fun r => bool_decide (rt_token_hash r = _hash_token E raw))
     (refresh_tokens w) = []
   ∧ create_refresh_token E L user_id w
     = (Ok raw, set_refresh_tokens (insert (uuid4 (refresh_tokens w)) rt) w0))
  ∨ create_refresh_token E L user_id w = (Raise IntegrityError, w0).
Proof.
  intros raw rt w0.
  unfold create_refresh_token, secrets_token_urlsafe, datetime_now, add_refresh_token.
  run_m. fold raw.
  destruct (select_where _ (refresh_tokens w)) eqn:Hsel; [left|right]; done.
Qed.

(** One operation on the tokens keeps every row, its user, hash and
    expiry, and keeps a revoked row as it is. *)
Lemma token_row_kept_by_op E L op w k rt :
  refresh_tokens w !! k = Some rt →
  ∃ rt', refresh_tokens (run_token_op E L op w) !! k = Some rt'
         ∧ rt_user_id rt' = rt_user_id rt ∧ rt_token_hash rt' = rt_token_hash rt
         ∧ rt_expires_at rt' = rt_expires_at rt
         ∧ (rt_revoked_at rt ≠ None → rt' = rt).
Proof.
  intros Hk. destruct op as [user_id|refresh_token|refresh_token]; simpl.
  - destruct (create_refresh_token_cases E L user_id w) as [[_ ->]| ->]; simpl.
    + exists rt. split_and!; try done. rewrite lookup_insert_ne; [done|].
      intros Heq. pose proof (uuid4_fresh (refresh_tokens w)) as Hf.
      rewrite Heq in Hf. congruence.
    + by exists rt.
  - destruct (refresh_access_token_world E refresh_token w) as [(_ & -> & _) _].
    by exists rt.
  - destruct (revoke_refresh_token_cases E refresh_token w)
      as [[_ ->]|[(k' & rt' & Hone & ->)|[_ ->]]]; simpl; [by exists rt| |by exists rt].
    assert ((k', rt') ∈ select_where (revoke_query (_hash_token E refresh_token))
                          (refresh_tokens w))
      as [Hk' [_ Hr']%revoke_query_true]%elem_of_select_where by (rewrite Hone; left).
    destruct (decide (k' = k)) as [->|Hne].
    + rewrite lookup_insert_eq. eexists. split_and!; try done.
      all: assert (rt' = rt) as -> by congruence; try done.
    + rewrite lookup_insert_ne by done. by exists rt.
Qed.

(** X9. No sequence of token operations (issue, redeem, revoke) removes a
    refresh-token row or changes its user, hash or expiry, and a row that
    is revoked stays exactly as it is, revocation time included:
    revocation is permanent. *)
Theorem token_rows_kept (E : Env) (L : Lib) (ops : list token_op) (w : World)
    (k : uuid) (rt : RefreshToken) :
  refresh_tokens w !! k = Some rt →
  ∃ rt', refresh_tokens (run_token_ops E L ops w) !! k = Some rt'
         ∧ rt_user_id rt' = rt_user_id rt ∧ rt_token_hash rt' = rt_token_hash rt
         ∧ rt_expires_at rt' = rt_expires_at rt
         ∧ (rt_revoked_at rt ≠ None → rt' = rt).
Proof.
  revert w rt. induction ops as [|op ops IH]; intros w rt Hk; simpl.
  { by exists rt. }
  destruct (token_row_kept_by_op E L op w k rt Hk) as (rt1 & Hk1 & Hu1 & Hh1 & He1 & Hr1).
  destruct (IH _ rt1 Hk1) as (rt' & Hk' & Hu & Hh & He & Hr).
  exists rt'. split_and!; [done|congruence..|].
  intros Hrev. pose proof (Hr1 Hrev) as ->. by apply Hr.
Qed.

Lemma token_rows_kept_witness :
  ∃ rt', refresh_tokens
           (run_token_ops sample_env sample_lib
              [RevokeToken "revoked"; CreateToken 12%N; RedeemToken "revoked";
               RevokeToken "live"] sample_world) !! 41%N = Some rt'
         ∧ rt_user_id rt' = 11%N ∧ rt_token_hash rt' = "sha256:revoked"
         ∧ rt_expires_at rt' = 5000
         ∧ (Some 900 ≠ None → rt' = mkRefreshToken 11%N "sha256:revoked" 5000 (Some 900)).
Proof.
  apply (token_rows_kept sample_env sample_lib _ sample_world 41%N
           (mkRefreshToken 11%N "sha256:revoked" 5000 (Some 900))).
  vm_compute. reflexivity.
Defined.

(** X10. A refresh token just issued redeems: when the hash of the new
    raw token is not in the table yet and the clock has not passed the
    expiry, [create_refresh_token] returns the raw token and
    [refresh_access_token] on it returns an access token for the user it
    was issued to. *)
Theorem create_refresh_token_redeems (E : Env) (L : Lib) (user_id : uuid) (w : World) :
  let raw := token_urlsafe L (ticks w) 48 in
  (∀ k rt, refresh_tokens w !! k = Some rt → rt_token_hash rt ≠ _hash_token E raw) →
  utcnow E (S (S (ticks w)))
    < utcnow E (S (ticks w)) + timedelta_days (REFRESH_TOKEN_EXPIRE_DAYS L) →
  let w1 := (create_refresh_token E L user_id w).2 in
  (create_refresh_token E L user_id w).1 = Ok raw
  ∧ (refresh_access_token E raw w1).1
    = Ok (Some (jwt_encode E user_id
                  (utcnow E (S (S (S (ticks w))))
                   + timedelta_minutes (ACCESS_TOKEN_EXPIRE_MINUTES E)))).
Proof.
  intros raw Hnew Hclock w1. subst w1 raw.
  destruct (create_refresh_token_cases E L user_id w) as [[_ ->]|Hr].
  - simpl. split; [done|].
    set (rt := mkRefreshToken _ _ _ _).
    rewrite (refresh_access_token_live E _ _ (uuid4 (refresh_tokens w)) rt); [done| | | |].
    + intros k' rt'. simpl. rewrite lookup_insert_Some.
      intros [[<- _]|[_ Hk']] Hh'; [done|]. by destruct (Hnew k' rt').
    + split; [simpl; apply lookup_insert_eq|done].
    + done.
    + simpl. exact Hclock.
  - exfalso. revert Hr.
    unfold create_refresh_token, secrets_token_urlsafe, datetime_now, add_refresh_token.
    run_m.
    rewrite (proj2 (select_where_nil _ (refresh_tokens w))); [done|].
    intros k rt Hk. apply bool_decide_eq_false. simpl. eauto.
Qed.

Lemma create_refresh_token_redeems_witness :
  (create_refresh_token sample_env sample_lib 12%N sample_world).1 = Ok "-token"
  ∧ (refresh_access_token sample_env "-token"
       (create_refresh_token sample_env sample_lib 12%N sample_world).2).1
    = Ok (Some "jwt").
Proof.
  apply (create_refresh_token_redeems sample_env sample_lib 12%N sample_world).
  - intros k rt Hk Hh.
    assert (bool_decide
              (Forall (fun kv => rt_token_hash kv.2 ≠ "sha256:-token")
                 (map_to_list (refresh_tokens sample_world))) = true) as Hall
      by (vm_compute; reflexivity).
    apply bool_decide_eq_true in Hall.
    rewrite Forall_forall in Hall.
    apply (Hall (k, rt)); [by apply elem_of_map_to_list|exact Hh].
  - vm_compute. reflexivity.
Defined.

(** X11. Redeeming does not use a refresh token up: the call writes to
    no table, and a token that redeems once redeems again for as long as
    the clock has not reached its expiry. *)
Theorem refresh_access_token_repeatable
    (E : Env) (refresh_token : string) (w : World) (k : uuid) (rt : RefreshToken) :
  unique_token_hash w → stored_token E w refresh_token k rt →
  rt_revoked_at rt = None →
  utcnow E (ticks w) < rt_expires_at rt →
  utcnow E (S (S (ticks w))) < rt_expires_at rt →
  let w1 := (refresh_access_token E refresh_token w).2 in
  same_tables w w1
  ∧ (∃ tok, (refresh_access_token E refresh_token w).1 = Ok (Some tok))
  ∧ (∃ tok, (refresh_access_token E refresh_token w1).1 = Ok (Some tok)).
Proof.
  intros Hu [Hk Hh] Hrev Hexp Hexp2 w1. subst w1.
  assert (∀ k' rt', refresh_tokens w !! k' = Some rt' →
            rt_token_hash rt' = _hash_token E refresh_token → k' = k) as Hone.
  { intros k' rt' Hk' Hh'. eapply Hu; eauto. congruence. }
  rewrite (refresh_access_token_live E refresh_token w k rt) by done. simpl.
  split_and!; [done|eauto|].
  rewrite (refresh_access_token_live E refresh_token _ k rt); [eauto|done..].
Qed.

Lemma refresh_access_token_repeatable_witness :
  same_tables sample_world (refresh_access_token sample_env "live" sample_world).2
  ∧ (∃ tok, (refresh_access_token sample_env "live" sample_world).1 = Ok (Some tok))
  ∧ (∃ tok, (refresh_access_token sample_env "live"
               (refresh_access_token sample_env "live" sample_world).2).1
            = Ok (Some tok)).
Proof.
  apply (refresh_access_token_repeatable sample_env "live" sample_world 40%N
           (mkRefreshToken 10%N "sha256:live" 5000 None)).
  - exact sample_unique_token_hash.
  - split; vm_compute; reflexivity.
  - reflexivity.
  - vm_compute. reflexivity.
  - vm_compute. reflexivity.
Defined.

(** X12. With unique addresses [authenticate_user] writes nothing.  It
    returns a user exactly when a user has the address and the password
    verifies against the stored hash; it returns [None] exactly when no
    user has the address or the check answers no; and it raises exactly
    when a user has the address and the check raises, as passlib does
    with [UnknownHashError] on a stored value that it cannot identify as
    a hash, the exception being that of the check.  The [is_active] flag
    plays no part in it. *)
Theorem authenticate_user_outcome (L : Lib) (email password : string) (w : World) :
  unique_email w →
  let r := authenticate_user L email password w in
  r.2 = w
  ∧ (∀ uid u, r.1 = Ok (Some (uid, u)) ↔
       users w !! uid = Some u ∧ user_email u = email
       ∧ pwd_context_verify L password (user_password_hash u) = Verifies true)
  ∧ (r.1 = Ok None ↔
       ∀ uid u, users w !! uid = Some u → user_email u = email →
                pwd_context_verify L password (user_password_hash u) = Verifies false)
  ∧ (∀ e, r.1 = Raise e ↔
       ∃ uid u exc, users w !! uid = Some u ∧ user_email u = email
                    ∧ pwd_context_verify L password (user_password_hash u)
                      = VerifyRaises exc
                    ∧ e = OtherException exc).
Proof.
  intros Hu r. subst r. unfold authenticate_user. run_m.
  destruct (select_where_at_most_one (fun u => bool_decide (user_email u = email)) (users w))
    as [Hnil|(k & u0 & Hk & He%bool_decide_eq_true & Hone)].
  { intros k1 k2 u1 u2 H1 H2 E1%bool_decide_eq_true E2%bool_decide_eq_true.
    eapply Hu; eauto. congruence. }
  - rewrite Hnil. simpl.
    assert (∀ uid u, users w !! uid = Some u → user_email u ≠ email) as Hno.
    { intros uid u Hk. pose proof (proj1 (select_where_nil _ _) Hnil uid u Hk) as Hf.
      by apply bool_decide_eq_false in Hf. }
    split_and!; [done| | |].
    + intros uid u. split; [done|]. intros (Hk & He & _). by destruct (Hno uid u Hk).
    + split; [|done]. intros _ uid u Hk He. by destruct (Hno uid u Hk).
    + intros e. split; [done|]. intros (uid & u & exc & Hk & He & _).
      by destruct (Hno uid u Hk).
  - rewrite Hone. simpl.
    assert (∀ uid u, users w !! uid = Some u → user_email u = email → uid = k ∧ u = u0)
      as Hsame.
    { intros uid u Hk' He'. assert (uid = k) as -> by (eapply Hu; eauto; congruence).
      split; congruence. }
    destruct (pwd_context_verify L password (user_password_hash u0)) as [[|]|exc0] eqn:Hv;
      simpl.
    + split_and!; [done| | |].
      * intros uid u. split.
        -- intros [= <- <-]. done.
        -- intros (Hk' & He' & _). by destruct (Hsame uid u Hk' He') as [-> ->].
      * split; [done|]. intros Hall. specialize (Hall k u0 Hk He). congruence.
      * intros e. split; [done|]. intros (uid & u & exc & Hk' & He' & Hv' & _).
        destruct (Hsame uid u Hk' He') as [-> ->]. congruence.
    + split_and!; [done| | |].
      * intros uid u. split; [done|]. intros (Hk' & He' & Hv').
        destruct (Hsame uid u Hk' He') as [-> ->]. congruence.
      * split; [|done]. intros _ uid u Hk' He'.
        by destruct (Hsame uid u Hk' He') as [-> ->].
      * intros e. split; [done|]. intros (uid & u & exc & Hk' & He' & Hv' & _).
        destruct (Hsame uid u Hk' He') as [-> ->]. congruence.
    + split_and!; [done| | |].
      * intros uid u. split; [done|]. intros (Hk' & He' & Hv').
        destruct (Hsame uid u Hk' He') as [-> ->]. congruence.
      * split; [done|]. intros Hall. specialize (Hall k u0 Hk He). congruence.
      * intros e. split.
        -- intros [= <-]. by exists k, u0, exc0.
        -- intros (uid & u & exc & Hk' & He' & Hv' & ->).
           destruct (Hsame uid u Hk' He') as [-> ->]. congruence.
Qed.

Lemma authenticate_user_outcome_witness :
  unique_email sample_world
  ∧ (authenticate_user sample_lib "bob@example.test" "b" sample_world).1
    = Ok (Some (11%N, bob))
  ∧ (authenticate_user sample_lib "bob@example.test" "wrong" sample_world).1 = Ok None.
Proof.
  split; [exact sample_unique_email|]. split.
  - destruct (authenticate_user_outcome sample_lib "bob@example.test" "b" sample_world
                sample_unique_email) as (_ & H & _).
    apply H. split_and!; vm_compute; reflexivity.
  - vm_compute. reflexivity.
Defined.

(** A stored value that is no hash: the check raises, login or not. *)
Example authenticate_user_unknown_hash :
  (authenticate_user sample_lib "bob@example.test" "b"
     (set_users (insert 11%N (mkUser "bob@example.test" "Bob" "plain" true false))
        sample_world)).1
  = Raise (OtherException "UnknownHashError").
Proof. vm_compute. reflexivity. Qed.

(** ** The registry and the deliveries *)

Lemma same_registry_refl w : same_registry w w.
Proof. by intros id. Qed.

Lemma same_registry_trans w1 w2 w3 :
  same_registry w1 w2 → same_registry w2 w3 → same_registry w1 w3.
Proof. intros H12 H23 id. by rewrite H23, H12. Qed.

Lemma same_registry_lookup w w' id h :
  same_registry w w' → webhooks w !! id = Some h →
  ∃ h', webhooks w' !! id = Some h' ∧ wh_static h' = wh_static h.
Proof.
  intros Hs Hh. specialize (Hs id). rewrite Hh in Hs.
  destruct (webhooks w' !! id) as [h'|]; cbn in Hs; [|discriminate].
  exists h'. split; [done|]. congruence.
Qed.

(** One call of [_deliver]: it raises and leaves the tables as they
    were, or it returns the row that it added under a new key and stamps
    the webhook. *)
Lemma _deliver_step E (webhook : uuid * Webhook) event payload w :
  let r := _deliver E webhook event payload w in
  let id := uuid4 (webhook_deliveries w) in
  (users r.2 = users w ∧ refresh_tokens r.2 = refresh_tokens w
   ∧ projects r.2 = projects w ∧ project_members r.2 = project_members w)
  ∧ (((∃ e, r.1 = Raise e) ∧ webhooks r.2 = webhooks w
      ∧ webhook_deliveries r.2 = webhook_deliveries w)
     ∨ ∃ d t, r.1 = Ok (id, d) ∧ dl_webhook_id d = webhook.1
              ∧ webhook_deliveries r.2 = <[id := d]> (webhook_deliveries w)
              ∧ webhooks r.2
                = <[webhook.1 := set_wh_last (Some t) (dl_status_code d) webhook.2]>
                    (webhooks w)).
Proof.
  intros r id. destruct (_deliver_run E webhook event payload w) as [Hfr Hcase].
  split; [exact Hfr|].
  destruct Hcase as [(exc & _ & Hr & Hw & Hd)
                    |(d & _ & Hid & _ & _ & _ & _
                      & [(_ & Hr & Hd & t & Hw)|(_ & Hr & Hw & Hd)])].
  - left. split; [by eexists|done].
  - right. by exists d, t.
  - left. split; [by eexists|done].
Qed.

Lemma _deliver_same_registry E (webhook : uuid * Webhook) event payload w :
  wh_static <$> webhooks w !! webhook.1 = Some (wh_static webhook.2) →
  same_registry w (_deliver E webhook event payload w).2.
Proof.
  intros Hh.
  destruct (_deliver_step E webhook event payload w)
    as [_ [(_ & Hw & _)|(d & t & _ & _ & _ & Hw)]]; intros id; rewrite Hw; [done|].
  destruct (decide (id = webhook.1)) as [->|Hne].
  - by rewrite lookup_insert_eq, Hh.
  - by rewrite lookup_insert_ne.
Qed.

Lemma _deliver_frame E (webhook : uuid * Webhook) event payload w :
  let w' := (_deliver E webhook event payload w).2 in
  users w' = users w ∧ refresh_tokens w' = refresh_tokens w
  ∧ projects w' = projects w ∧ project_members w' = project_members w.
Proof. exact (proj1 (_deliver_run E webhook event payload w)). Qed.

(** The loop of [fire_webhook] over rows of the table, each listed once:
    it leaves the other webhooks alone, and each of these it leaves alone
    or stamps with the status code of a new delivery row of the webhook;
    when the loop returns, it has stamped every one of them. *)
Lemma for_each_deliver_webhooks E event payload (whs : list (uuid * Webhook)) w :
  NoDup whs.*1 →
  (∀ k h, (k, h) ∈ whs → webhooks w !! k = Some h) →
  let r := for_each (fun wh => _deliver E wh event payload) whs w in
  (∀ id, id ∉ whs.*1 → webhooks r.2 !! id = webhooks w !! id)
  ∧ (∀ k h, (k, h) ∈ whs →
       webhooks r.2 !! k = Some h
       ∨ ∃ t id d, webhook_deliveries w !! id = None
                   ∧ webhook_deliveries r.2 !! id = Some d
                   ∧ dl_webhook_id d = k
                   ∧ webhooks r.2 !! k = Some (set_wh_last (Some t) (dl_status_code d) h))
  ∧ (users r.2 = users w ∧ refresh_tokens r.2 = refresh_tokens w
     ∧ projects r.2 = projects w ∧ project_members r.2 = project_members w)
  ∧ (∀ ds, r.1 = Ok ds →
       Forall2 (fun wh d =>
                  dl_webhook_id d.2 = wh.1
                  ∧ ∃ t, webhooks r.2 !! wh.1
                         = Some (set_wh_last (Some t) (dl_status_code d.2) wh.2))
         whs ds).
Proof.
  revert w. induction whs as [|[k h] whs IH]; intros w Hnd Hin r; subst r.
  { cbn. split; [|split; [|split]]; [done| |done|].
    - by intros k h ?%not_elem_of_nil.
    - intros ds [= <-]. constructor. }
  csimpl in Hnd. apply NoDup_cons in Hnd as [Hk Hnd].
  assert (∀ k' h', (k', h') ∈ whs → k' ≠ k) as Hother.
  { intros k' h' Hin' ->. apply Hk. apply list_elem_of_fmap. by exists (k, h'). }
  rewrite for_each_cons.
  destruct (_deliver_step E (k, h) event payload w)
    as [(Hu1 & Ht1 & Hp1 & Hm1) Hcase].
  pose proof (for_each_deliver E event payload whs
                (_deliver E (k, h) event payload w).2) as (Hkept & _).
  destruct (_deliver E (k, h) event payload w) as [[y|e] w1]; simpl in *.
  - destruct Hcase as [([e He] & _)|(d & t & [= ->] & Hid & Hd1 & Hw1)]; [done|].
    set (id := uuid4 (webhook_deliveries w)) in *.
    destruct (IH w1 Hnd) as (Hout & Hin' & (Hu & Ht & Hp & Hm) & Hall).
    { intros k' h' Hk'. rewrite Hw1, lookup_insert_ne.
      - apply Hin. by right.
      - intros ->. by apply (Hother _ _ Hk'). }
    assert (webhooks (for_each (fun wh => _deliver E wh event payload) whs w1).2 !! k
            = Some (set_wh_last (Some t) (dl_status_code d) h)) as Hstamp.
    { rewrite Hout by done. rewrite Hw1. apply lookup_insert_eq. }
    assert (webhook_deliveries
              (for_each (fun wh => _deliver E wh event payload) whs w1).2 !! id
            = Some d) as Hrow.
    { apply Hkept. rewrite Hd1. apply lookup_insert_eq. }
    destruct (for_each (fun wh => _deliver E wh event payload) whs w1)
      as [[ds|e] w']; simpl in *.
    + split; [|split; [|split]]; [| |split_and!; congruence|].
      * intros id' [Hne Hnin]%not_elem_of_cons. rewrite Hout by done.
        rewrite Hw1. by rewrite lookup_insert_ne.
      * intros k' h' [[= -> ->]|Hk']%elem_of_cons.
        -- right. exists t, id, d. split_and!; [apply uuid4_fresh|done..].
        -- destruct (Hin' k' h' Hk') as [Hsame|(t' & id' & d' & Hf & Hr & Hi & Hs)].
           ++ by left.
           ++ right. exists t', id', d'. split_and!; [|done..].
              rewrite Hd1 in Hf. by apply lookup_insert_None in Hf as [? _].
      * intros ds' [= <-]. constructor; [|by apply Hall].
        simpl. split; [done|]. by exists t.
    + split; [|split; [|split]]; [| |split_and!; congruence|done].
      * intros id' [Hne Hnin]%not_elem_of_cons. rewrite Hout by done.
        rewrite Hw1. by rewrite lookup_insert_ne.
      * intros k' h' [[= -> ->]|Hk']%elem_of_cons.
        -- right. exists t, id, d. split_and!; [apply uuid4_fresh|done..].
        -- destruct (Hin' k' h' Hk') as [Hsame|(t' & id' & d' & Hf & Hr & Hi & Hs)].
           ++ by left.
           ++ right. exists t', id', d'. split_and!; [|done..].
              rewrite Hd1 in Hf. by apply lookup_insert_None in Hf as [? _].
  - destruct Hcase as [(_ & Hw1 & Hd1)|(d & t & [=] & _)].
    split; [|split; [|split]]; [by intros; rewrite Hw1| |done|done].
    intros k' h' Hk'. left. rewrite Hw1. by apply Hin.
Qed.

Lemma matching_webhooks_rows project_id event w k h :
  (k, h) ∈ matching_webhooks project_id event w → webhooks w !! k = Some h.
Proof. by intros [? _]%elem_of_matching_webhooks. Qed.

Lemma wh_static_set_wh_last t c h : wh_static (set_wh_last t c h) = wh_static h.
Proof. reflexivity. Qed.

Lemma fire_webhook_same_registry E project_id event payload w :
  same_registry w (fire_webhook E project_id event payload w).2.
Proof.
  rewrite fire_webhook_unfold.
  destruct (for_each_deliver_webhooks E event payload
              (matching_webhooks project_id event w) w)
    as (Hout & Hin & _).
  { apply NoDup_matching_webhooks. }
  { intros k h. apply matching_webhooks_rows. }
  intros id.
  destruct (decide (id ∈ (matching_webhooks project_id event w).*1)) as [Hm|Hnin].
  - apply list_elem_of_fmap in Hm as ([k h] & -> & Hm). simpl.
    rewrite (matching_webhooks_rows _ _ _ _ _ Hm).
    destruct (Hin k h Hm) as [->|(t & id & d & _ & _ & _ & ->)]; done.
  - by rewrite Hout.
Qed.

Lemma test_webhook_same_registry E webhook_id w :
  same_registry w (test_webhook E webhook_id w).2.
Proof.
  unfold test_webhook, get_webhook. run_m.
  destruct (webhooks w !! webhook_id) as [h|] eqn:Hh; simpl; [|apply same_registry_refl].
  pose proof (_deliver_same_registry E (webhook_id, h) "webhook.test"
                (JDict [("event", JStr "webhook.test");
                        ("webhook_id", JStr (uuid_str E webhook_id))]) w) as Hs.
  simpl in Hs. rewrite Hh in Hs. specialize (Hs eq_refl).
  destruct (_deliver E (webhook_id, h) _ _ w) as [[r|e] w']; simpl in *; done.
Qed.

Lemma wh_static_identity h h' :
  wh_static h' = wh_static h →
  wh_secret h' = wh_secret h ∧ wh_project_id h' = wh_project_id h
  ∧ wh_is_active h' = wh_is_active h.
Proof. unfold wh_static. intros [= ? ? ? ? ?]. done. Qed.

Lemma retry_sweep_same_registry E w :
  same_registry w (webhook_retry_sweep E w).2.
Proof.
  unfold webhook_retry_sweep. exact (proj1 (retry_sweep_tables E w)).
Qed.

(** What [update_webhook] does to an existing webhook. *)
Lemma update_webhook_found webhook_id data w h :
  webhooks w !! webhook_id = Some h →
  ∃ h', update_webhook webhook_id data w
        = (Ok (Some (webhook_id, h')), set_webhooks (insert webhook_id h') w)
        ∧ wh_url h' = default (wh_url h) (uw_url data)
        ∧ wh_events h' = default (wh_events h) (uw_events data)
        ∧ wh_is_active h' = default (wh_is_active h) (uw_is_active data)
        ∧ wh_secret h' = wh_secret h ∧ wh_project_id h' = wh_project_id h
        ∧ wh_last_triggered_at h' = wh_last_triggered_at h
        ∧ wh_last_status_code h' = wh_last_status_code h.
Proof.
  intros Hh. unfold update_webhook, get_webhook. run_m. rewrite Hh. simpl.
  eexists. split; [done|].
  destruct data as [[url|] [events|] [is_active|]]; simpl; done.
Qed.

Lemma update_webhook_missing webhook_id data w :
  webhooks w !! webhook_id = None → update_webhook webhook_id data w = (Ok None, w).
Proof. intros Hh. unfold update_webhook, get_webhook. run_m. by rewrite Hh. Qed.

Lemma webhook_kept_by_op E L op w id h :
  webhooks w !! id = Some h →
  (∃ h', webhooks (run_webhook_op E L op w) !! id = Some h'
         ∧ wh_secret h' = wh_secret h ∧ wh_project_id h' = wh_project_id h)
  ∨ op = DeleteWebhook id.
Proof.
  intros Hh.
  assert (∀ w', same_registry w w' →
            ∃ h', webhooks w' !! id = Some h'
                  ∧ wh_secret h' = wh_secret h ∧ wh_project_id h' = wh_project_id h)
    as Hreg.
  { intros w' Hs. destruct (same_registry_lookup w w' id h Hs Hh) as (h' & Hh' & Hst).
    exists h'. apply wh_static_identity in Hst. tauto. }
  destruct op as [pid data|wid data|wid|pid event payload|wid|]; simpl.
  - left. unfold create_webhook, secrets_token_urlsafe. run_m. exists h.
    rewrite lookup_insert_ne; [done|].
    intros Heq. pose proof (uuid4_fresh (webhooks w)) as Hf. rewrite Heq in Hf. congruence.
  - left. destruct (webhooks w !! wid) as [h0|] eqn:Hw.
    + destruct (update_webhook_found wid data w h0 Hw) as (h' & -> & _ & _ & _ & Hs & Hp & _).
      simpl. destruct (decide (wid = id)) as [->|Hne].
      * rewrite lookup_insert_eq. exists h'. split_and!; [done|congruence..].
      * rewrite lookup_insert_ne by done. by exists h.
    + rewrite (update_webhook_missing wid data w Hw). by exists h.
  - destruct (decide (wid = id)) as [->|Hne]; [by right|left].
    unfold delete_webhook, get_webhook. run_m.
    destruct (webhooks w !! wid) as [h0|]; simpl; [|by exists h].
    rewrite lookup_delete_ne by done. by exists h.
  - left. apply Hreg, fire_webhook_same_registry.
  - left. apply Hreg, test_webhook_same_registry.
  - left. apply Hreg, retry_sweep_same_registry.
Qed.

(** X13. A webhook keeps its secret and its project for as long as it
    exists: after any sequence of registry and delivery operations
    (create, update, delete, fire, test, retry sweep) in which the webhook
    is not deleted, its row is still there with the secret it was created
    with and the project it belongs to. *)
Theorem webhook_identity_kept (E : Env) (L : Lib) (ops : list webhook_op) (w : World)
    (id : uuid) (h : Webhook) :
  webhooks w !! id = Some h →
  (∃ h', webhooks (run_webhook_ops E L ops w) !! id = Some h'
         ∧ wh_secret h' = wh_secret h ∧ wh_project_id h' = wh_project_id h)
  ∨ DeleteWebhook id ∈ ops.
Proof.
  revert w h. induction ops as [|op ops IH]; intros w h Hh; simpl.
  { left. by exists h. }
  destruct (webhook_kept_by_op E L op w id h Hh) as [(h1 & Hh1 & Hs1 & Hp1)| ->].
  - destruct (IH _ h1 Hh1) as [(h' & Hh' & Hs & Hp)|Hdel].
    + left. exists h'. split_and!; [done|congruence..].
    + right. by right.
  - right. left.
Qed.

Lemma webhook_identity_kept_witness :
  (∃ h', webhooks
           (run_webhook_ops sample_env sample_lib
              [UpdateWebhook 50%N (mkUpdateWebhookRequest (Some "https://new.test/hook")
                                     None (Some false));
               FireWebhook 20%N "memory.created" JNull; RetrySweep; DeleteWebhook 51%N]
              sample_world) !! 50%N = Some h'
         ∧ wh_secret h' = "s1" ∧ wh_project_id h' = 20%N)
  ∨ DeleteWebhook 50%N
      ∈ [UpdateWebhook 50%N (mkUpdateWebhookRequest (Some "https://new.test/hook")
                               None (Some false));
         FireWebhook 20%N "memory.created" JNull; RetrySweep; DeleteWebhook 51%N].
Proof.
  apply (webhook_identity_kept sample_env sample_lib _ sample_world 50%N
           (mkWebhook 20%N "https://up.test/hook" "s1" ["*"] true None None)).
  vm_compute. reflexivity.
Defined.

Lemma Forall2_elem_of_r {A B} (R : A → B → Prop) (l : list A) (k : list B) y :
  Forall2 R l k → y ∈ k → ∃ x, x ∈ l ∧ R x y.
Proof.
  induction 1 as [|x y' l k HR _ IH]; [by intros ?%not_elem_of_nil|].
  intros [->|Hy]%elem_of_cons.
  - exists x. split; [left|done].
  - destruct (IH Hy) as (x' & Hx' & HR'). exists x'. split; [by right|done].
Qed.

Lemma Forall2_elem_of_l {A B} (R : A → B → Prop) (l : list A) (k : list B) x :
  Forall2 R l k → x ∈ l → ∃ y, y ∈ k ∧ R x y.
Proof.
  induction 1 as [|x' y l k HR _ IH]; [by intros ?%not_elem_of_nil|].
  intros [->|Hx]%elem_of_cons.
  - exists y. split; [left|done].
  - destruct (IH Hx) as (y' & Hy' & HR'). exists y'. split; [by right|done].
Qed.

(** The rows of [fire_webhook]: it keeps the rows that were there, every
    row that it adds is a delivery to a matching webhook, and when it
    returns it returns one stored delivery per matching webhook and only
    such deliveries. *)
Lemma fire_webhook_targets E project_id event payload w :
  let r := fire_webhook E project_id event payload w in
  (∀ id d, webhook_deliveries w !! id = Some d → webhook_deliveries r.2 !! id = Some d)
  ∧ (∀ id d, webhook_deliveries r.2 !! id = Some d → webhook_deliveries w !! id = None →
       ∃ h, webhooks w !! dl_webhook_id d = Some h ∧ fires project_id event h)
  ∧ (∀ ds, r.1 = Ok ds →
       (∀ d, d ∈ ds → ∃ h, webhooks w !! dl_webhook_id d.2 = Some h
                           ∧ fires project_id event h
                           ∧ webhook_deliveries r.2 !! d.1 = Some d.2)
       ∧ (∀ id h, webhooks w !! id = Some h → fires project_id event h →
            ∃ d n, d ∈ ds ∧ dl_webhook_id d.2 = id
                   ∧ webhook_deliveries r.2 !! d.1 = Some d.2
                   ∧ records_outcome (post E n (request_of E h event payload)) d.2)).
Proof.
  intros r. subst r. rewrite fire_webhook_unfold.
  destruct (for_each_deliver E event payload (matching_webhooks project_id event w) w)
    as (Hkept & Hadded & Hret).
  split; [exact Hkept|]. split.
  - intros id d Hd Hnew.
    destruct (Hadded id d Hd Hnew) as ([k h] & n & Hin & Hid & _).
    apply elem_of_matching_webhooks in Hin as [Hh Hf]. simpl in *.
    exists h. by rewrite Hid.
  - intros ds Hds. destruct (Hret ds Hds) as (Hall & Hnd & Hfresh & Hnew & Hold). split.
    + intros [k d] Hd.
      destruct (Forall2_elem_of_r _ _ _ _ Hall Hd) as ([id h] & Hin & Hid & _).
      apply elem_of_matching_webhooks in Hin as [Hh Hf]. simpl in *.
      exists h. rewrite Hid. split_and!; [done..|]. by apply Hnew.
    + intros id h Hh Hf.
      assert ((id, h) ∈ matching_webhooks project_id event w) as Hin
        by by apply elem_of_matching_webhooks.
      destruct (Forall2_elem_of_l _ _ _ _ Hall Hin) as ([k d] & Hd & Hid & _ & n & Ho).
      exists (k, d), n. split_and!; [done..| |done]. by apply Hnew.
Qed.

(** X14. An inactive webhook is left in peace: once [update_webhook] has
    set [is_active] to false, no [fire_webhook], whatever the project,
    event and payload and whether it returns or raises, makes a delivery
    to the webhook (no delivery that it returns and no row that it adds
    is of the webhook, and the webhook is not stamped), and the retry
    sweep leaves every delivery row of the webhook as it is. *)
Theorem deactivated_webhook_silent (E : Env) (id : uuid) (h : Webhook) (w : World) :
  webhooks w !! id = Some h →
  let w1 := (update_webhook id (mkUpdateWebhookRequest None None (Some false)) w).2 in
  (∃ h1, webhooks w1 !! id = Some h1 ∧ wh_is_active h1 = false
         ∧ wh_static h1 = (wh_project_id h, wh_url h, wh_secret h, wh_events h, false))
  ∧ (∀ project_id event payload,
       let r := fire_webhook E project_id event payload w1 in
       (∀ ds d, r.1 = Ok ds → d ∈ ds → dl_webhook_id d.2 ≠ id)
       ∧ (∀ k d, webhook_deliveries r.2 !! k = Some d → dl_webhook_id d = id →
            webhook_deliveries w1 !! k = Some d)
       ∧ webhooks r.2 !! id = webhooks w1 !! id)
  ∧ (∀ k d, webhook_deliveries w1 !! k = Some d → dl_webhook_id d = id →
       webhook_deliveries (retry_failed_deliveries E w1).2 !! k = Some d).
Proof.
  intros Hh w1. subst w1.
  destruct (update_webhook_found id (mkUpdateWebhookRequest None None (Some false)) w h Hh)
    as (h1 & -> & Hurl & Hev & Hact & Hsec & Hpr & _). simpl in *.
  set (w1 := set_webhooks _ w).
  assert (webhooks w1 !! id = Some h1) as Hh1 by (unfold w1; simpl; apply lookup_insert_eq).
  split; [|split].
  - exists h1. split_and!; [done..|]. unfold wh_static. congruence.
  - intros project_id event payload.
    destruct (fire_webhook_targets E project_id event payload w1)
      as (Hkept & Hadded & Hret).
    split; [|split].
    + intros ds d Hds Hd Hid.
      destruct (proj1 (Hret ds Hds) d Hd) as (h' & Hh' & (_ & Ha & _) & _).
      rewrite Hid in Hh'. congruence.
    + intros k d Hk Hid.
      destruct (webhook_deliveries w1 !! k) as [d0|] eqn:Hk0.
      * rewrite (Hkept k d0 Hk0) in Hk. injection Hk as <-. exact Hk0.
      * destruct (Hadded k d Hk Hk0) as (h' & Hh' & _ & Ha & _).
        rewrite Hid in Hh'. congruence.
    + rewrite fire_webhook_unfold.
      destruct (for_each_deliver_webhooks E event payload
                  (matching_webhooks project_id event w1) w1) as (Hout & _).
      { apply NoDup_matching_webhooks. }
      { intros k' h'. apply matching_webhooks_rows. }
      apply Hout.
      intros ([k' h'] & -> & [Hh' (_ & Ha & _)]%elem_of_matching_webhooks)%list_elem_of_fmap.
      simpl in *. congruence.
  - intros k d Hk Hid.
    destruct (retry_sweep_tables E w1) as (_ & _ & Hrows).
    destruct (Hrows k d Hk) as [Hsame|[[_ (h' & Hh' & Ha)] _]]; [done|].
    rewrite Hid in Hh'. congruence.
Qed.

Lemma deactivated_webhook_silent_witness :
  let w1 := (update_webhook 50%N (mkUpdateWebhookRequest None None (Some false))
               sample_world).2 in
  let r := fire_webhook sample_env 20%N "memory.created" JNull w1 in
  (∃ ds, r.1 = Ok ds ∧ length ds = 1%nat ∧ ∀ d, d ∈ ds → dl_webhook_id d.2 ≠ 50%N)
  ∧ webhooks r.2 !! 50%N = webhooks w1 !! 50%N
  ∧ webhook_deliveries (retry_failed_deliveries sample_env w1).2 !! 61%N
    = Some (mkWebhookDelivery 50%N "memory.created" JNull (Some 500) (Some "busy") 2
              None None).
Proof.
  pose proof (deactivated_webhook_silent sample_env 50%N
                (mkWebhook 20%N "https://up.test/hook" "s1" ["*"] true None None)
                sample_world eq_refl) as H.
  cbv zeta in *. destruct H as (_ & Hfire & Hsweep).
  destruct (Hfire 20%N "memory.created" JNull) as (Hds & _ & Hwh).
  split; [|split].
  - eexists. split; [vm_compute; reflexivity|]. split; [reflexivity|].
    intros d Hd. eapply Hds; [vm_compute; reflexivity|exact Hd].
  - exact Hwh.
  - apply Hsweep; vm_compute; reflexivity.
Defined.

(** X15. [fire_webhook] writes on the webhooks only the two
    last-delivery columns, and only of matching webhooks.  Whether it
    returns or raises, the other webhooks and the users, tokens, projects
    and memberships are untouched, and each matching webhook is either
    untouched or has [last_triggered_at] set and [last_status_code] equal
    to the status code of a new delivery row of the webhook, its other
    columns staying as they were.  When [fire_webhook] returns, every
    matching webhook is stamped so, with the status code of its returned
    delivery (none when the POST failed in transport, whatever the column
    held before). *)
Theorem fire_webhook_stamps (E : Env) (project_id : uuid) (event : string)
    (payload : json) (w : World) :
  let r := fire_webhook E project_id event payload w in
  (∀ id, id ∉ (matching_webhooks project_id event w).*1 →
     webhooks r.2 !! id = webhooks w !! id)
  ∧ (∀ k h, (k, h) ∈ matching_webhooks project_id event w →
       webhooks r.2 !! k = Some h
       ∨ ∃ t id d, webhook_deliveries w !! id = None
                   ∧ webhook_deliveries r.2 !! id = Some d
                   ∧ dl_webhook_id d = k
                   ∧ webhooks r.2 !! k
                     = Some (mkWebhook (wh_project_id h) (wh_url h) (wh_secret h)
                               (wh_events h) (wh_is_active h) (Some t)
                               (dl_status_code d)))
  ∧ (users r.2 = users w ∧ refresh_tokens r.2 = refresh_tokens w
     ∧ projects r.2 = projects w ∧ project_members r.2 = project_members w)
  ∧ (∀ ds, r.1 = Ok ds →
       Forall2 (fun wh d =>
                  dl_webhook_id d.2 = wh.1
                  ∧ ∃ t, webhooks r.2 !! wh.1
                         = Some (mkWebhook (wh_project_id wh.2) (wh_url wh.2)
                                   (wh_secret wh.2) (wh_events wh.2) (wh_is_active wh.2)
                                   (Some t) (dl_status_code d.2)))
         (matching_webhooks project_id event w) ds).
Proof.
  intros r. subst r. rewrite fire_webhook_unfold.
  apply (for_each_deliver_webhooks E event payload
           (matching_webhooks project_id event w) w).
  - apply NoDup_matching_webhooks.
  - intros k h. apply matching_webhooks_rows.
Qed.

(** X16. A retry whose POST fails in transport does not clear the status
    code: the row keeps the code of its previous attempt, takes the error
    string (cut at 2000 characters) as response body and counts one more
    attempt, and the webhook's [last_status_code] is set to that kept
    code. *)
Theorem retry_transport_failure_keeps_status
    (E : Env) (retried : Z) (k : uuid) (d : WebhookDelivery) (h : Webhook)
    (msg : string) (w : World) :
  webhooks w !! dl_webhook_id d = Some h → wh_is_active h = true →
  post E (ticks w) (request_of E h (dl_event d) (dl_payload d)) = FailsInTransport msg →
  let d' := mkWebhookDelivery (dl_webhook_id d) (dl_event d) (dl_payload d)
              (dl_status_code d) (Some (py_slice_to 2000 msg))
              (dl_attempt_count d + 1) (dl_next_retry_at d) (dl_delivered_at d) in
  ∃ w', retry_delivery E retried (k, d) w = (Ok retried, w')
        ∧ webhook_deliveries w' = <[k := d']> (webhook_deliveries w)
        ∧ webhooks w'
          = <[dl_webhook_id d := set_wh_last (Some (utcnow E (S (ticks w))))
                                   (dl_status_code d) h]> (webhooks w).
Proof.
  intros Hh Ha Hpost d'. subst d'.
  unfold retry_delivery, try_except_HTTPError, client_post, datetime_now. run_m.
  rewrite Hh. simpl. rewrite Ha. simpl.
  unfold request_of in Hpost. simpl in Hpost. rewrite Hpost. simpl.
  eexists. split_and!; done.
Qed.

Lemma retry_transport_failure_keeps_status_witness :
  ∃ w', retry_delivery sample_env 0 (61%N, mkWebhookDelivery 51%N "memory.created" JNull
                                            (Some 500) (Some "busy") 2 None None)
          sample_world = (Ok 0, w')
        ∧ webhook_deliveries w'
          = <[61%N := mkWebhookDelivery 51%N "memory.created" JNull (Some 500)
                        (Some (py_slice_to 2000 "ConnectError")) (2 + 1) None None]>
              (webhook_deliveries sample_world)
        ∧ webhooks w'
          = <[51%N := set_wh_last (Some (utcnow sample_env (S (ticks sample_world))))
                        (Some 500)
                        (mkWebhook 20%N "https://down.test/hook" "s2" ["memory.created"]
                           true None None)]> (webhooks sample_world).
Proof.
  apply (retry_transport_failure_keeps_status sample_env 0 61%N
           (mkWebhookDelivery 51%N "memory.created" JNull (Some 500) (Some "busy") 2
              None None)
           (mkWebhook 20%N "https://down.test/hook" "s2" ["memory.created"] true None None)
           "ConnectError" sample_world).
  - vm_compute. reflexivity.
  - reflexivity.
  - vm_compute. reflexivity.
Defined.

(** One sweep leaves a row as it is or, when the row is undelivered with
    fewer than 3 attempts, adds one attempt to it. *)
Lemma retry_sweep_row E w k d :
  webhook_deliveries w !! k = Some d →
  ∃ d', webhook_deliveries (webhook_retry_sweep E w).2 !! k = Some d'
        ∧ (d' = d
           ∨ (retriable d
              ∧ dl_attempt_count d' = dl_attempt_count d + 1
              ∧ dl_webhook_id d' = dl_webhook_id d ∧ dl_event d' = dl_event d
              ∧ dl_payload d' = dl_payload d)).
Proof.
  intros Hk. unfold webhook_retry_sweep.
  destruct (retry_sweep_tables E w) as (_ & _ & Hrows).
  destruct (Hrows k d Hk) as [Hsame|[[Hr _] (d' & h & i & _ & Hd' & Hrec)]].
  - exists d. split; [done|by left].
  - exists d'. split; [done|]. right.
    destruct Hrec as (Hc & Hid & He & Hp & _). done.
Qed.

(** X17. The retries of a delivery are bounded: over any number of
    sweeps a row is never removed nor added, its webhook, event and
    payload never change, its [attempt_count] never decreases and never
    passes 3 (or the value it had, if that was above 3), and a row that is
    delivered or has reached 3 attempts stays exactly as it is. *)
Theorem retry_sweeps_bounded (E : Env) (n : nat) (w : World) :
  (∀ k, webhook_deliveries w !! k = None → webhook_deliveries (sweeps E n w) !! k = None)
  ∧ (∀ k d, webhook_deliveries w !! k = Some d →
       ∃ d', webhook_deliveries (sweeps E n w) !! k = Some d'
             ∧ dl_webhook_id d' = dl_webhook_id d ∧ dl_event d' = dl_event d
             ∧ dl_payload d' = dl_payload d
             ∧ dl_attempt_count d ≤ dl_attempt_count d' ≤ Z.max (dl_attempt_count d) 3
             ∧ (delivered d ∨ 3 ≤ dl_attempt_count d → d' = d)).
Proof.
  revert w. induction n as [|n IH]; intros w; simpl.
  { split; [done|]. intros k d Hk. exists d. split_and!; try done; lia. }
  destruct (IH (webhook_retry_sweep E w).2) as [IHnone IHrow]. split.
  - intros k Hk. apply IHnone. unfold webhook_retry_sweep.
    destruct (retry_sweep_tables E w) as (_ & Hnone & _). by apply Hnone.
  - intros k d Hk.
    destruct (retry_sweep_row E w k d Hk) as (d1 & Hk1 & Hstep).
    destruct (IHrow k d1 Hk1) as (d' & Hk' & Hid & He & Hp & Hc & Hfrozen).
    exists d'. destruct Hstep as [->|([Hund Hlt] & Hc1 & Hid1 & He1 & Hp1)].
    + done.
    + split_and!; [done|congruence..| | |].
      * lia.
      * lia.
      * intros [[t Ht]|Hge]; [congruence|lia].
Qed.

Lemma for_fold_retry_skip E (l : list (uuid * WebhookDelivery)) acc w :
  (∀ kd, kd ∈ l → ¬ parent_active w kd.2) →
  for_fold (retry_delivery E) acc l w = (Ok acc, w).
Proof.
  induction l as [|[k d] l IH]; intros Hl; [done|].
  rewrite for_fold_cons.
  destruct (retry_delivery_spec E acc (k, d) w) as [[_ ->]|(h & Hh & Ha & _)].
  - apply IH. intros kd Hkd. apply Hl. by right.
  - destruct (Hl (k, d)); [left|]. by exists h.
Qed.

(** X18. A sweep with nothing to retry has no effect: when every row is
    delivered, or has reached 3 attempts, or belongs to a webhook that is
    gone or inactive, [retry_failed_deliveries] returns 0, sends no
    request and leaves the session, its clock included, as it was. *)
Theorem retry_sweep_nothing_to_do (E : Env) (w : World) :
  (∀ k d, webhook_deliveries w !! k = Some d → ¬ attempted w d) →
  retry_failed_deliveries E w = (Ok 0, w).
Proof.
  intros Hnone. rewrite retry_failed_deliveries_unfold.
  rewrite for_fold_retry_skip.
  - assert (commit E w w = (Ok tt, w)) as -> by (apply commit_accepted; by left).
    done.
  - intros [k d] [Hk Hr%retry_query_true]%elem_of_select_where Hp.
    by apply (Hnone k d).
Qed.

Lemma retry_sweep_nothing_to_do_witness :
  retry_failed_deliveries sample_env
    (set_webhook_deliveries (fun t => delete 60%N (delete 61%N t)) sample_world)
  = (Ok 0, set_webhook_deliveries (fun t => delete 60%N (delete 61%N t)) sample_world).
Proof.
  apply retry_sweep_nothing_to_do.
  set (w := set_webhook_deliveries _ sample_world).
  assert (bool_decide
            (Forall (fun kd : uuid * WebhookDelivery =>
                       retry_query kd.2
                       && match webhooks w !! dl_webhook_id kd.2 with
                          | Some h => wh_is_active h
                          | None => false
                          end = false)
               (map_to_list (webhook_deliveries w))) = true) as Hall
    by (vm_compute; reflexivity).
  apply bool_decide_eq_true in Hall. rewrite Forall_forall in Hall.
  intros k d Hk [Hr%retry_query_true (h & Hh & Ha)].
  pose proof (Hall (k, d) (proj2 (elem_of_map_to_list _ _ _) Hk)) as Hkd.
  cbn [fst snd] in Hkd. rewrite Hr, Hh, Ha in Hkd. discriminate Hkd.
Defined.

Lemma sample_well_behaved : well_behaved sample_env.
Proof.
  split; [|done]. intros n r exc. unfold sample_env. simpl.
  by destruct (bool_decide (req_url r = "https://down.test/hook")).
Qed.

(** X19. [create_webhook] stores the url, events and flag of the request
    under a new key, with a secret drawn by the server and no
    last-delivery data.  When the webhook is active and subscribed to the
    event or to the wildcard, the next [fire_webhook] of its project, if
    it returns, returns a stored delivery to the webhook that records the
    outcome of a POST of the payload to its url, signed with its secret;
    and it returns in an environment where [client.post] raises nothing
    but an [HTTPError] and the database accepts every delivery row. *)
Theorem create_webhook_then_fire (E : Env) (L : Lib) (project_id : uuid)
    (data : CreateWebhookRequest) (event : string) (payload : json) (w : World) :
  cw_is_active data = true → event ∈ cw_events data ∨ "*" ∈ cw_events data →
  let id := uuid4 (webhooks w) in
  let h := mkWebhook project_id (cw_url data) (token_urlsafe L (ticks w) 32)
             (cw_events data) true None None in
  let w1 := (create_webhook L project_id data w).2 in
  let r := fire_webhook E project_id event payload w1 in
  (create_webhook L project_id data w).1 = Ok (id, h)
  ∧ webhooks w !! id = None ∧ webhooks w1 = <[id := h]> (webhooks w)
  ∧ (∀ ds, r.1 = Ok ds →
       ∃ d n, d ∈ ds ∧ dl_webhook_id d.2 = id
              ∧ webhook_deliveries r.2 !! d.1 = Some d.2
              ∧ records_outcome (post E n (request_of E h event payload)) d.2)
  ∧ (well_behaved E → ∃ ds, r.1 = Ok ds).
Proof.
  intros Ha Hev id h w1 r. subst w1 r.
  assert (create_webhook L project_id data w
          = (Ok (id, h), set_webhooks (insert id h) (set_ticks S w))) as ->.
  { unfold create_webhook, secrets_token_urlsafe. run_m. unfold h. by rewrite Ha. }
  simpl. split_and!; [done|apply uuid4_fresh|done| |].
  - intros ds Hds.
    destruct (fire_webhook_targets E project_id event payload
                (set_webhooks (insert id h) (set_ticks S w)))
      as (_ & _ & Hret).
    destruct (Hret ds Hds) as [_ Hall]. apply (Hall id h).
    + simpl. apply lookup_insert_eq.
    + unfold fires, h. simpl. done.
  - intros HE.
    destruct (fire_webhook_well_behaved E project_id event payload
                (set_webhooks (insert id h) (set_ticks S w)) HE)
      as (ds & w' & -> & _).
    by exists ds.
Qed.

Lemma create_webhook_then_fire_witness :
  let data := mkCreateWebhookRequest "https://new.test/hook" ["memory.updated"] true in
  let h := mkWebhook 20%N "https://new.test/hook" "-token" ["memory.updated"] true
             None None in
  let r := fire_webhook sample_env 20%N "memory.updated" JNull
             (create_webhook sample_lib 20%N data sample_world).2 in
  (create_webhook sample_lib 20%N data sample_world).1
  = Ok (uuid4 (webhooks sample_world), h)
  ∧ ∃ ds, r.1 = Ok ds
          ∧ ∃ d n, d ∈ ds ∧ dl_webhook_id d.2 = uuid4 (webhooks sample_world)
                   ∧ webhook_deliveries r.2 !! d.1 = Some d.2
                   ∧ records_outcome
                       (post sample_env n (request_of sample_env h "memory.updated" JNull))
                       d.2.
Proof.
  pose proof (create_webhook_then_fire sample_env sample_lib 20%N
                (mkCreateWebhookRequest "https://new.test/hook" ["memory.updated"] true)
                "memory.updated" JNull sample_world eq_refl) as H.
  cbv zeta in *. destruct H as (H1 & _ & _ & H2 & H3).
  - left. left.
  - destruct (H3 sample_well_behaved) as [ds Hds].
    split; [exact H1|]. exists ds. split; [exact Hds|exact (H2 ds Hds)].
Defined.

(** X20. [delete_webhook] returns [False] and writes nothing when the
    webhook is missing.  Otherwise it returns [True], the webhook is gone
    and so is every delivery row of it, and the other webhooks and the
    delivery rows of the other webhooks are as they were. *)
Theorem delete_webhook_cascade (webhook_id : uuid) (w : World) :
  (webhooks w !! webhook_id = None → delete_webhook webhook_id w = (Ok false, w))
  ∧ (∀ h, webhooks w !! webhook_id = Some h →
       let w' := (delete_webhook webhook_id w).2 in
       (delete_webhook webhook_id w).1 = Ok true
       ∧ webhooks w' !! webhook_id = None
       ∧ (∀ id, id ≠ webhook_id → webhooks w' !! id = webhooks w !! id)
       ∧ (∀ k d, webhook_deliveries w' !! k = Some d ↔
            webhook_deliveries w !! k = Some d ∧ dl_webhook_id d ≠ webhook_id)).
Proof.
  unfold delete_webhook, get_webhook. run_m. split.
  - by intros ->.
  - intros h ->. simpl. split_and!.
    + done.
    + apply lookup_delete_eq.
    + intros id Hne. by rewrite lookup_delete_ne.
    + intros k d. by rewrite map_lookup_filter_Some.
Qed.

Lemma delete_webhook_cascade_witness :
  let w' := (delete_webhook 50%N sample_world).2 in
  (delete_webhook 50%N sample_world).1 = Ok true
  ∧ webhooks w' !! 50%N = None
  ∧ webhook_deliveries w' !! 61%N = None
  ∧ webhook_deliveries w' !! 60%N = webhook_deliveries sample_world !! 60%N.
Proof.
  destruct (proj2 (delete_webhook_cascade 50%N sample_world)
              (mkWebhook 20%N "https://up.test/hook" "s1" ["*"] true None None))
    as (Hr & Hgone & _ & Hrows); [vm_compute; reflexivity|].
  split_and!.
  - exact Hr.
  - exact Hgone.
  - destruct (webhook_deliveries (delete_webhook 50%N sample_world).2 !! 61%N)
      as [d|] eqn:Hd; [|done].
    apply Hrows in Hd as [Hd Hne]. exfalso. apply Hne.
    vm_compute in Hd. by injection Hd as <-.
  - destruct (webhook_deliveries sample_world !! 60%N) as [d|] eqn:Hd.
    + apply Hrows. split; [done|]. vm_compute in Hd. by injection Hd as <-.
    + vm_compute in Hd. done.
Defined.

Lemma same_registry_is_Some w w' id :
  same_registry w w' → is_Some (webhooks w !! id) → is_Some (webhooks w' !! id).
Proof.
  intros Hs [h Hh]. destruct (same_registry_lookup w w' id h Hs Hh) as (h' & Hh' & _).
  by exists h'.
Qed.

Lemma no_orphans_step E L op w : no_orphans w → no_orphans (run_webhook_op E L op w).
Proof.
  intros Hno. destruct op as [pid data|wid data|wid|pid event payload|wid|]; simpl.
  - unfold create_webhook, secrets_token_urlsafe. run_m. intros k d Hk. simpl in *.
    destruct (Hno k d Hk) as [h Hh].
    destruct (decide (uuid4 (webhooks w) = dl_webhook_id d)) as [<-|Hne].
    + rewrite lookup_insert_eq. eauto.
    + rewrite lookup_insert_ne by done. eauto.
  - destruct (webhooks w !! wid) as [h0|] eqn:Hw.
    + destruct (update_webhook_found wid data w h0 Hw) as (h' & -> & _). simpl.
      intros k d Hk. simpl in *. destruct (Hno k d Hk) as [h Hh].
      destruct (decide (wid = dl_webhook_id d)) as [<-|Hne].
      * rewrite lookup_insert_eq. eauto.
      * rewrite lookup_insert_ne by done. eauto.
    + by rewrite (update_webhook_missing wid data w Hw).
  - unfold delete_webhook, get_webhook. run_m.
    destruct (webhooks w !! wid) as [h0|] eqn:Hw; simpl; [|done].
    intros k d [Hk Hne]%map_lookup_filter_Some. simpl in *.
    rewrite lookup_delete_ne by done. by eapply Hno.
  - pose proof (fire_webhook_same_registry E pid event payload w) as Hs.
    destruct (fire_webhook_targets E pid event payload w) as (Hkept & Hadded & _).
    intros k d Hk. apply (same_registry_is_Some w _ _ Hs).
    destruct (webhook_deliveries w !! k) as [d0|] eqn:Hk0.
    + rewrite (Hkept k d0 Hk0) in Hk. injection Hk as <-. by eapply Hno.
    + destruct (Hadded k d Hk Hk0) as (h & Hh & _). eauto.
  - pose proof (test_webhook_same_registry E wid w) as Hs.
    unfold test_webhook, get_webhook in *. run_m.
    destruct (webhooks w !! wid) as [h|] eqn:Hh; simpl in *; [|done].
    destruct (_deliver_step E (wid, h) "webhook.test"
                (JDict [("event", JStr "webhook.test");
                        ("webhook_id", JStr (uuid_str E wid))]) w) as [_ Hcase].
    destruct (_deliver E (wid, h) _ _ w) as [[r|e] w']; simpl in *.
    + destruct Hcase as [([e He] & _)|(d0 & t & _ & Hid & Ht & _)]; [done|].
      intros k d. rewrite Ht, lookup_insert_Some.
      intros [[_ <-]|[_ Hk]]; apply (same_registry_is_Some w w' _ Hs).
      * rewrite Hid. eauto.
      * by eapply Hno.
    + destruct Hcase as [(_ & _ & Ht)|(d0 & t & [=] & _)].
      intros k d. rewrite Ht. intros Hk.
      apply (same_registry_is_Some w w' _ Hs). by eapply Hno.
  - pose proof (retry_sweep_same_registry E w) as Hs.
    unfold webhook_retry_sweep in *.
    destruct (retry_sweep_tables E w) as (_ & Hnone & Hrows).
    set (w' := (retry_failed_deliveries E w).2) in *. intros k d' Hk'.
    apply (same_registry_is_Some w w' _ Hs).
    destruct (webhook_deliveries w !! k) as [d|] eqn:Hk.
    + destruct (Hrows k d Hk) as [Hsame|[_ (d1 & h & i & Hh & Hd1 & Hrec)]].
      * rewrite Hsame in Hk'. injection Hk' as <-. by eapply Hno.
      * rewrite Hd1 in Hk'. injection Hk' as <-.
        destruct Hrec as (_ & -> & _). eauto.
    + rewrite (Hnone k Hk) in Hk'. done.
Qed.

(** X21. Every delivery row keeps a parent: when each row of the delivery
    table points to a webhook of the registry, it still does after any
    sequence of registry and delivery operations (create, update, delete
    with its cascade, fire, test, retry sweep). *)
Theorem no_orphans_kept (E : Env) (L : Lib) (ops : list webhook_op) (w : World) :
  no_orphans w → no_orphans (run_webhook_ops E L ops w).
Proof.
  revert w. induction ops as [|op ops IH]; intros w Hno; simpl; [done|].
  apply IH. by apply no_orphans_step.
Qed.

Lemma sample_no_orphans : no_orphans sample_world.
Proof.
  assert (bool_decide
            (Forall (fun kd : uuid * WebhookDelivery =>
                       is_Some (webhooks sample_world !! dl_webhook_id kd.2))
               (map_to_list (webhook_deliveries sample_world))) = true) as Hall
    by (vm_compute; reflexivity).
  apply bool_decide_eq_true in Hall. rewrite Forall_forall in Hall.
  intros k d Hk. apply (Hall (k, d)). by apply elem_of_map_to_list.
Qed.

Lemma no_orphans_kept_witness :
  no_orphans
    (run_webhook_ops sample_env sample_lib
       [FireWebhook 20%N "memory.created" JNull; DeleteWebhook 50%N; RetrySweep;
        TestWebhook 51%N] sample_world).
Proof.
  exact (no_orphans_kept sample_env sample_lib _ sample_world sample_no_orphans).
Defined.

(** X22. An archived project is out of reach: after [archive_project],
    whatever the vector store answered, the project row is flagged
    archived, [require_project_access] fails with 404 for every principal
    and every level, the owner included, the memberships are untouched and
    [get_project] still finds the row under its slug. *)
Theorem archive_project_hides (L : Lib) (slug min_role : string) (pid : uuid) (p : Project)
    (request : RequestState) (user : uuid * User) (w : World) :
  unique_slug w → live_project w slug pid p →
  let w1 := (archive_project L (pid, p) w).2 in
  (archive_project L (pid, p) w).1 = Ok (pid, set_proj_is_archived true p)
  ∧ projects w1 = <[pid := set_proj_is_archived true p]> (projects w)
  ∧ project_members w1 = project_members w
  ∧ require_project_access min_role slug request user w1
    = (Raise (HTTPException 404 "Project not found"), w1)
  ∧ (get_project slug w1).1 = Ok (Some (pid, set_proj_is_archived true p)).
Proof.
  intros Hu (Hp & Hs & Ha) w1. subst w1.
  unfold archive_project. run_m.
  set (w1 := set_projects _ _).
  assert (∀ k q, projects w1 !! k = Some q → proj_slug q = slug →
                 k = pid ∧ q = set_proj_is_archived true p) as Hone.
  { intros k q. unfold w1. simpl. rewrite lookup_insert_Some.
    intros [[<- <-]|[Hne Hk]] Hq; [done|].
    destruct Hne. eapply Hu; eauto. congruence. }
  split_and!; [done..| |].
  - apply require_project_access_no_project.
    intros k q (Hk & Hq & Hqa). destruct (Hone k q Hk Hq) as [-> ->]. done.
  - unfold get_project. run_m.
    rewrite (select_where_one _ (projects w1) pid (set_proj_is_archived true p)).
    + done.
    + intros k q Hk Hq%bool_decide_eq_true. by destruct (Hone k q Hk Hq).
    + unfold w1. simpl. apply lookup_insert_eq.
    + by apply bool_decide_eq_true.
Qed.

Lemma archive_project_hides_witness :
  let w1 := (archive_project sample_lib sample_project sample_world).2 in
  require_project_access "viewer" "demo" (mkRequestState None None) (10%N, alice) w1
  = (Raise (HTTPException 404 "Project not found"), w1)
  ∧ (get_project "demo" w1).1 = Ok (Some (20%N, set_proj_is_archived true sample_project.2)).
Proof.
  pose proof (archive_project_hides sample_lib "demo" "viewer" 20%N sample_project.2
                (mkRequestState None None) (10%N, alice) sample_world
                sample_unique_slug) as H.
  cbv zeta in *. destruct H as (_ & _ & _ & H1 & H2).
  - split_and!; vm_compute; reflexivity.
  - split; [exact H1|exact H2].
Defined.

(** ** Principals *)

Lemma active_user_Some user_id w user :
  active_user user_id w = Some user ↔
  user.1 = user_id ∧ users w !! user_id = Some user.2 ∧ user_is_active user.2 = true.
Proof.
  unfold active_user. destruct user as [k u]. simpl.
  destruct (users w !! user_id) as [u0|]; [|split; [done|by intros (_ & ? & _)]].
  destruct (user_is_active u0) eqn:Ha; split.
  - intros [= <- <-]. done.
  - intros (-> & [= ->] & _). done.
  - done.
  - intros (_ & [= ->] & ?). congruence.
Qed.

Lemma get_current_user_cases J token s :
  let r := get_current_user J token s in
  same_tables (world s) (world r.2) ∧ api_keys r.2 = api_keys s
  ∧ ((∃ user, r.1 = Ok user ∧ ∃ uid, active_user uid (world s) = Some user)
     ∨ ∃ detail, r.1 = Raise (HTTPException 401 detail)).
Proof.
  unfold get_current_user, same_tables. destruct token as [credentials|]; simpl.
  - destruct (jwt_decode_sub J _ credentials ≫= uuid_of_string J) as [uid|]; simpl.
    + destruct (active_user uid (world s)) as [user|] eqn:Hu; simpl;
        split_and!; eauto 10.
    + split_and!; eauto.
  - split_and!; eauto.
Qed.

(** The outcomes of [get_current_principal] on the API-key path. *)
Lemma get_current_principal_key_cases E J x_api_key s :
  unique_key_hash s →
  let q := select_where (fun a => bool_decide (ak_key_hash a = sha256_hexdigest E x_api_key))
             (api_keys s) in
  let r := get_current_principal E J None (Some x_api_key) s in
  let now := utcnow E (ticks (world s)) in
  (q = [] ∧ r = (Raise (HTTPException 401 "Invalid API key"), s))
  ∨ ∃ k a, api_keys s !! k = Some a ∧ ak_key_hash a = sha256_hexdigest E x_api_key
      ∧ ((∃ t, ak_expires_at a = Some t ∧ t < now
               ∧ r = (Raise (HTTPException 401 "API key expired"), store_tick s))
         ∨ ((ak_expires_at a = None ∨ ∃ t, ak_expires_at a = Some t ∧ now ≤ t)
            ∧ ∃ t' n,
                r = (match active_user (ak_user_id a) (world s) with
                     | Some user => Ok user
                     | None => Raise (HTTPException 401 "User not found")
                     end,
                     mkStore (set_ticks (fun _ => n) (world s))
                       (<[k := set_ak_last_used_at (Some t') a]> (api_keys s))
                       (project_configs s)))).
Proof.
  intros Hu q r now. subst r q. unfold get_current_principal.
  destruct (select_where_at_most_one
              (fun a => bool_decide (ak_key_hash a = sha256_hexdigest E x_api_key))
              (api_keys s))
    as [Hnil|(k & a & Hk & Hh%bool_decide_eq_true & Hone)].
  { intros k1 k2 a1 a2 H1 H2 E1%bool_decide_eq_true E2%bool_decide_eq_true.
    eapply Hu; eauto. congruence. }
  - left. by rewrite Hnil.
  - right. exists k, a. rewrite Hone. simpl. split_and!; [done..|].
    destruct (ak_expires_at a) as [t|] eqn:Ht; simpl.
    + fold now. destruct (Z.ltb_spec t now) as [Hlt|Hge].
      * left. exists t. done.
      * right. split; [right; by exists t|].
        eexists _, (S (S (ticks (world s)))).
        unfold active_user. simpl.
        destruct (users (world s) !! ak_user_id a) as [u|]; [|done].
        by destruct (user_is_active u).
    + right. split; [by left|].
      eexists _, (S (ticks (world s))).
      unfold active_user. simpl.
      destruct (users (world s) !! ak_user_id a) as [u|]; [|done].
      by destruct (user_is_active u).
Qed.

(** X23. Whatever credentials come in, when key hashes are unique
    [get_current_principal] returns an active user of the table or fails
    with 401, and it writes to no table of the session other than the API
    keys; with a bearer credential present the API key is not looked at
    and the key table is not written; with no credential at all it fails
    with 401 'Not authenticated'. *)
Theorem get_current_principal_outcome (E : Env) (J : Jose)
    (authorization x_api_key : option string) (s : Store) :
  unique_key_hash s →
  let r := get_current_principal E J authorization x_api_key s in
  same_tables (world s) (world r.2)
  ∧ ((∃ user, r.1 = Ok user ∧ users (world s) !! user.1 = Some user.2
              ∧ user_is_active user.2 = true)
     ∨ ∃ detail, r.1 = Raise (HTTPException 401 detail))
  ∧ (is_Some authorization →
       r = get_current_user J authorization s ∧ api_keys r.2 = api_keys s)
  ∧ (authorization = None → x_api_key = None →
       r = (Raise (HTTPException 401 "Not authenticated"), s)).
Proof.
  intros Hu r. subst r.
  assert (∀ uid user, active_user uid (world s) = Some user →
            users (world s) !! user.1 = Some user.2 ∧ user_is_active user.2 = true)
    as Hact.
  { intros uid user (Hid & Hk & Ha)%active_user_Some. rewrite Hid. done. }
  destruct authorization as [credentials|].
  - destruct (get_current_user_cases J (Some credentials) s) as (Hsame & Hkeys & Hres).
    simpl in *. split_and!; [done| |done|done].
    destruct Hres as [(user & -> & uid & Huser)|Hfail]; [left|by right].
    exists user. split; [done|]. by eapply Hact.
  - destruct x_api_key as [x_api_key|].
    + split_and!; [| |by intros [? [=]]|done].
      * destruct (get_current_principal_key_cases E J x_api_key s Hu)
          as [[_ ->]|(k & a & _ & _ & [(t & _ & _ & ->)|(_ & t' & n & ->)])];
          unfold same_tables; simpl; done.
      * destruct (get_current_principal_key_cases E J x_api_key s Hu)
          as [[_ ->]|(k & a & _ & _ & [(t & _ & _ & ->)|(_ & t' & n & ->)])];
          simpl; [eauto..|].
        destruct (active_user (ak_user_id a) (world s)) as [user|] eqn:Huser; [left|eauto].
        exists user. split; [done|]. by eapply Hact.
    + simpl. split_and!; [by unfold same_tables|eauto|by intros [? [=]]|done].
Qed.

Lemma sample_unique_key_hash : unique_key_hash sample_store.
Proof.
  unfold unique_key_hash. apply (unique_column ak_key_hash).
  apply NoDup_check. vm_compute. reflexivity.
Qed.

Lemma get_current_principal_outcome_witness :
  unique_key_hash sample_store
  ∧ get_current_principal sample_env sample_jose (Some "forged") (Some "key-live") sample_store
    = get_current_user sample_jose (Some "forged") sample_store
  ∧ (get_current_principal sample_env sample_jose (Some "forged") (Some "key-live")
       sample_store).1 = Raise (HTTPException 401 "Invalid token").
Proof.
  split; [exact sample_unique_key_hash|].
  pose proof (get_current_principal_outcome sample_env sample_jose (Some "forged")
                (Some "key-live") sample_store sample_unique_key_hash) as H.
  cbv zeta in H. destruct H as (_ & _ & H & _).
  destruct (H (ltac:(eauto))) as [Heq _]. split; [exact Heq|].
  vm_compute. reflexivity.
Defined.

(** X24. An API key is refused once its expiry lies before the current
    time, and the refusal writes nothing to the key table.  A key that has
    no expiry, or whose expiry is the current time or later, is accepted:
    its [last_used_at] is stamped, no other key is touched, and the call
    returns the key's user when that user is active and fails with 401
    'User not found' otherwise, the stamp being written in both cases. *)
Theorem api_key_expiry (E : Env) (J : Jose) (x_api_key : string) (s : Store)
    (k : uuid) (a : ApiKey) :
  unique_key_hash s → api_keys s !! k = Some a →
  ak_key_hash a = sha256_hexdigest E x_api_key →
  let now := utcnow E (ticks (world s)) in
  let r := get_current_principal E J None (Some x_api_key) s in
  (∀ t, ak_expires_at a = Some t → t < now →
     r.1 = Raise (HTTPException 401 "API key expired") ∧ api_keys r.2 = api_keys s)
  ∧ (ak_expires_at a = None ∨ (∃ t, ak_expires_at a = Some t ∧ now ≤ t) →
       (∃ t', api_keys r.2 = <[k := set_ak_last_used_at (Some t') a]> (api_keys s))
       ∧ r.1 = match active_user (ak_user_id a) (world s) with
               | Some user => Ok user
               | None => Raise (HTTPException 401 "User not found")
               end).
Proof.
  intros Hu Hk Hh now r. subst r.
  destruct (get_current_principal_key_cases E J x_api_key s Hu)
    as [[Hnil _]|(k' & a' & Hk' & Hh' & Hcases)].
  { pose proof (proj1 (select_where_nil _ _) Hnil k a Hk) as Hf.
    apply bool_decide_eq_false in Hf. done. }
  assert (k' = k) as -> by (eapply Hu; eauto; congruence).
  assert (a' = a) as -> by congruence.
  fold now in Hcases.
  destruct Hcases as [(t & Ht & Hlt & ->)|(Hlive & t' & n & ->)]; simpl; split.
  - intros t0 Ht0 _. done.
  - intros [Hnone|(t0 & Ht0 & Hge)]; [congruence|]. assert (t0 = t) by congruence. lia.
  - intros t0 Ht0 Hlt. destruct Hlive as [Hnone|(t1 & Ht1 & Hge)]; [congruence|].
    assert (t0 = t1) by congruence. lia.
  - intros _. split; [eauto|done].
Qed.

Lemma api_key_expiry_witness :
  (get_current_principal sample_env sample_jose None (Some "key-old") sample_store).1
  = Raise (HTTPException 401 "API key expired")
  ∧ api_keys (get_current_principal sample_env sample_jose None (Some "key-old")
                sample_store).2 = api_keys sample_store.
Proof.
  pose proof (api_key_expiry sample_env sample_jose "key-old" sample_store 71%N
                (mkApiKey 11%N "old" "sha256:key-old" "key-" [] None (Some 500))
                sample_unique_key_hash) as H.
  cbv zeta in H. destruct H as [H _]; [vm_compute; reflexivity|reflexivity|].
  apply (H 500); [reflexivity|vm_compute; reflexivity].
Defined.

Lemma get_current_principal_ok E J authorization x_api_key s user :
  (get_current_principal E J authorization x_api_key s).1 = Ok user →
  ∃ uid, active_user uid (world s) = Some user.
Proof.
  unfold get_current_principal, get_current_user.
  destruct authorization as [credentials|]; simpl.
  - destruct (jwt_decode_sub J _ credentials ≫= uuid_of_string J) as [uid|]; [|done].
    destruct (active_user uid (world s)) as [u|] eqn:Hu; [|done].
    intros [= <-]. eauto.
  - destruct x_api_key as [x_api_key|]; [|done].
    destruct (select_where _ (api_keys s)) as [|[k a] [|x q]]; simpl; [done| |done].
    destruct (ak_expires_at a) as [t|]; simpl.
    + destruct (t <? _); simpl; [done|].
      unfold active_user. simpl.
      destruct (users (world s) !! ak_user_id a) as [u|] eqn:Hu; [|done].
      destruct (user_is_active u) eqn:Ha; [|done].
      intros [= <-]. exists (ak_user_id a). unfold active_user. by rewrite Hu, Ha.
    + unfold active_user. simpl.
      destruct (users (world s) !! ak_user_id a) as [u|] eqn:Hu; [|done].
      destruct (user_is_active u) eqn:Ha; [|done].
      intros [= <-]. exists (ak_user_id a). unfold active_user. by rewrite Hu, Ha.
Qed.

(** X25. A disabled user is locked out on both paths: after
    [update_user] has set [is_active] to false for a user, no bearer
    credential and no API key resolves to that user any more, whatever
    the key table holds. *)
Theorem disabled_user_locked_out (E : Env) (J : Jose) (user_id : uuid) (u : User)
    (s : Store) :
  users (world s) !! user_id = Some u →
  let w1 := (update_user user_id None (Some false) None (world s)).2 in
  users w1 !! user_id = Some (set_user_is_active false u)
  ∧ (∀ id, id ≠ user_id → users w1 !! id = users (world s) !! id)
  ∧ (∀ authorization x_api_key user,
       (get_current_principal E J authorization x_api_key
          (mkStore w1 (api_keys s) (project_configs s))).1
       = Ok user →
       user.1 ≠ user_id).
Proof.
  intros Hu w1. subst w1. unfold update_user. run_m. rewrite Hu. simpl.
  split_and!.
  - apply lookup_insert_eq.
  - intros id Hne. by rewrite lookup_insert_ne.
  - intros authorization x_api_key user Hok Hid.
    apply get_current_principal_ok in Hok as (uid & (Huid & Hk & Ha)%active_user_Some).
    destruct user as [k0 u0]. simpl in *. subst uid k0.
    rewrite lookup_insert_eq in Hk. injection Hk as <-. simpl in Ha. done.
Qed.

Lemma disabled_user_locked_out_witness :
  let w1 := (update_user 11%N None (Some false) None (world sample_store)).2 in
  users w1 !! 11%N = Some (set_user_is_active false bob)
  ∧ (get_current_principal sample_env sample_jose None (Some "key-live")
       (mkStore w1 (api_keys sample_store) (project_configs sample_store))).1
    = Raise (HTTPException 401 "User not found")
  ∧ (get_current_principal sample_env sample_jose None (Some "key-live") sample_store).1
    = Ok (11%N, bob).
Proof.
  pose proof (disabled_user_locked_out sample_env sample_jose 11%N bob sample_store
                eq_refl) as H.
  cbv zeta in *. destruct H as (H1 & _ & _).
  split_and!; [exact H1|vm_compute; reflexivity..].
Defined.
(** ** Slugs *)

Lemma slug_char_lower (c : ascii) : slug_char c = true → ascii_lower c = c.
Proof. by destruct c as [[] [] [] [] [] [] [] []]. Qed.

Lemma slug_char_no_space (c : ascii) : slug_char c = true → space_to_hyphen c = c.
Proof. by destruct c as [[] [] [] [] [] [] [] []]. Qed.

Lemma str_forall_filter (P : ascii → bool) (s : string) :
  str_forall P (str_filter P s) = true.
Proof.
  induction s as [|c s IH]; simpl; [done|].
  destruct (P c) eqn:Hc; simpl; [by rewrite Hc|done].
Qed.

Lemma str_filter_id (P : ascii → bool) (s : string) :
  str_forall P s = true → str_filter P s = s.
Proof.
  induction s as [|c s IH]; simpl; [done|].
  intros [Hc Hs]%andb_true_iff. rewrite Hc. by rewrite IH.
Qed.

Lemma str_map_id (f : ascii → ascii) (P : ascii → bool) (s : string) :
  (∀ c, P c = true → f c = c) → str_forall P s = true → str_map f s = s.
Proof.
  intros Hf. induction s as [|c s IH]; simpl; [done|].
  intros [Hc Hs]%andb_true_iff. by rewrite Hf, IH.
Qed.

Lemma slug_char_below_128 (c : ascii) : slug_char c = true → (N_of_ascii c <? 128)%N = true.
Proof. by destruct c as [[] [] [] [] [] [] [] []]. Qed.

(** [str.lower] leaves a slug as it is, whatever the library. *)
Lemma str_lower_from_slug (L : Lib) (before s : string) :
  str_forall slug_char s = true → str_lower_from L before s = s.
Proof.
  revert before. induction s as [|c s IH]; intros before; simpl; [done|].
  intros [Hc Hs]%andb_true_iff.
  rewrite (slug_char_below_128 c Hc), (slug_char_lower c Hc). simpl. by rewrite IH.
Qed.

(** On characters below 128 [str.lower] is [ascii_lower], character by
    character. *)
Lemma str_lower_from_below_128 (L : Lib) (before s : string) :
  str_forall (fun c => (N_of_ascii c <? 128)%N) s = true →
  str_lower_from L before s = str_map ascii_lower s.
Proof.
  revert before. induction s as [|c s IH]; intros before; simpl; [done|].
  intros [Hc Hs]%andb_true_iff. rewrite Hc. simpl. by rewrite IH.
Qed.

Lemma _slugify_id (L : Lib) (s : string) :
  str_forall slug_char s = true → _slugify L s = s.
Proof.
  intros Hs. unfold _slugify, str_lower.
  rewrite (str_lower_from_slug L "" s Hs).
  rewrite (str_map_id space_to_hyphen slug_char s slug_char_no_space Hs).
  by apply str_filter_id.
Qed.

(** X26. [_slugify] returns a string of lower-case letters, digits and
    hyphens; it leaves such a string as it is, and only such a string:
    the slugs are its fixed points, and applying it twice is applying it
    once, whatever [str.lower] makes of the characters from 128 on.  On a
    name of characters below 128 it lowers A-Z, turns the spaces into
    hyphens and deletes what is then no letter a-z, digit or hyphen. *)
Theorem slugify_fixed_points (L : Lib) (name : string) :
  str_forall slug_char (_slugify L name) = true
  ∧ (_slugify L name = name ↔ str_forall slug_char name = true)
  ∧ _slugify L (_slugify L name) = _slugify L name
  ∧ (str_forall (fun c => (N_of_ascii c <? 128)%N) name = true →
     _slugify L name
     = str_filter slug_char (str_map space_to_hyphen (str_map ascii_lower name))).
Proof.
  assert (Hc : str_forall slug_char (_slugify L name) = true)
    by apply str_forall_filter.
  split; [done|]. split; [|split].
  - split; [intros <-; done|apply _slugify_id].
  - by apply _slugify_id.
  - intros Ha. unfold _slugify, str_lower.
    by rewrite (str_lower_from_below_128 L "" name Ha).
Qed.

Example _slugify_sample :
  _slugify sample_lib "My Project #2 (beta)" = "my-project-2-beta".
Proof. reflexivity. Qed.

(** A name with the Kelvin sign: [str.lower] makes a [k] of it, which
    stays in the slug. *)
Example _slugify_kelvin :
  _slugify sample_lib ("Big " +:+ kelvin_sign +:+ " Lab") = "big-k-lab".
Proof. reflexivity. Qed.

(** ** Creation of a project *)

Lemma check_role_level_owner (min_role : string) : check_role_level "owner" min_role = true.
Proof.
  unfold check_role_level. apply Z.leb_le.
  pose proof (role_rank_nonneg min_role) as Hr.
  pose proof (role_rank_valid owner) as Ho. simpl in Ho. lia.
Qed.

Lemma slug_query_nil (slug : string) (t : gmap uuid Project) :
  select_where (fun p => bool_decide (proj_slug p = slug)) t = []
  ↔ ∀ pid p, t !! pid = Some p → proj_slug p ≠ slug.
Proof.
  rewrite select_where_nil. split; intros H pid p Hp.
  - by apply (bool_decide_eq_false_1 _ (H pid p Hp)).
  - by apply bool_decide_eq_false_2, (H pid).
Qed.

(** What a successful [create_project] writes. *)
Lemma create_project_new L (user : uuid * User) name slug description s :
  let sl := requested_slug L name slug in
  sl ≠ "" →
  (∀ pid p, projects (world s) !! pid = Some p → proj_slug p ≠ sl) →
  is_Some (users (world s) !! user.1) →
  let pid := uuid4 (projects (world s)) in
  let project := mkProject sl name description user.1 ("proj_" +:+ sl +:+ "_memories")
                   None false in
  let config := mkProjectConfig pid [("model", JStr (DEFAULT_LLM_MODEL L))]
                  [("model", JStr (DEFAULT_EMBED_MODEL L))] [] [] in
  create_project L user name slug description s
  = (Ok (pid, project),
     mkStore
       (set_project_members
          (insert (uuid4 (project_members (world s)))
             (mkProjectMember pid user.1 "owner" None))
          (set_projects (insert pid project) (world s)))
       (api_keys s)
       (<[uuid4 (project_configs s) := config]> (project_configs s))).
Proof.
  intros sl Hne Hfree [u Hu] pid project config. unfold create_project.
  fold sl. rewrite bool_decide_eq_false_2 by done.
  rewrite (proj2 (slug_query_nil sl _) Hfree). by rewrite Hu.
Qed.

(** X27. The creator of a project is its owner.  When the requested slug
    is not empty and not in use, [create_project] returns a project that
    is not archived, under a new key, with that slug and the collection
    name made from it; right after, [get_project] finds the project under
    the slug, [require_project_access] lets the creator in at every
    level, with an 'owner' membership that nobody invited, and
    [get_config] returns the configuration with the two default models. *)
Theorem create_project_owner (L : Lib) (user : uuid * User) (name : string)
    (slug description : option string) (s : Store) :
  let sl := requested_slug L name slug in
  sl ≠ "" →
  (∀ pid p, projects (world s) !! pid = Some p → proj_slug p ≠ sl) →
  is_Some (users (world s) !! user.1) →
  members_have_projects (world s) → configs_have_projects s →
  let r := create_project L user name slug description s in
  let pid := uuid4 (projects (world s)) in
  let project := mkProject sl name description user.1 ("proj_" +:+ sl +:+ "_memories")
                   None false in
  r.1 = Ok (pid, project)
  ∧ projects (world s) !! pid = None
  ∧ (get_project sl (world r.2)).1 = Ok (Some (pid, project))
  ∧ (∀ min_role request,
       (require_project_access min_role sl request user (world r.2)).1
       = Ok (mkRequestState (Some pid) (Some user.1),
             ((pid, project),
              (uuid4 (project_members (world s)),
               mkProjectMember pid user.1 "owner" None))))
  ∧ (get_config (pid, project) r.2).1
    = Ok (uuid4 (project_configs s),
          mkProjectConfig pid [("model", JStr (DEFAULT_LLM_MODEL L))]
            [("model", JStr (DEFAULT_EMBED_MODEL L))] [] []).
Proof.
  intros sl Hne Hfree Hu Hmp Hcp r pid project. subst r.
  rewrite (create_project_new L user name slug description s Hne Hfree Hu).
  fold sl pid project. simpl.
  pose proof (uuid4_fresh (projects (world s))) as Hpid. fold pid in Hpid.
  assert (Hslug : ∀ k' p', <[pid:=project]> (projects (world s)) !! k' = Some p' →
                           proj_slug p' = sl → k' = pid).
  { intros k' p' [[-> _]|[_ Hk']]%lookup_insert_Some Hs'; [done|].
    by destruct (Hfree k' p' Hk'). }
  split_and!.
  - done.
  - done.
  - unfold get_project. run_m.
    rewrite (select_where_one _ _ pid project); [done| | |].
    + intros k' p' Hk' Hs'%bool_decide_eq_true. by apply (Hslug k' p').
    + by rewrite lookup_insert_eq.
    + by apply bool_decide_eq_true.
  - intros min_role request. unfold require_project_access. run_m.
    rewrite (select_where_one (project_query sl) _ pid project).
    + simpl.
      rewrite (select_where_one (member_query pid user.1) _
                 (uuid4 (project_members (world s)))
                 (mkProjectMember pid user.1 "owner" None)).
      * simpl. by rewrite check_role_level_owner.
      * intros k' m' [[-> _]|[_ Hk']]%lookup_insert_Some [Hp' _]%member_query_true; [done|].
        destruct (Hmp k' m' Hk') as [p' Hp'']. rewrite Hp' in Hp''. congruence.
      * by rewrite lookup_insert_eq.
      * by apply member_query_true.
    + intros k' p' Hk' [Hs' _]%project_query_true. by apply (Hslug k' p').
    + by rewrite lookup_insert_eq.
    + by apply project_query_true.
  - unfold get_config. simpl.
    rewrite (select_where_one _ _ (uuid4 (project_configs s))
               (mkProjectConfig pid [("model", JStr (DEFAULT_LLM_MODEL L))]
                  [("model", JStr (DEFAULT_EMBED_MODEL L))] [] [])); [done| | |].
    + intros k' c' [[-> _]|[_ Hk']]%lookup_insert_Some Hc'%bool_decide_eq_true; [done|].
      destruct (Hcp k' c' Hk') as [p' Hp']. simpl in Hc'. rewrite Hc' in Hp'. congruence.
    + by rewrite lookup_insert_eq.
    + by apply bool_decide_eq_true.
Qed.
Lemma sample_members_have_projects : members_have_projects sample_world.
Proof.
  unfold members_have_projects.
  refine (table_forall (fun m => is_Some (projects sample_world !! pm_project_id m)) _ _).
  by vm_compute.
Qed.

Lemma sample_configs_have_projects : configs_have_projects sample_store.
Proof.
  unfold configs_have_projects.
  refine (table_forall (fun c => is_Some (projects sample_world !! pc_project_id c)) _ _).
  by vm_compute.
Qed.

Lemma sample_slug_free (slug : string) :
  bool_decide (slug ≠ "demo") = true →
  ∀ pid p, projects sample_world !! pid = Some p → proj_slug p ≠ slug.
Proof.
  intros Hne%bool_decide_eq_true.
  refine (table_forall (fun p => proj_slug p ≠ slug) _ _).
  apply bool_decide_eq_true. rewrite Forall_forall.
  intros [k p] Hk%elem_of_map_to_list. simpl in Hk.
  apply lookup_insert_Some in Hk as [[_ <-]|[_ Hk]]; [|done].
  simpl. congruence.
Qed.

Lemma create_project_owner_witness :
  let r := create_project sample_lib (10%N, alice) "New Project" None None sample_store in
  r.1 = Ok (uuid4 (projects sample_world),
            mkProject "new-project" "New Project" None 10%N "proj_new-project_memories"
              None false)
  ∧ (require_project_access "owner" "new-project" fresh_request (10%N, alice)
       (world r.2)).1
    = Ok (mkRequestState (Some (uuid4 (projects sample_world))) (Some 10%N),
          ((uuid4 (projects sample_world),
            mkProject "new-project" "New Project" None 10%N "proj_new-project_memories"
              None false),
           (uuid4 (project_members sample_world),
            mkProjectMember (uuid4 (projects sample_world)) 10%N "owner" None))).
Proof.
  assert (Hne : requested_slug sample_lib "New Project" None ≠ "") by done.
  assert (Hu : is_Some (users (world sample_store) !! (10%N, alice).1)) by (by eexists).
  destruct (create_project_owner sample_lib (10%N, alice) "New Project" None None
              sample_store Hne
              (sample_slug_free (requested_slug sample_lib "New Project" None) eq_refl) Hu
              sample_members_have_projects sample_configs_have_projects)
    as (H1 & _ & _ & H4 & _).
  split; [exact H1|exact (H4 "owner" fresh_request)].
Defined.
Lemma unique_slug_insert (w : World) (pid : uuid) (p : Project) :
  unique_slug w →
  (∀ k q, projects w !! k = Some q → proj_slug q = proj_slug p → k = pid) →
  unique_slug (set_projects (insert pid p) w).
Proof.
  intros Hu Hp k1 k2 p1 p2. simpl. rewrite !lookup_insert_Some.
  intros [[<- <-]|[Hn1 H1]] [[<- <-]|[Hn2 H2]] Hs; try done.
  - symmetry. by apply (Hp k2 p2).
  - by apply (Hp k1 p1).
  - by apply (Hu k1 k2 p1 p2).
Qed.

Lemma requested_slug_slug (L : Lib) (name : string) (slug : option string) :
  str_forall slug_char (requested_slug L name slug) = true.
Proof.
  unfold requested_slug. destruct slug as [sl|]; [destruct (bool_decide (sl = ""))|];
    apply str_forall_filter.
Qed.

Lemma requested_slug_again (L : Lib) (name name' : string) (slug : option string) :
  requested_slug L name slug ≠ "" →
  requested_slug L name' (Some (requested_slug L name slug)) = requested_slug L name slug.
Proof.
  intros Hne. unfold requested_slug at 1.
  rewrite bool_decide_eq_false_2 by done.
  apply _slugify_id, requested_slug_slug.
Qed.

(** A slug in use, by an archived project or not, is refused. *)
Lemma create_project_conflict L user name slug description s pid p :
  unique_slug (world s) →
  projects (world s) !! pid = Some p →
  proj_slug p = requested_slug L name slug → proj_slug p ≠ "" →
  create_project L user name slug description s
  = (Raise (HTTPException 409 "Project slug already exists"), s).
Proof.
  intros Hu Hp Hs Hne. unfold create_project. rewrite <- Hs.
  rewrite bool_decide_eq_false_2 by done.
  rewrite (select_where_one _ (projects (world s)) pid p); [done| |done|].
  - intros k' p' Hk' Hs'%bool_decide_eq_true. by apply (Hu k' pid p' p).
  - by apply bool_decide_eq_true.
Qed.

(** X28. A slug is given once.  After a successful [create_project],
    every further request whose name or slug comes down to the same slug
    fails with 409 'Project slug already exists' and writes nothing; the
    slug of the new project, sent as the slug of a request, is such a
    request.  Archiving the project does not free its slug: the requests
    fail in the same way after [archive_project]. *)
Theorem create_project_slug_taken (L : Lib) (user : uuid * User) (name : string)
    (slug description : option string) (s : Store) :
  let sl := requested_slug L name slug in
  unique_slug (world s) →
  sl ≠ "" →
  (∀ pid p, projects (world s) !! pid = Some p → proj_slug p ≠ sl) →
  is_Some (users (world s) !! user.1) →
  let r := create_project L user name slug description s in
  let archived := (in_world (archive_project L (uuid4 (projects (world s)),
                     mkProject sl name description user.1
                       ("proj_" +:+ sl +:+ "_memories") None false)) r.2).2 in
  (∀ name', requested_slug L name' (Some sl) = sl)
  ∧ ∀ user' name' slug' description', requested_slug L name' slug' = sl →
      create_project L user' name' slug' description' r.2
      = (Raise (HTTPException 409 "Project slug already exists"), r.2)
      ∧ create_project L user' name' slug' description' archived
        = (Raise (HTTPException 409 "Project slug already exists"), archived).
Proof.
  intros sl Hu Hne Hfree Huser r archived.
  split; [intros name'; by apply requested_slug_again|].
  intros user' name' slug' description' Hs'.
  subst archived r.
  rewrite (create_project_new L user name slug description s Hne Hfree Huser).
  fold sl. simpl.
  set (pid := uuid4 (projects (world s))).
  set (project := mkProject sl name description user.1 ("proj_" +:+ sl +:+ "_memories")
                    None false).
  assert (Hu1 : unique_slug (set_projects (insert pid project) (world s))).
  { apply unique_slug_insert; [done|].
    intros k q Hk Hq. by destruct (Hfree k q Hk). }
  split.
  - apply (create_project_conflict _ _ _ _ _ _ pid project); simpl.
    + exact Hu1.
    + by rewrite lookup_insert_eq.
    + done.
    + done.
  - apply (create_project_conflict _ _ _ _ _ _ pid (set_proj_is_archived true project));
      simpl.
    + intros k1 k2 p1 p2. simpl. rewrite !lookup_insert_Some.
      intros [[<- <-]|[Hn1 [[<- <-]|[Hn1' H1]]]] [[<- <-]|[Hn2 [[<- <-]|[Hn2' H2]]]] Hs;
        try done.
      * by destruct (Hfree k2 p2 H2).
      * by destruct (Hfree k1 p1 H1).
      * by apply (Hu k1 k2 p1 p2).
    + by rewrite lookup_insert_eq.
    + done.
    + done.
Qed.

Lemma create_project_slug_taken_witness :
  let r := create_project sample_lib (10%N, alice) "New Project" None None sample_store in
  create_project sample_lib (11%N, bob) "other" (Some "NEW project") None r.2
  = (Raise (HTTPException 409 "Project slug already exists"), r.2).
Proof.
  assert (Hne : requested_slug sample_lib "New Project" None ≠ "") by done.
  assert (Hu : is_Some (users (world sample_store) !! (10%N, alice).1)) by (by eexists).
  destruct (create_project_slug_taken sample_lib (10%N, alice) "New Project" None None
              sample_store sample_unique_slug Hne
              (sample_slug_free (requested_slug sample_lib "New Project" None) eq_refl) Hu)
    as [_ H].
  exact (proj1 (H (11%N, bob) "other" (Some "NEW project") None eq_refl)).
Defined.
(** ** The requests on projects keep the schema *)

Lemma require_project_access_ok min_role slug request user w :
  let r := require_project_access min_role slug request user w in
  r.2 = w
  ∧ ∀ access, r.1 = Ok access →
      projects w !! access.2.1.1 = Some access.2.1.2
      ∧ proj_slug access.2.1.2 = slug ∧ proj_is_archived access.2.1.2 = false.
Proof.
  unfold require_project_access. run_m.
  destruct (select_where (project_query slug) (projects w)) as [|[pid p] [|x q]] eqn:Hq;
    simpl; [by split| |by split].
  assert (Hin : (pid, p) ∈ select_where (project_query slug) (projects w))
    by (rewrite Hq; apply list_elem_of_here).
  apply elem_of_select_where in Hin as [Hp [Hs Ha]%project_query_true].
  destruct (select_where (member_query pid user.1) (project_members w))
    as [|[mid m] [|y q']]; simpl; [by split| |by split].
  destruct (check_role_level (pm_role m) min_role); simpl; [|by split].
  split; [done|]. intros access [= <-]. done.
Qed.

Lemma project_kept_refl (p : Project) : project_kept p p.
Proof. by repeat split. Qed.

Lemma projects_kept_refl (s s' : Store) :
  projects (world s') = projects (world s) → projects_kept s s'.
Proof. intros Heq pid p Hp. exists p. rewrite Heq. split; [done|apply project_kept_refl]. Qed.

Lemma projects_kept_trans (s1 s2 s3 : Store) :
  projects_kept s1 s2 → projects_kept s2 s3 → projects_kept s1 s3.
Proof.
  intros H12 H23 pid p Hp.
  destruct (H12 pid p Hp) as (p2 & Hp2 & Hs2 & Ho2 & Hq2 & Ha2).
  destruct (H23 pid p2 Hp2) as (p3 & Hp3 & Hs3 & Ho3 & Hq3 & Ha3).
  exists p3. split; [done|]. repeat split; try congruence. auto.
Qed.

(** A project row rewritten in place, the slug kept. *)
Lemma schema_in_place (s s' : Store) (pid : uuid) (p p' : Project) :
  projects (world s) !! pid = Some p → project_kept p p' →
  projects (world s') = <[pid := p']> (projects (world s)) →
  project_members (world s') = project_members (world s) →
  project_configs s' = project_configs s →
  project_schema s → every_project_configured s →
  project_schema s' ∧ every_project_configured s' ∧ projects_kept s s'.
Proof.
  intros Hp (Hslug & Hkept) Hps Hms Hcs [Hus Huc Hmp Hcp] Hall.
  assert (Hdom : ∀ k, is_Some (projects (world s) !! k) →
                      is_Some (projects (world s') !! k)).
  { intros k [q Hq]. rewrite Hps. destruct (decide (k = pid)) as [->|Hne].
    - rewrite lookup_insert_eq. by eexists.
    - rewrite lookup_insert_ne by done. by eexists. }
  split_and!.
  - split.
    + intros k1 k2 p1 p2. rewrite Hps, !lookup_insert_Some.
      intros [[<- <-]|[Hn1 H1]] [[<- <-]|[Hn2 H2]] Hs; try done.
      * apply (Hus pid k2 p p2); [done|done|congruence].
      * apply (Hus k1 pid p1 p); [done|done|congruence].
      * by apply (Hus k1 k2 p1 p2).
    + unfold unique_config. by rewrite Hcs.
    + intros k m. rewrite Hms. intros Hk. by apply Hdom, (Hmp k m).
    + intros k c. rewrite Hcs. intros Hk. by apply Hdom, (Hcp k c).
  - intros k q. rewrite Hps, Hcs. intros [[<- <-]|[Hn Hk]]%lookup_insert_Some.
    + by apply (Hall pid p).
    + by apply (Hall k q).
  - intros k q Hk. rewrite Hps. destruct (decide (k = pid)) as [->|Hne].
    + rewrite lookup_insert_eq. exists p'. split; [done|].
      assert (q = p) as -> by congruence. by split.
    + rewrite lookup_insert_ne by done. exists q. split; [done|apply project_kept_refl].
Qed.

Lemma schema_same_tables (s s' : Store) :
  projects (world s') = projects (world s) →
  project_members (world s') = project_members (world s) →
  project_configs s' = project_configs s →
  project_schema s → every_project_configured s →
  project_schema s' ∧ every_project_configured s' ∧ projects_kept s s'.
Proof.
  intros Hps Hms Hcs [Hus Huc Hmp Hcp] Hall. split_and!.
  - split.
    + unfold unique_slug. by rewrite Hps.
    + unfold unique_config. by rewrite Hcs.
    + unfold members_have_projects. by rewrite Hps, Hms.
    + unfold configs_have_projects. by rewrite Hps, Hcs.
  - unfold every_project_configured. by rewrite Hps, Hcs.
  - by apply projects_kept_refl.
Qed.
Lemma schema_update_project L user slug data s :
  project_schema s → every_project_configured s →
  let s' := run_project_op L (UpdateProject user slug data) s in
  project_schema s' ∧ every_project_configured s' ∧ projects_kept s s'.
Proof.
  intros Hsch Hall. simpl. unfold route_update_project.
  destruct (require_project_access_ok "admin" slug fresh_request user (world s))
    as [Hw Hok].
  run_m.
  destruct (require_project_access "admin" slug fresh_request user (world s))
    as [[access|e] w'] eqn:Hr; simpl in *; subst w'.
  - destruct (Hok access eq_refl) as (Hp & _ & _).
    destruct access as [rq [[pid p] mem]]. simpl in *.
    eapply (schema_in_place s _ pid p); [exact Hp| |simpl; reflexivity|done|done|done|done].
    destruct data as [[name|] [description|]]; simpl; by repeat split.
  - by apply schema_same_tables.
Qed.

Lemma schema_archive_project L user slug s :
  project_schema s → every_project_configured s →
  let s' := run_project_op L (ArchiveProject user slug) s in
  project_schema s' ∧ every_project_configured s' ∧ projects_kept s s'.
Proof.
  intros Hsch Hall. simpl. unfold route_archive_project.
  destruct (require_project_access_ok "owner" slug fresh_request user (world s))
    as [Hw Hok].
  run_m.
  destruct (require_project_access "owner" slug fresh_request user (world s))
    as [[access|e] w'] eqn:Hr; simpl in *; subst w'.
  - destruct (Hok access eq_refl) as (Hp & _ & _).
    destruct access as [rq [[pid p] mem]]. simpl in *.
    eapply (schema_in_place s _ pid p); [exact Hp| |simpl; reflexivity|done|done|done|done].
    by repeat split.
  - by apply schema_same_tables.
Qed.

Lemma get_config_ok project s :
  let r := get_config project s in
  r.2 = s ∧ ∀ config, r.1 = Ok config →
    project_configs s !! config.1 = Some config.2 ∧ pc_project_id config.2 = project.1.
Proof.
  unfold get_config.
  destruct (select_where _ (project_configs s)) as [|[cid c] [|x q]] eqn:Hq;
    simpl; [by split| |by split].
  split; [done|]. intros config [= <-].
  assert (Hin : (cid, c) ∈ select_where
                  (fun c => bool_decide (pc_project_id c = project.1)) (project_configs s))
    by (rewrite Hq; apply list_elem_of_here).
  apply elem_of_select_where in Hin as [Hc Hp%bool_decide_eq_true]. done.
Qed.

(** [update_config] rewrites the row of the project in place. *)
Lemma update_config_cases project data partial s :
  let r := update_config project data partial s in
  r.2 = s
  ∨ ∃ cid c c', project_configs s !! cid = Some c ∧ pc_project_id c = project.1
      ∧ pc_project_id c' = project.1
      ∧ r.2 = set_project_configs (insert cid c') s.
Proof.
  unfold update_config.
  destruct (get_config_ok project s) as [Hs Hok].
  destruct (get_config project s) as [[[cid c]|e] s'] eqn:Hr; simpl in *; subst s';
    [|by left].
  destruct (Hok _ eq_refl) as [Hc Hp]. simpl in *.
  right. eexists cid, c, _. split_and!; [done|done| |reflexivity].
  destruct partial; [|done].
  by destruct data as [[?|] [?|] [?|] [?|]].
Qed.

Lemma schema_update_config L user slug data partial s :
  project_schema s → every_project_configured s →
  let s' := run_project_op L (UpdateConfig user slug data partial) s in
  project_schema s' ∧ every_project_configured s' ∧ projects_kept s s'.
Proof.
  intros Hsch Hall. simpl. unfold route_update_config, in_world.
  destruct (require_project_access_ok "admin" slug fresh_request user (world s))
    as [Hw Hok].
  destruct (require_project_access "admin" slug fresh_request user (world s))
    as [[access|e] w'] eqn:Hr; simpl in *; subst w'.
  2: { by apply schema_same_tables. }
  assert (Hs0 : set_world (fun _ => world s) s = s) by (by destruct s).
  rewrite Hs0.
  destruct (update_config_cases access.2.1 data partial s)
    as [->|(cid & c & c' & Hc & Hp & Hp' & ->)]; [by apply schema_same_tables|].
  destruct Hsch as [Hus Huc Hmp Hcp]. split_and!.
  - split; simpl; [done| |done|].
    + intros k1 k2 c1 c2. simpl. rewrite !lookup_insert_Some.
      intros [[<- <-]|[Hn1 H1]] [[<- <-]|[Hn2 H2]] Heq; try done.
      * apply (Huc cid k2 c c2); [done|done|congruence].
      * apply (Huc k1 cid c1 c); [done|done|congruence].
      * by apply (Huc k1 k2 c1 c2).
    + intros k c0. simpl. intros [[<- <-]|[Hn Hk]]%lookup_insert_Some.
      * rewrite Hp', <- Hp. by apply (Hcp cid c).
      * by apply (Hcp k c0).
  - intros pid p Hp0. simpl in *. destruct (Hall pid p Hp0) as (k & c0 & Hk & Hpid).
    destruct (decide (k = cid)) as [->|Hne].
    + exists cid, c'. rewrite lookup_insert_eq. split; [done|]. congruence.
    + exists k, c0. by rewrite lookup_insert_ne.
  - by apply projects_kept_refl.
Qed.

Lemma schema_create_project L user name slug description s :
  project_schema s → every_project_configured s →
  let s' := run_project_op L (CreateProject user name slug description) s in
  project_schema s' ∧ every_project_configured s' ∧ projects_kept s s'.
Proof.
  intros Hsch Hall. simpl. unfold create_project.
  destruct (bool_decide (requested_slug L name slug = "")) eqn:Hne;
    [by apply schema_same_tables|].
  destruct (select_where _ (projects (world s))) as [|x [|y q]] eqn:Hq;
    [|by apply schema_same_tables..].
  destruct (users (world s) !! user.1) as [u|]; [|by apply schema_same_tables].
  pose proof (proj1 (slug_query_nil _ _) Hq) as Hfree.
  pose proof (uuid4_fresh (projects (world s))) as Hpid.
  pose proof (uuid4_fresh (project_configs s)) as Hcid.
  pose proof (uuid4_fresh (project_members (world s))) as Hmid.
  set (pid := uuid4 (projects (world s))) in *.
  set (cid := uuid4 (project_configs s)) in *.
  set (mid := uuid4 (project_members (world s))) in *.
  destruct Hsch as [Hus Huc Hmp Hcp]. simpl.
  assert (Hdom : ∀ k, is_Some (projects (world s) !! k) →
                      is_Some (<[pid := mkProject (requested_slug L name slug) name description
                                   user.1 ("proj_" +:+ requested_slug L name slug +:+ "_memories")
                                   None false]> (projects (world s)) !! k)).
  { intros k [q0 Hq0]. rewrite lookup_insert_ne by congruence. by eexists. }
  split_and!.
  - split; simpl.
    + apply unique_slug_insert; [done|]. intros k q0 Hk Hs0. by destruct (Hfree k q0 Hk).
    + intros k1 k2 c1 c2. simpl. rewrite !lookup_insert_Some.
      intros [[<- <-]|[Hn1 H1]] [[<- <-]|[Hn2 H2]] Heq; try done; simpl in Heq.
      * destruct (Hcp k2 c2 H2) as [q0 Hq0]. rewrite <- Heq in Hq0. congruence.
      * destruct (Hcp k1 c1 H1) as [q0 Hq0]. rewrite Heq in Hq0. congruence.
      * by apply (Huc k1 k2 c1 c2).
    + intros k m. simpl. intros [[<- <-]|[Hn Hk]]%lookup_insert_Some; simpl.
      * rewrite lookup_insert_eq. by eexists.
      * by apply Hdom, (Hmp k m).
    + intros k c. simpl. intros [[<- <-]|[Hn Hk]]%lookup_insert_Some; simpl.
      * rewrite lookup_insert_eq. by eexists.
      * by apply Hdom, (Hcp k c).
  - intros k q0. simpl. intros [[<- <-]|[Hn Hk]]%lookup_insert_Some.
    + eexists cid, _. rewrite lookup_insert_eq. by split.
    + destruct (Hall k q0 Hk) as (k' & c0 & Hk' & Hp0).
      exists k', c0. rewrite lookup_insert_ne by congruence. by split.
  - intros k q0 Hk. simpl. exists q0. rewrite lookup_insert_ne by congruence.
    split; [done|apply project_kept_refl].
Qed.

(** X29. The requests on projects keep the schema and the identity of
    the projects.  From a store where slugs are unique, each project has
    one configuration row and the foreign keys hold, every sequence of
    project requests (create, update, archive, write the configuration),
    accepted or refused, leads to such a store; no project is removed, none
    changes its slug, owner or collection, and none that is archived
    comes back. *)
Theorem project_requests_keep_schema (L : Lib) (ops : list project_op) (s : Store) :
  project_schema s → every_project_configured s →
  let s' := run_project_ops L ops s in
  project_schema s' ∧ every_project_configured s' ∧ projects_kept s s'.
Proof.
  revert s. induction ops as [|op ops IH]; intros s Hsch Hall; simpl.
  - split_and!; [done|done|by apply projects_kept_refl].
  - assert (Hstep : project_schema (run_project_op L op s)
                    ∧ every_project_configured (run_project_op L op s)
                    ∧ projects_kept s (run_project_op L op s)).
    { destruct op.
      - by apply schema_create_project.
      - by apply schema_update_project.
      - by apply schema_archive_project.
      - by apply schema_update_config. }
    destruct Hstep as (Hsch1 & Hall1 & Hk1).
    destruct (IH _ Hsch1 Hall1) as (Hsch2 & Hall2 & Hk2).
    split_and!; [done|done|]. by apply (projects_kept_trans _ _ _ Hk1).
Qed.
Lemma sample_project_schema : project_schema sample_store.
Proof.
  split.
  - exact sample_unique_slug.
  - unfold unique_config. apply (unique_column pc_project_id).
    apply NoDup_check. vm_compute. reflexivity.
  - exact sample_members_have_projects.
  - exact sample_configs_have_projects.
Qed.

Lemma sample_every_project_configured : every_project_configured sample_store.
Proof.
  intros pid p Hp. simpl in Hp.
  apply lookup_insert_Some in Hp as [[<- _]|[_ Hp]]; [|done].
  eexists 80%N, _. split; [vm_compute; reflexivity|reflexivity].
Qed.

Lemma project_requests_keep_schema_witness :
  let s' := run_project_ops sample_lib
              [CreateProject (11%N, bob) "Team Notes" None (Some "notes of the team");
               UpdateProject (10%N, alice) "demo"
                 (mkUpdateProjectRequest (Some "Demo 2") None);
               ArchiveProject (10%N, alice) "demo";
               CreateProject (12%N, carol) "Demo" None None;
               UpdateConfig (11%N, bob) "team-notes"
                 (mkUpdateProjectConfigRequest (Some [("model", JStr "other")]) None None None)
                 true]
              sample_store in
  project_schema s' ∧ every_project_configured s' ∧ projects_kept sample_store s'.
Proof.
  exact (project_requests_keep_schema sample_lib _ sample_store sample_project_schema
           sample_every_project_configured).
Defined.
(** ** Registration and login *)

Lemma email_query_nil (email : string) (t : gmap uuid User) :
  select_where (fun u => bool_decide (user_email u = email)) t = []
  ↔ ∀ k u, t !! k = Some u → user_email u ≠ email.
Proof.
  rewrite select_where_nil. split; intros H k u Hk.
  - by apply (bool_decide_eq_false_1 _ (H k u Hk)).
  - by apply bool_decide_eq_false_2, (H k).
Qed.

Lemma email_query_new (email : string) (w : World) (u : User) :
  (∀ k u', users w !! k = Some u' → user_email u' ≠ email) → user_email u = email →
  select_where (fun u => bool_decide (user_email u = email))
    (<[uuid4 (users w) := u]> (users w))
  = [(uuid4 (users w), u)].
Proof.
  intros Hfree He. apply select_where_one.
  - intros k' u' [[<- _]|[_ Hk']]%lookup_insert_Some He'%bool_decide_eq_true; [done|].
    by destruct (Hfree k' u' Hk').
  - by rewrite lookup_insert_eq.
  - by apply bool_decide_eq_true.
Qed.

(** X30. Registration, then login.  With an address that no user has,
    [register] returns an active user under a new key; from then on a
    second registration of the address fails with 409 and writes nothing;
    [login] with a password that does not verify against the hash of the
    registered one fails with 401 and writes nothing; with one that does,
    and a fresh refresh token, it returns an access token for the new user
    and the raw refresh token, whose unrevoked row it has stored; and once
    the administration's [update_user] has disabled the account, the same
    login fails with 403 'Account disabled', no token being issued. *)
Theorem register_then_login (E : Env) (L : Lib) (email name password : string) (w : World) :
  (∀ k u, users w !! k = Some u → user_email u ≠ email) →
  let r1 := register E email name password w in
  let id := uuid4 (users w) in
  let n := ticks w in
  ∃ u, r1.1 = Ok (id, u) ∧ user_email u = email ∧ user_is_active u = true
    ∧ (∀ name' password',
         register E email name' password' r1.2
         = (Raise (HTTPException 409 "Email already registered"), r1.2))
    ∧ (∀ password',
         pwd_context_verify L password' (pwd_context_hash E password) = Verifies false →
         login E L email password' r1.2
         = (Raise (HTTPException 401 "Invalid credentials"), r1.2))
    ∧ (∀ password',
         pwd_context_verify L password' (pwd_context_hash E password) = Verifies true →
         let refresh := token_urlsafe L (S n) 48 in
         (∀ k rt, refresh_tokens w !! k = Some rt →
                  rt_token_hash rt ≠ _hash_token E refresh) →
         let r2 := login E L email password' r1.2 in
         r2.1 = Ok (jwt_encode E id
                      (utcnow E n + timedelta_minutes (ACCESS_TOKEN_EXPIRE_MINUTES E)),
                    refresh)
         ∧ refresh_tokens r2.2 !! uuid4 (refresh_tokens w)
           = Some (mkRefreshToken id (_hash_token E refresh)
                     (utcnow E (S (S n)) + timedelta_days (REFRESH_TOKEN_EXPIRE_DAYS L))
                     None))
    ∧ (∀ password',
         pwd_context_verify L password' (pwd_context_hash E password) = Verifies true →
         let disabled := (update_user id None (Some false) None r1.2).2 in
         login E L email password' disabled
         = (Raise (HTTPException 403 "Account disabled"), disabled)).
Proof.
  intros Hfree r1 id n.
  set (u := mkUser email name (pwd_context_hash E password) true
              (bool_decide (Z.of_nat (size (users w)) = 0))).
  assert (Hr1 : r1 = (Ok (id, u), set_users (insert id u) w)).
  { subst r1. unfold register.
    destruct (create_user_cases E email name password w) as [[_ ->]|[Hne _]]; [done|].
    by destruct Hne; apply email_query_nil. }
  exists u. rewrite Hr1. simpl.
  pose proof (email_query_new email w u Hfree eq_refl) as Hq. fold id in Hq.
  split_and!; try done.
  - intros name' password'. unfold register.
    destruct (create_user_cases E email name' password' (set_users (insert id u) w))
      as [[Hnil _]|[_ ->]]; [|done].
    simpl in Hnil. rewrite Hq in Hnil. done.
  - intros password' Hv. unfold login, authenticate_user. run_m.
    rewrite Hq. simpl. by rewrite Hv.
  - intros password' Hv Hfresh.
    unfold login, authenticate_user, create_access_token, create_refresh_token,
      add_refresh_token, secrets_token_urlsafe, datetime_now. run_m.
    rewrite Hq. simpl. rewrite Hv. simpl.
    fold n.
    rewrite (proj2 (select_where_nil _ (refresh_tokens w))).
    + simpl. split; [done|]. by rewrite lookup_insert_eq.
    + intros k rt Hk. apply bool_decide_eq_false_2. simpl. by apply (Hfresh k rt).
  - intros password' Hv. unfold update_user. run_m.
    rewrite lookup_insert_eq. simpl.
    unfold login, authenticate_user. run_m.
    rewrite insert_insert_eq.
    rewrite (select_where_one _ _ id (set_user_is_active false u)).
    + simpl. by rewrite Hv.
    + intros k' u' [[<- _]|[_ Hk']]%lookup_insert_Some He'%bool_decide_eq_true; [done|].
      by destruct (Hfree k' u' Hk').
    + by rewrite lookup_insert_eq.
    + by apply bool_decide_eq_true.
Qed.

Lemma register_then_login_witness :
  let r1 := register sample_env "dave@example.test" "Dave" "pw" sample_world in
  (∃ u, r1.1 = Ok (uuid4 (users sample_world), u) ∧ user_is_active u = true)
  ∧ login sample_env sample_lib "dave@example.test" "wrong" r1.2
    = (Raise (HTTPException 401 "Invalid credentials"), r1.2)
  ∧ (login sample_env sample_lib "dave@example.test" "pw" r1.2).1 = Ok ("jwt", "x-token").
Proof.
  assert (Hfree : ∀ k u, users sample_world !! k = Some u →
                         user_email u ≠ "dave@example.test").
  { refine (table_forall (fun u => user_email u ≠ "dave@example.test") _ _).
    by vm_compute. }
  destruct (register_then_login sample_env sample_lib "dave@example.test" "Dave" "pw"
              sample_world Hfree) as (u & H1 & _ & Ha & _ & H401 & Hok & _).
  split_and!.
  - by exists u.
  - by apply H401.
  - refine (proj1 (Hok "pw" eq_refl _)).
    refine (table_forall (fun rt => rt_token_hash rt ≠ "sha256:x-token") _ _).
    by vm_compute.
Defined.
